(** * Kryos SDK: a shallow embedding of the configuration, transport and
    middleware modules, and the properties checked against them.

    Source modules embedded here:
    - [config.js]      (class [Config])
    - [api.js]         (class [APIModule])
    - [middleware.js]  (class [MiddlewareModule])
    - [utils.js]       (class [UtilitiesModule])
    - [index.js]       (class [KryosSDK], the constructor)

    JavaScript values are modelled by the fragment the embedded functions
    inspect: numbers are integers ([Z]), [NaN] and [undefined] are the [None]
    of an [option], strings are sequences of UTF-16 code units. *)

From Stdlib Require Import String Ascii DecimalString DecimalNat DecimalFacts.
From Stdlib Require Import Bool Arith ZArith NArith Lia List.
From Equations Require Import Equations.
Import ListNotations.

Set Implicit Arguments.
Set Warnings "-register-all".

(* ================================================================== *)
(** * JavaScript values *)
(* ================================================================== *)

Module Js.

(** A string is a sequence of UTF-16 code units. *)
Definition char := N.
Definition jsstring := list char.

(** Literals are written [str "..."]. *)
Definition str (s : string) : jsstring :=
  map N_of_ascii (list_ascii_of_string s).

Definition char_eqb (a b : char) : bool := N.eqb a b.

Fixpoint jsstring_eqb (a b : jsstring) : bool :=
  match a, b with
  | [], [] => true
  | x :: a', y :: b' => char_eqb x y && jsstring_eqb a' b'
  | _, _ => false
  end.

(** Primitive values. *)
Inductive scalar :=
| SUndefined
| SNull
| SBool (b : bool)
| SNum (n : Z)
| SNaN
| SStr (s : jsstring).

(** Values: primitives, plain objects (own enumerable properties in
    enumeration order) and arrays. *)
Inductive value :=
| VScalar (s : scalar)
| VObj (props : list (jsstring * value))
| VArr (items : list value).

Definition VStr (s : string) : value := VScalar (SStr (str s)).
Definition VNum (n : Z) : value := VScalar (SNum n).

(** ToBoolean. *)
Definition truthy_scalar (s : scalar) : bool :=
  match s with
  | SUndefined | SNull | SNaN => false
  | SBool b => b
  | SNum n => negb (n =? 0)%Z
  | SStr s => match s with [] => false | _ => true end
  end.

Definition truthy (v : value) : bool :=
  match v with
  | VScalar s => truthy_scalar s
  | VObj _ | VArr _ => true
  end.

(** [typeof v === 'object'] *)
Definition typeof_object (v : value) : bool :=
  match v with
  | VScalar SNull | VObj _ | VArr _ => true
  | VScalar _ => false
  end.

Definition isArray (v : value) : bool :=
  match v with VArr _ => true | _ => false end.

(** Property read [o[k]] on a plain object: [undefined] when absent. *)
Fixpoint lookup (k : jsstring) (props : list (jsstring * value)) : option value :=
  match props with
  | [] => None
  | (k', v) :: rest => if jsstring_eqb k k' then Some v else lookup k rest
  end.

Definition get (k : jsstring) (v : value) : value :=
  match v with
  | VObj props => match lookup k props with Some x => x | None => VScalar SUndefined end
  | _ => VScalar SUndefined
  end.

(** Property write [o[k] = v]: an existing key keeps its place. *)
Fixpoint assign (k : jsstring) (v : value) (props : list (jsstring * value))
  : list (jsstring * value) :=
  match props with
  | [] => [(k, v)]
  | (k', v') :: rest =>
      if jsstring_eqb k k' then (k', v) :: rest else (k', v') :: assign k v rest
  end.

(** [a || b] on optional numbers ([None] is [NaN] or [undefined]) with a
    number as the last operand. *)
Definition or_num (a : option Z) (b : Z) : Z :=
  match a with
  | Some n => if (n =? 0)%Z then b else n
  | None => b
  end.

(** [a || b] on optional strings ([None] is [null] or [undefined]). *)
Definition truthy_str (a : option jsstring) : bool :=
  match a with
  | Some (_ :: _) => true
  | _ => false
  end.

Definition or_str (a b : option jsstring) : option jsstring :=
  if truthy_str a then a else b.

Definition or_str_default (a : option jsstring) (b : jsstring) : jsstring :=
  match a with
  | Some (c :: s) => c :: s
  | _ => b
  end.

(** [String.prototype.slice(start)] with a single argument. *)
Definition slice_from (start : Z) (s : jsstring) : jsstring :=
  let len := Z.of_nat (length s) in
  let from := if (start <? 0)%Z then Z.max (len + start) 0 else Z.min start len in
  skipn (Z.to_nat from) s.

(** [s.startsWith(prefix)] *)
Fixpoint starts_with (prefix s : jsstring) : bool :=
  match prefix, s with
  | [], _ => true
  | c :: prefix', d :: s' => char_eqb c d && starts_with prefix' s'
  | _ :: _, [] => false
  end.

(** [s.includes(searchString)] *)
Fixpoint string_includes (s searchString : jsstring) : bool :=
  starts_with searchString s
  || match s with
     | [] => false
     | _ :: rest => string_includes rest searchString
     end.

(** Decimal rendering of an array index (template-literal [${index}]). *)
Definition dec (n : nat) : jsstring :=
  str (NilEmpty.string_of_uint (Nat.to_uint n)).

(** ** [parseInt(s)] with no radix

    Leading white space is skipped, a sign is read, a [0x]/[0X] prefix
    selects radix 16, and the longest prefix of digits is the value; no
    digit at all is [NaN] ([None]).  [parseInt(undefined)] is [NaN].

    The value here is the integer the digits write.  The code has the
    double nearest to it, which is that integer as long as it is at most
    [2^53] in magnitude ([max_exact]); a property that gives the number
    read from a numeral is stated within that range. *)


Definition is_whitespace (c : char) : bool :=
  existsb (N.eqb c)
    [9; 10; 11; 12; 13; 32; 160; 5760; 8192; 8193; 8194; 8195; 8196; 8197;
     8198; 8199; 8200; 8201; 8202; 8232; 8233; 8239; 8287; 12288; 65279]%N.

Fixpoint skip_whitespace (s : jsstring) : jsstring :=
  match s with
  | c :: rest => if is_whitespace c then skip_whitespace rest else s
  | [] => []
  end.

Definition digit_value (radix : N) (c : char) : option N :=
  let d :=
    if (48 <=? c)%N && (c <=? 57)%N then Some (c - 48)%N
    else if (97 <=? c)%N && (c <=? 122)%N then Some (c - 87)%N
    else if (65 <=? c)%N && (c <=? 90)%N then Some (c - 55)%N
    else None in
  match d with
  | Some n => if (n <? radix)%N then Some n else None
  | None => None
  end.

Fixpoint read_digits (radix : N) (acc : option N) (s : jsstring) : option N :=
  match s with
  | [] => acc
  | c :: rest =>
      match digit_value radix c with
      | Some d =>
          read_digits radix
            (Some (match acc with Some a => a * radix + d | None => d end)%N) rest
      | None => acc
      end
  end.

Definition parseInt (input : option jsstring) : option Z :=
  match input with
  | None => None
  | Some s =>
      let s := skip_whitespace s in
      let '(negative, s) :=
        match s with
        | 45%N :: rest => (true, rest)
        | 43%N :: rest => (false, rest)
        | _ => (false, s)
        end in
      let '(radix, s) :=
        match s with
        | 48%N :: 120%N :: rest => (16%N, rest)
        | 48%N :: 88%N :: rest => (16%N, rest)
        | _ => (10%N, s)
        end in
      match read_digits radix None s with
      | Some n => Some (if negative then - Z.of_N n else Z.of_N n)%Z
      | None => None
      end
  end.

End Js.

Import Js.

(* ================================================================== *)
(** * config.js *)
(* ================================================================== *)

Module Config.

(** The fields of a [Config] instance.  [serviceName], [serviceVersion],
    [environment] and [customTags] are set by [load] only ([None] before). *)
Record t := mk {
  keyId : option jsstring;
  keySecret : option jsstring;
  baseUrl : jsstring;
  enableDefaultMetrics : bool;
  enableLogging : bool;
  timeout : Z;
  retryAttempts : Z;
  retryDelay : Z;
  version : jsstring;
  userAgent : jsstring;
  customTags : option value;
  serviceName : option jsstring;
  serviceVersion : option jsstring;
  environment : option jsstring
}.

(** [constructor()] *)
Definition new : t := {|
  keyId := None;
  keySecret := None;
  baseUrl := str "http://localhost:5000/api";
  enableDefaultMetrics := true;
  enableLogging := true;
  timeout := 30000;
  retryAttempts := 3;
  retryDelay := 1000;
  version := str "1.0.0";
  userAgent := str "Kryos-NodeJS-SDK/1.0.0";
  customTags := None;
  serviceName := None;
  serviceVersion := None;
  environment := None
|}.

(** The variables of [process.env] that [load] reads. *)
Record Env := mkEnv {
  KRYOS_KEY_ID : option jsstring;
  KRYOS_KEY_SECRET : option jsstring;
  KRYOS_BASE_URL : option jsstring;
  KRYOS_ENABLE_METRICS : option jsstring;
  KRYOS_ENABLE_LOGGING : option jsstring;
  KRYOS_TIMEOUT : option jsstring;
  KRYOS_RETRY_ATTEMPTS : option jsstring;
  KRYOS_RETRY_DELAY : option jsstring;
  KRYOS_SERVICE_NAME : option jsstring;
  KRYOS_SERVICE_VERSION : option jsstring;
  NODE_ENV : option jsstring;
  KRYOS_ENVIRONMENT : option jsstring
}.

Definition empty_env : Env :=
  mkEnv None None None None None None None None None None None None.

(** The [options] argument of [load]; an absent property is [None]. *)
Record Options := mkOptions {
  o_keyId : option jsstring;
  o_keySecret : option jsstring;
  o_baseUrl : option jsstring;
  o_enableDefaultMetrics : option bool;
  o_enableLogging : option bool;
  o_timeout : option Z;
  o_retryAttempts : option Z;
  o_retryDelay : option Z;
  o_customTags : option value;
  o_serviceName : option jsstring;
  o_serviceVersion : option jsstring
}.

Definition no_options : Options :=
  mkOptions None None None None None None None None None None None.

(** [x !== 'false'] on an environment variable. *)
Definition not_false_string (x : option jsstring) : bool :=
  match x with
  | Some s => negb (jsstring_eqb s (str "false"))
  | None => true
  end.

(** [x !== false] on an option. *)
Definition not_false (x : option bool) : bool :=
  match x with
  | Some false => false
  | _ => true
  end.

(** [load(options = {})] *)
Definition load (this : t) (env : Env) (options : Options) : t := {|
  keyId := or_str (KRYOS_KEY_ID env) (o_keyId options);
  keySecret := or_str (KRYOS_KEY_SECRET env) (o_keySecret options);
  baseUrl :=
    or_str_default (or_str (KRYOS_BASE_URL env) (o_baseUrl options)) (baseUrl this);
  enableDefaultMetrics :=
    not_false_string (KRYOS_ENABLE_METRICS env)
    && not_false (o_enableDefaultMetrics options);
  enableLogging :=
    not_false_string (KRYOS_ENABLE_LOGGING env)
    && not_false (o_enableLogging options);
  timeout :=
    or_num (parseInt (KRYOS_TIMEOUT env)) (or_num (o_timeout options) (timeout this));
  retryAttempts :=
    or_num (parseInt (KRYOS_RETRY_ATTEMPTS env))
      (or_num (o_retryAttempts options) (retryAttempts this));
  retryDelay :=
    or_num (parseInt (KRYOS_RETRY_DELAY env))
      (or_num (o_retryDelay options) (retryDelay this));
  version := version this;
  userAgent := userAgent this;
  customTags :=
    Some (match o_customTags options with
          | Some v => if truthy v then v else VObj []
          | None => VObj []
          end);
  serviceName :=
    Some (or_str_default (or_str (KRYOS_SERVICE_NAME env) (o_serviceName options))
            (str "unknown-service"));
  serviceVersion :=
    Some (or_str_default
            (or_str (KRYOS_SERVICE_VERSION env) (o_serviceVersion options))
            (str "1.0.0"));
  environment :=
    Some (or_str_default (or_str (NODE_ENV env) (KRYOS_ENVIRONMENT env))
            (str "development"))
|}.

(** [isValid()] *)
Definition isValid (this : t) : bool :=
  if negb (truthy_str (keyId this)) || negb (truthy_str (keySecret this)) then false
  else
    match baseUrl this with
    | 104%N :: 116%N :: 116%N :: 112%N :: _ => true
    | _ => false
    end.

Definition opt_string (s : option jsstring) : value :=
  match s with
  | Some x => VScalar (SStr x)
  | None => VScalar SUndefined
  end.

Definition opt_value (v : option value) : value :=
  match v with
  | Some x => x
  | None => VScalar SUndefined
  end.

(** [toJSON()] *)
Definition toJSON (this : t) : value :=
  VObj [
    (str "keyId",
      if truthy_str (keyId this)
      then VScalar (SStr (str "***" ++
                          slice_from (-4) (match keyId this with Some k => k | None => [] end)))
      else VScalar SNull);
    (str "baseUrl", VScalar (SStr (baseUrl this)));
    (str "enableDefaultMetrics", VScalar (SBool (enableDefaultMetrics this)));
    (str "enableLogging", VScalar (SBool (enableLogging this)));
    (str "timeout", VNum (timeout this));
    (str "retryAttempts", VNum (retryAttempts this));
    (str "retryDelay", VNum (retryDelay this));
    (str "serviceName", opt_string (serviceName this));
    (str "serviceVersion", opt_string (serviceVersion this));
    (str "environment", opt_string (environment this));
    (str "customTags", opt_value (customTags this))
  ].

(** [getApiKey()], for an instance that holds both credentials.  The
    result is [None] when one is [null] or [undefined]: the template then
    prints it as such, and the record does not tell the two apart. *)
Definition getApiKey (this : t) : option jsstring :=
  match keyId this, keySecret this with
  | Some id, Some secret => Some (id ++ str "." ++ secret)
  | _, _ => None
  end.

(** [getAuthHeader()] *)
Definition getAuthHeader (this : t) : option jsstring :=
  match getApiKey this with
  | Some key => Some (str "Bearer " ++ key)
  | None => None
  end.

(** [getDefaultHeaders()] *)
Definition getDefaultHeaders (this : t) : option value :=
  match getAuthHeader this with
  | Some authorization =>
      Some (VObj [
        (str "Authorization", VScalar (SStr authorization));
        (str "User-Agent", VScalar (SStr (userAgent this)));
        (str "Content-Type", VStr "application/json");
        (str "X-SDK-Version", VScalar (SStr (version this)));
        (str "X-Service-Name", opt_string (serviceName this));
        (str "X-Service-Version", opt_string (serviceVersion this));
        (str "X-Environment", opt_string (environment this))
      ])
  | None => None
  end.

(** The figures of [process] that [getServiceMetadata] reads. *)
Record Process := mkProcess {
  node_version : jsstring;
  platform : jsstring;
  arch : jsstring
}.

(** [getServiceMetadata()] *)
Definition getServiceMetadata (this : t) (process : Process) : value :=
  VObj [
    (str "serviceName", opt_string (serviceName this));
    (str "serviceVersion", opt_string (serviceVersion this));
    (str "environment", opt_string (environment this));
    (str "sdkVersion", VScalar (SStr (version this)));
    (str "nodeVersion", VScalar (SStr (node_version process)));
    (str "platform", VScalar (SStr (platform process)));
    (str "arch", VScalar (SStr (arch process)));
    (str "customTags", opt_value (customTags this))
  ].

End Config.

(* ================================================================== *)
(** * api.js *)
(* ================================================================== *)

Module API.

(** How a promise settles, and how a call ends: with a value, or with what
    is thrown. *)
Inductive settled (V E : Type) :=
| Fulfilled (v : V)
| Rejected (reason : E).
Arguments Fulfilled {V E} v.
Arguments Rejected {V E} reason.

(** A thrown [Error], by its message. *)
Inductive error := JsError (message : jsstring).

(** ** [retryRequest]

    What one call of [retryRequest] does besides running [requestFn]: it
    invokes [requestFn] (numbered by the loop variable [attempt]), it warns,
    and it sleeps on a timer. *)
Inductive retry_event :=
| Attempt (attempt : Z)
| Warn (attempt retries delay : Z)
| Sleep (ms : Z).

Section Retry.

Variables W V E : Type.

(** An [async] request function acts on the world [W] and settles. *)
Definition request_fn := W -> settled V E * W.

(** The state of a run: the world and the events so far. *)
Definition run_state := (W * list retry_event)%type.

(** The [for] loop of [retryRequest], entered with the loop variable at
    [attempt].  Falling off the loop fulfils with [undefined] ([None]). *)
Equations? retry_loop (retries delay : Z) (requestFn : request_fn)
  (attempt : Z) (st : run_state) : settled (option V) E * run_state
  by wf (Z.to_nat (retries + 1 - attempt)) lt :=
retry_loop retries delay requestFn attempt (w, tr) with Z_le_gt_dec attempt retries => {
  | right _ => (Fulfilled None, (w, tr));
  | left _ with requestFn w => {
    | (Fulfilled v, w') => (Fulfilled (Some v), (w', tr ++ [Attempt attempt]));
    | (Rejected error, w') with Z.eq_dec attempt retries => {
      | left _ => (Rejected error, (w', tr ++ [Attempt attempt]));
      | right _ =>
          retry_loop retries delay requestFn (attempt + 1)
            (w', tr ++ [Attempt attempt; Warn attempt retries delay;
                        Sleep (delay * attempt)]) } } }.
Proof. lia. Qed.

(** [retryRequest(requestFn, maxRetries = null)] *)
Definition retryRequest (config : Config.t) (requestFn : request_fn)
  (maxRetries : option Z) (w : W) : settled (option V) E * run_state :=
  let retries := or_num maxRetries (Config.retryAttempts config) in
  let delay := Config.retryDelay config in
  retry_loop retries delay requestFn 1 (w, []).

End Retry.

(** ** The transport *)

(** A request body: JSON, or a multipart form (fields, then the [files]
    parts as (file name, path of the stream)). *)
Inductive body :=
| NoBody
| JsonBody (data : value)
| FormBody (fields : list (jsstring * scalar)) (files : list (jsstring * jsstring)).

Record request := mkRequest {
  method : jsstring;
  url : jsstring;
  payload : body
}.

(** [fs.statSync]: what the file system knows about a path. *)
Record Stats := mkStats {
  isFile : bool;
  size : Z
}.

(** ** [flattenAndAddToForm(formData, obj, prefix = '')]

    A call that returns is given by its [formData.append(key, value)] calls,
    in order, each with the value as it is passed (before the form encodes
    it); a call that throws is given by what it throws, the form being
    dropped by the caller.

    [for (const key in obj)] visits the properties of an object, the indices
    of an array and the indices of the code units of a string, and nothing
    for [null], [undefined], a number or a boolean.  An object is a plain
    one, with [Object.prototype] behind it. *)

Definition formKey_of (prefix key : jsstring) : jsstring :=
  match prefix with
  | [] => key
  | _ => prefix ++ str "." ++ key
  end.

Definition indexed (formKey : jsstring) (index : nat) : jsstring :=
  formKey ++ str "[" ++ dec index ++ str "]".

(** [obj.hasOwnProperty(key)] on an object.  The method is looked up on the
    object first, so a property of its own named [hasOwnProperty] shadows
    the method of [Object.prototype]; what the property holds is data, and
    calling it throws a [TypeError]. *)
Definition not_a_function : error :=
  JsError (str "obj.hasOwnProperty is not a function").

Definition hasOwnProperty (props : list (jsstring * value)) (key : jsstring)
  : settled bool error :=
  match lookup (str "hasOwnProperty") props with
  | Some _ => Rejected not_a_function
  | None =>
      Fulfilled match lookup key props with Some _ => true | None => false end
  end.

(** One step after another: the appends of both, or what the first of them
    to throw throws. *)
Definition and_then (first next : settled (list (jsstring * scalar)) error)
  : settled (list (jsstring * scalar)) error :=
  match first with
  | Rejected e => Rejected e
  | Fulfilled fields =>
      match next with
      | Rejected e => Rejected e
      | Fulfilled more => Fulfilled (fields ++ more)
      end
  end.

(** The loop over a string: every index is a property of its own, and its
    value is the code unit there, as a string. *)
Fixpoint each_code_unit (prefix : jsstring) (s : jsstring) (index : nat)
  : list (jsstring * scalar) :=
  match s with
  | [] => []
  | c :: rest =>
      (formKey_of prefix (dec index), SStr [c])
      :: each_code_unit prefix rest (S index)
  end.

Fixpoint flattenAndAddToForm (obj : value) (prefix : jsstring) {struct obj}
  : settled (list (jsstring * scalar)) error :=
  let forEach :=
    fix forEach (formKey : jsstring) (items : list value) (index : nat)
      : settled (list (jsstring * scalar)) error :=
      match items with
      | [] => Fulfilled []
      | item :: rest =>
          and_then
            (match item with
             | VObj _ | VArr _ | VScalar SNull =>
                 flattenAndAddToForm item (indexed formKey index)
             | VScalar s => Fulfilled [(indexed formKey index, s)]
             end)
            (forEach formKey rest (S index))
      end in
  match obj with
  | VObj props =>
      (fix each (rest : list (jsstring * value))
         : settled (list (jsstring * scalar)) error :=
         match rest with
         | [] => Fulfilled []
         | (key, value) :: rest =>
             and_then
               (match hasOwnProperty props key with
                | Rejected e => Rejected e
                | Fulfilled false => Fulfilled []
                | Fulfilled true =>
                    match value with
                    | VObj _ => flattenAndAddToForm value (formKey_of prefix key)
                    | VArr items => forEach (formKey_of prefix key) items 0
                    | VScalar s => Fulfilled [(formKey_of prefix key, s)]
                    end
                end)
               (each rest)
         end) props
  | VArr elems =>
      (* an index of an array is a property of its own, and the array
         inherits [hasOwnProperty] *)
      (fix each (elems : list value) (index : nat)
         : settled (list (jsstring * scalar)) error :=
         match elems with
         | [] => Fulfilled []
         | value :: rest =>
             and_then
               (match value with
                | VObj _ => flattenAndAddToForm value (formKey_of prefix (dec index))
                | VArr items => forEach (formKey_of prefix (dec index)) items 0
                | VScalar s => Fulfilled [(formKey_of prefix (dec index), s)]
                end)
               (each rest (S index))
         end) elems 0
  | VScalar (SStr s) => Fulfilled (each_code_unit prefix s 0)
  | VScalar _ => Fulfilled []
  end.

(** The appends of a call on an object, an array or [null] in which every
    [hasOwnProperty] call answers: [flattenAndAddToForm] without its
    failure.  The fields of a record are reasoned about on this function,
    which [flattenAndAddToForm] agrees with wherever it returns. *)
Fixpoint fields_of (obj : value) (prefix : jsstring) {struct obj}
  : list (jsstring * scalar) :=
  let forEach :=
    fix forEach (formKey : jsstring) (items : list value) (index : nat)
      : list (jsstring * scalar) :=
      match items with
      | [] => []
      | item :: rest =>
          (match item with
           | VObj _ | VArr _ | VScalar SNull =>
               fields_of item (indexed formKey index)
           | VScalar s => [(indexed formKey index, s)]
           end) ++ forEach formKey rest (S index)
      end in
  match obj with
  | VObj props =>
      (fix each (props : list (jsstring * value)) : list (jsstring * scalar) :=
         match props with
         | [] => []
         | (key, value) :: rest =>
             (match value with
              | VObj _ => fields_of value (formKey_of prefix key)
              | VArr items => forEach (formKey_of prefix key) items 0
              | VScalar s => [(formKey_of prefix key, s)]
              end) ++ each rest
         end) props
  | VArr elems =>
      (fix each (elems : list value) (index : nat) : list (jsstring * scalar) :=
         match elems with
         | [] => []
         | value :: rest =>
             (match value with
              | VObj _ => fields_of value (formKey_of prefix (dec index))
              | VArr items => forEach (formKey_of prefix (dec index)) items 0
              | VScalar s => [(formKey_of prefix (dec index), s)]
              end) ++ each rest (S index)
         end) elems 0
  | VScalar _ => []
  end.

(** The two inner loops of [fields_of], by name: the [forEach] over the
    items of an array value, and the treatment of one property. *)
Fixpoint forEach_fields (formKey : jsstring) (items : list value) (index : nat)
  : list (jsstring * scalar) :=
  match items with
  | [] => []
  | item :: rest =>
      (match item with
       | VObj _ | VArr _ | VScalar SNull =>
           fields_of item (indexed formKey index)
       | VScalar s => [(indexed formKey index, s)]
       end) ++ forEach_fields formKey rest (S index)
  end.

Definition member_fields (formKey : jsstring) (value : value)
  : list (jsstring * scalar) :=
  match value with
  | VObj _ => fields_of value formKey
  | VArr items => forEach_fields formKey items 0
  | VScalar s => [(formKey, s)]
  end.

(** The loops of [flattenAndAddToForm], by name: the [forEach] over the
    items of an array value, the treatment of one property, and the
    [for...in] loops over the properties of an object [props] and over the
    indices of an array. *)
Fixpoint forEach_appends (formKey : jsstring) (items : list value) (index : nat)
  : settled (list (jsstring * scalar)) error :=
  match items with
  | [] => Fulfilled []
  | item :: rest =>
      and_then
        (match item with
         | VObj _ | VArr _ | VScalar SNull =>
             flattenAndAddToForm item (indexed formKey index)
         | VScalar s => Fulfilled [(indexed formKey index, s)]
         end)
        (forEach_appends formKey rest (S index))
  end.

Definition member_appends (formKey : jsstring) (value : value)
  : settled (list (jsstring * scalar)) error :=
  match value with
  | VObj _ => flattenAndAddToForm value formKey
  | VArr items => forEach_appends formKey items 0
  | VScalar s => Fulfilled [(formKey, s)]
  end.

Fixpoint each_property (props : list (jsstring * value)) (prefix : jsstring)
  (rest : list (jsstring * value)) : settled (list (jsstring * scalar)) error :=
  match rest with
  | [] => Fulfilled []
  | (key, value) :: rest =>
      and_then
        (match hasOwnProperty props key with
         | Rejected e => Rejected e
         | Fulfilled false => Fulfilled []
         | Fulfilled true => member_appends (formKey_of prefix key) value
         end)
        (each_property props prefix rest)
  end.

Fixpoint each_index (prefix : jsstring) (elems : list value) (index : nat)
  : settled (list (jsstring * scalar)) error :=
  match elems with
  | [] => Fulfilled []
  | value :: rest =>
      and_then (member_appends (formKey_of prefix (dec index)) value)
        (each_index prefix rest (S index))
  end.

(** The same for [fields_of], over the indices of an array. *)
Fixpoint index_fields (prefix : jsstring) (elems : list value) (index : nat)
  : list (jsstring * scalar) :=
  match elems with
  | [] => []
  | value :: rest =>
      member_fields (formKey_of prefix (dec index)) value
      ++ index_fields prefix rest (S index)
  end.

Section Transport.

(** The remote endpoint: its state, and how the HTTP client (response
    interceptor included) settles a request against it. *)
Variable Net : Type.
Variable http : request -> Net -> settled value error * Net.

(** The file system at the time of the send. *)
Variable statSync : jsstring -> option Stats.

Definition existsSync (path : jsstring) : bool :=
  match statSync path with Some _ => true | None => false end.

(** [path.basename], the file name a part is sent under. *)
Variable basename : jsstring -> jsstring.

(** The world a send acts on: the endpoint, the HTTP requests issued so
    far and the read streams opened so far. *)
Record world := mkWorld {
  net : Net;
  requests : list request;
  streams : list jsstring
}.

(** [this.httpClient.post(...)] or [.get(...)], then [response.data]: the
    request is issued, and settles with the body of the response or with
    the error the response interceptor makes of the failure. *)
Definition issue (req : request) (w : world) : settled value error * world :=
  let (r, n) := http req (net w) in
  (r, {| net := n; requests := requests w ++ [req]; streams := streams w |}).

Definition post (endpoint : jsstring) (b : body) : world -> settled value error * world :=
  issue {| method := str "POST"; url := endpoint; payload := b |}.

Definition get_ (endpoint : jsstring) : world -> settled value error * world :=
  issue {| method := str "GET"; url := endpoint; payload := NoBody |}.

(** The [for (const filePath of filePaths)] loop of [sendWithFiles]. *)
Fixpoint add_files (filePaths : list jsstring) (files : list (jsstring * jsstring))
  (w : world) : settled (list (jsstring * jsstring)) error * world :=
  match filePaths with
  | [] => (Fulfilled files, w)
  | filePath :: rest =>
      if negb (existsSync filePath)
      then (Rejected (JsError (str "File not found: " ++ filePath)), w)
      else
        add_files rest (files ++ [(basename filePath, filePath)])
          {| net := net w; requests := requests w; streams := streams w ++ [filePath] |}
  end.

(** [sendWithFiles(endpoint, data, filePaths)] *)
Definition sendWithFiles (endpoint : jsstring) (data : value)
  (filePaths : list jsstring) (w : world) : settled value error * world :=
  match flattenAndAddToForm data [] with
  | Rejected e => (Rejected e, w)
  | Fulfilled fields =>
      match add_files filePaths [] w with
      | (Rejected e, w') => (Rejected e, w')
      | (Fulfilled files, w') => post endpoint (FormBody fields files) w'
      end
  end.

Variable config : Config.t.

(** The closure given to [retryRequest] by [sendUserData] and
    [sendEntryData]. *)
Definition send_once (endpoint : jsstring) (data : value) (files : list jsstring)
  : request_fn world value error :=
  fun w =>
    match files with
    | _ :: _ => sendWithFiles endpoint data files w
    | [] => post endpoint (JsonBody data) w
    end.

(** [healthCheck()] *)
Definition healthCheck (w : world)
  : settled (option value) error * run_state world :=
  retryRequest config (get_ (str "/data/health")) None w.

(** [sendUserData(userData, files = [])] *)
Definition sendUserData (userData : value) (files : list jsstring) (w : world)
  : settled (option value) error * run_state world :=
  if negb (truthy userData) || negb (truthy (get (str "externalId") userData))
  then (Rejected (JsError (str "User data must include externalId")), (w, []))
  else retryRequest config (send_once (str "/data/users") userData files) None w.

(** [sendEntryData(entryData, files = [])] *)
Definition sendEntryData (entryData : value) (files : list jsstring) (w : world)
  : settled (option value) error * run_state world :=
  if negb (truthy entryData)
     || negb (truthy (get (str "externalId") entryData))
     || negb (truthy (get (str "dataType") entryData))
  then (Rejected (JsError (str "Entry data must include externalId and dataType")),
        (w, []))
  else retryRequest config (send_once (str "/data/entries") entryData files) None w.

(** ** [batchSendEntries(entries)] *)

Definition batchSize : nat := 10.

(** [Array.prototype.slice(start, end)] for indices within the array. *)
Definition slice (A : Type) (start stop : nat) (l : list A) : list A :=
  firstn (stop - start) (skipn start l).

(** The outcome of one member, as [Promise.allSettled] reports it. *)
Definition member_result := settled (option value) error.

(** [batch.map(entry => this.sendEntryData(entry))].  The promises of a chunk
    run on one event loop against one endpoint; here each runs to its
    settlement before the next starts, in input order. *)
Fixpoint send_members (batch : list value) (w : world) : list member_result * world :=
  match batch with
  | [] => ([], w)
  | entry :: rest =>
      let '(r, (w1, _)) := sendEntryData entry [] w in
      let '(rs, w2) := send_members rest w1 in
      (r :: rs, w2)
  end.

(** [Promise.allSettled] never rejects. *)
Definition allSettled (promises : list member_result)
  : settled (list member_result) error :=
  Fulfilled promises.

(** The state of the chunk loop: the [results] pushed so far, the value of
    [batch] at each iteration so far, and the world. *)
Record batch_state := mkBatch {
  results : list member_result;
  chunks : list (list value);
  after : world
}.

(** The [for (let i = 0; i < entries.length; i += batchSize)] loop. *)
Equations? batch_loop (entries : list value) (i : nat) (st : batch_state)
  : batch_state by wf (length entries - i) lt :=
batch_loop entries i st with lt_dec i (length entries) => {
  | right _ => st;
  | left _ =>
      let batch := slice i (i + batchSize) entries in
      let '(batchPromises, w) := send_members batch (after st) in
      batch_loop entries (i + batchSize)
        match allSettled batchPromises with
        | Fulfilled batchResults =>
            {| results := results st ++ batchResults;
               chunks := chunks st ++ [batch];
               after := w |}
        | Rejected error =>
            {| results := results st ++ map (fun _ => Rejected error) batch;
               chunks := chunks st ++ [batch];
               after := w |}
        end }.
Proof. unfold batchSize. lia. Qed.

Definition batchSendEntries (entries : value) (w : world)
  : settled batch_state error :=
  match entries with
  | VArr (entry :: rest) =>
      Fulfilled (batch_loop (entry :: rest) 0 {| results := []; chunks := []; after := w |})
  | _ => Rejected (JsError (str "Entries must be a non-empty array"))
  end.

End Transport.

End API.

Import API.

(* ================================================================== *)
(** * middleware.js *)
(* ================================================================== *)

Module Middleware.

(** ** [getRoutePattern(req)] *)

(** The parts of an Express request the helper reads: [req.route.path]
    ([None] when [req.route] or its [path] is missing) and [req.url]. *)
Record Request := mkReq {
  route_path : option jsstring;
  url : jsstring
}.

(** A pattern tried at the head of the input: what follows the match. *)
Definition matcher := jsstring -> option jsstring.

Definition is_digit (c : char) : bool := (48 <=? c)%N && (c <=? 57)%N.

Definition is_slash (c : char) : bool := (c =? 47)%N.

Fixpoint drop_digits (s : jsstring) : jsstring :=
  match s with
  | c :: rest => if is_digit c then drop_digits rest else s
  | [] => []
  end.

(** [/\/\d+/] *)
Definition slash_digits : matcher := fun s =>
  match s with
  | c :: d :: rest =>
      if is_slash c && is_digit d then Some (drop_digits rest) else None
  | _ => None
  end.

(** The class [[a-f0-9-]]. *)
Definition is_hex_or_dash (c : char) : bool :=
  ((97 <=? c)%N && (c <=? 102)%N) || is_digit c || (c =? 45)%N.

Fixpoint exactly (p : char -> bool) (n : nat) (s : jsstring) : option jsstring :=
  match n with
  | O => Some s
  | S n' =>
      match s with
      | c :: rest => if p c then exactly p n' rest else None
      | [] => None
      end
  end.

(** [/\/[a-f0-9-]{36}/] *)
Definition slash_uuid : matcher := fun s =>
  match s with
  | c :: rest => if is_slash c then exactly is_hex_or_dash 36 rest else None
  | [] => None
  end.

(** [s.replace(/re/g, replacement)]: matches are found left to right and do
    not overlap.  The recursion is on [fuel]; [replace_all] gives enough. *)
Fixpoint replace_all_fuel (fuel : nat) (m : matcher) (replacement s : jsstring)
  : jsstring :=
  match fuel with
  | O => s
  | S fuel' =>
      match m s with
      | Some rest => replacement ++ replace_all_fuel fuel' m replacement rest
      | None =>
          match s with
          | [] => []
          | c :: rest => c :: replace_all_fuel fuel' m replacement rest
          end
      end
  end.

Definition replace_all (m : matcher) (replacement s : jsstring) : jsstring :=
  replace_all_fuel (S (length s)) m replacement s.

(** Line terminators, which [.] does not match. *)
Definition is_line_terminator (c : char) : bool :=
  (c =? 10)%N || (c =? 13)%N || (c =? 8232)%N || (c =? 8233)%N.

Definition no_line_terminator (s : jsstring) : bool :=
  forallb (fun c => negb (is_line_terminator c)) s.

(** [s.replace(/\?.*$/, '')]: the leftmost [?] from which no line
    terminator occurs up to the end of the input, and all that follows. *)
Fixpoint strip_query (s : jsstring) : jsstring :=
  match s with
  | [] => []
  | c :: rest =>
      if (c =? 63)%N && no_line_terminator rest then []
      else c :: strip_query rest
  end.

(** The fallback of [getRoutePattern]. *)
Definition normalize (url : jsstring) : jsstring :=
  strip_query
    (replace_all slash_uuid (str "/:uuid")
       (replace_all slash_digits (str "/:id") url)).

Definition getRoutePattern (req : Request) : jsstring :=
  match route_path req with
  | Some (c :: path) => c :: path
  | _ => normalize (url req)
  end.

(** ** [extractUserAction(req)] *)

(** [actionMap].  Its keys are looked up with a key that holds a colon,
    which no property inherited from [Object.prototype] has. *)
Definition actionMap : list (jsstring * jsstring) :=
  [(str "post:/api/auth/login", str "login");
   (str "post:/api/auth/logout", str "logout");
   (str "post:/api/auth/register", str "register");
   (str "get:/api/profile", str "view_profile");
   (str "put:/api/profile", str "update_profile");
   (str "post:/api/orders", str "create_order");
   (str "get:/api/orders", str "view_orders")].

Fixpoint action_of (key : jsstring) (map : list (jsstring * jsstring))
  : option jsstring :=
  match map with
  | [] => None
  | (k, action) :: rest => if jsstring_eqb key k then Some action else action_of key rest
  end.

Definition is_lower_or_digit (c : char) : bool :=
  ((97 <=? c)%N && (c <=? 122)%N) || is_digit c.

(** [/[^a-z0-9]/] *)
Definition not_lower_or_digit : matcher := fun s =>
  match s with
  | c :: rest => if is_lower_or_digit c then None else Some rest
  | [] => None
  end.

(** [method] is [req.method]; [toLowerCase] is the string method. *)
Definition extractUserAction (toLowerCase : jsstring -> jsstring)
  (method : jsstring) (req : Request) : jsstring :=
  let method := toLowerCase method in
  let key := method ++ str ":" ++ getRoutePattern req in
  match action_of key actionMap with
  | Some (c :: action) => c :: action
  | _ =>
      method ++ str "_"
      ++ replace_all not_lower_or_digit (str "_") (getRoutePattern req)
  end.

(** ** [getErrorSeverity(error)] *)

Inductive severity := Critical | Warning | Plain.

Definition severity_string (s : severity) : jsstring :=
  match s with
  | Critical => str "critical"
  | Warning => str "warning"
  | Plain => str "error"
  end.

(** The properties of a thrown error the helper reads. *)
Record FrameworkError := mkError {
  statusCode : option Z;
  name : jsstring
}.

Definition getErrorSeverity (error : FrameworkError) : severity :=
  let by_name :=
    if jsstring_eqb (name error) (str "ValidationError") then Warning
    else if jsstring_eqb (name error) (str "UnauthorizedError") then Warning
    else Plain in
  match statusCode error with
  | Some code =>
      if (code =? 0)%Z then by_name
      else if (500 <=? code)%Z then Critical
      else if (400 <=? code)%Z then Warning
      else by_name
  | None => by_name
  end.

(** ** [healthCheck(customChecks = [])] *)

Inductive health_status := Healthy | Degraded | Unhealthy.

Definition status_string (s : health_status) : jsstring :=
  match s with
  | Healthy => str "healthy"
  | Degraded => str "degraded"
  | Unhealthy => str "unhealthy"
  end.

(** The [health] object, without its clock readings ([timestamp], [uptime],
    [responseTime]). *)
Record health := mkHealth {
  status : health_status;
  service : jsstring;
  version : jsstring;
  checks : list (jsstring * value);
  error : option jsstring
}.

Record response := mkResponse {
  code : Z;
  json : health
}.

(** Own enumerable properties, as object spread [{...v}] copies them. *)
Fixpoint indexed_from (A : Type) (f : A -> value) (index : nat) (items : list A)
  : list (jsstring * value) :=
  match items with
  | [] => []
  | item :: rest => (dec index, f item) :: indexed_from f (S index) rest
  end.

Definition spread (v : value) : list (jsstring * value) :=
  match v with
  | VObj props => props
  | VArr items => indexed_from (fun x => x) 0 items
  | VScalar (SStr s) => indexed_from (fun c => VScalar (SStr [c])) 0 s
  | VScalar _ => []
  end.

(** *** The order of the properties of an object

    An object lists its properties with the array indices first, in
    ascending order, and then the other names in the order of their
    creation.  An array index is the decimal numeral, without a leading
    zero, of a number below [2^32 - 1]. *)
Definition array_index (key : jsstring) : option N :=
  match key with
  | [] => None
  | c :: rest =>
      if forallb is_digit key
         && (negb (c =? 48)%N || match rest with [] => true | _ :: _ => false end)
      then
        match read_digits 10 None key with
        | Some n => if (n <? 4294967295)%N then Some n else None
        | None => None
        end
      else None
  end.

(** A new property under the array index [i], put in its place. *)
Fixpoint insert_index (i : N) (key : jsstring) (v : value)
  (props : list (jsstring * value)) : list (jsstring * value) :=
  match props with
  | [] => [(key, v)]
  | (k', v') :: rest =>
      match array_index k' with
      | Some j =>
          if (j <? i)%N then (k', v') :: insert_index i key v rest
          else (key, v) :: props
      | None => (key, v) :: props
      end
  end.

(** What an object literal and a spread do with a key: a property that
    exists gets the value and keeps its place, a new one is created. *)
Definition define (key : jsstring) (v : value) (props : list (jsstring * value))
  : list (jsstring * value) :=
  match lookup key props, array_index key with
  | None, Some i => insert_index i key v props
  | _, _ => assign key v props
  end.

Definition define_all (props target : list (jsstring * value))
  : list (jsstring * value) :=
  fold_left (fun acc kv => define (fst kv) (snd kv) acc) props target.

(** The assignment [o[key] = v] on a plain object: the same, but for the
    key [__proto__], which names the accessor of the prototype: writing to
    it makes no property. *)
Definition set (key : jsstring) (v : value) (props : list (jsstring * value))
  : list (jsstring * value) :=
  if jsstring_eqb key (str "__proto__") then props else define key v props.

(** [v === null || v === undefined]: the values a property read throws on. *)
Definition nullish (v : value) : bool :=
  match v with
  | VScalar SNull | VScalar SUndefined => true
  | _ => false
  end.

(** The [TypeError] of a property read on [null] or [undefined]. *)
Definition cannot_read (v : value) (property : string) : API.error :=
  JsError (str "Cannot read properties of "
           ++ match v with VScalar SNull => str "null" | _ => str "undefined" end
           ++ str " (reading '" ++ str property ++ str "')").

(** A thrown value is any value; an [Error] is seen as the object of the
    properties read from it, here its [message]. *)
Definition thrown_error (e : API.error) : value :=
  match e with JsError m => VObj [(str "message", VScalar (SStr m))] end.

Definition message_of (e : API.error) : jsstring :=
  match e with JsError m => m end.

Section Health.

Variables W V : Type.

(** An entry of [customChecks]: a function, with its [name] (a string) and
    what awaiting its call does to the world, fulfilling with a result or
    throwing (or rejecting with) a reason; or a value that is not a
    function. *)
Inductive check :=
| Probe (name : jsstring) (run : W -> settled value value * W)
| NotFunction (entry : value).

(** [this.config] and [this.api.healthCheck] ([None] when [this.api] is
    not set). *)
Variable config : option Config.t.
Variable api : option (W -> settled V value * W).

(** The process and OS figures read for [checks.memory] ([used], [free],
    [total]), or the message of what reading them threw.  The module is an
    ES module, where [require] is not defined: as the file is written,
    [require('os')] throws a [ReferenceError], and the figures are read only
    where the module is run with a [require] in scope. *)
Variable figures : value * value * value + jsstring.

(** The conversion of a value that is not a string to a property key, which
    throws on an object that has no primitive value. *)
Variable toPropertyKey : value -> settled jsstring API.error.

(** How a run of the [try] block ends: with the response sent, or in the
    outer [catch], with what was thrown. *)
Inductive outcome :=
| Done (h : health) (w : W)
| Thrown (e : API.error) (h : health) (w : W).

Definition unhealthy_entry (message : value) : value :=
  VObj [(str "status", VStr "unhealthy"); (str "error", message)].

(** [{ status: result.status || 'healthy', ...result }] *)
Definition check_entry (result : value) : value :=
  let st := get (str "status") result in
  VObj (define_all (spread result)
          [(str "status", if truthy st then st else VStr "healthy")]).

(** [health.checks[key] = entry] *)
Definition set_check (key : jsstring) (entry : value) (h : health) : health :=
  {| status := status h; service := service h; version := version h;
     checks := set key entry (checks h); error := error h |}.

Definition set_status (s : health_status) (h : health) : health :=
  {| status := s; service := service h; version := version h;
     checks := checks h; error := error h |}.

(** [check.name || 'custom'], as a property key. *)
Definition check_key (c : check) : settled jsstring API.error :=
  match c with
  | Probe [] _ => Fulfilled (str "custom")
  | Probe name _ => Fulfilled name
  | NotFunction entry =>
      if nullish entry then Rejected (cannot_read entry "name")
      else
        match get (str "name") entry with
        | VScalar (SStr (c :: s)) => Fulfilled (c :: s)
        | name => if truthy name then toPropertyKey name else Fulfilled (str "custom")
        end
  end.

(** [error.message] *)
Definition error_message (reason : value) : settled value API.error :=
  if nullish reason then Rejected (cannot_read reason "message")
  else Fulfilled (get (str "message") reason).

(** The [catch] clause of a check, with the key it writes under: it may
    throw in turn, at [check.name] or at [error.message]. *)
Definition catch_check (key : settled jsstring API.error) (reason : value)
  (h : health) : settled health API.error :=
  match key with
  | Rejected e => Rejected e
  | Fulfilled key =>
      match error_message reason with
      | Rejected e => Rejected e
      | Fulfilled message =>
          Fulfilled (set_status Degraded (set_check key (unhealthy_entry message) h))
      end
  end.

(** The [try] block of a check: [await check()], then the entry of the
    result, or what is thrown on the way. *)
Definition try_check (c : check) (h : health) (w : W) : settled health value * W :=
  match c with
  | NotFunction _ =>
      (Rejected (thrown_error (JsError (str "check is not a function"))), w)
  | Probe _ run =>
      match run w with
      | (Rejected reason, w') => (Rejected reason, w')
      | (Fulfilled result, w') =>
          if nullish result
          then (Rejected (thrown_error (cannot_read result "status")), w')
          else
            match check_key c with
            | Fulfilled key => (Fulfilled (set_check key (check_entry result) h), w')
            | Rejected e => (Rejected (thrown_error e), w')
            end
      end
  end.

(** The [for (const check of customChecks)] loop. *)
Fixpoint run_checks (customChecks : list check) (h : health) (w : W) : outcome :=
  match customChecks with
  | [] => Done h w
  | c :: rest =>
      match try_check c h w with
      | (Fulfilled h', w') => run_checks rest h' w'
      | (Rejected reason, w') =>
          match catch_check (check_key c) reason h with
          | Fulfilled h' => run_checks rest h' w'
          | Rejected e => Thrown e h w'
          end
      end
  end.

(** [if (this.api) { try { await this.api.healthCheck(); ... } catch ... }] *)
Definition api_check (h : health) (w : W) : outcome :=
  match api with
  | None => Done h w
  | Some ping =>
      match ping w with
      | (Fulfilled _, w') =>
          Done (set_check (str "kryosApi") (VObj [(str "status", VStr "healthy")]) h) w'
      | (Rejected reason, w') =>
          match catch_check (Fulfilled (str "kryosApi")) reason h with
          | Fulfilled h' => Done h' w'
          | Rejected e => Thrown e h w'
          end
      end
  end.

Definition initial_health : health :=
  {| status := Healthy;
     service := match config with
                | Some c => or_str_default (Config.serviceName c) (str "unknown")
                | None => str "unknown"
                end;
     version := match config with
                | Some c => or_str_default (Config.serviceVersion c) (str "1.0.0")
                | None => str "1.0.0"
                end;
     checks := [];
     error := None |}.

(** The outer [catch]. *)
Definition outer_catch (message : jsstring) (h : health) : response :=
  {| code := 503;
     json := {| status := Unhealthy; service := service h; version := version h;
                checks := checks h; error := Some message |} |}.

(** The handler returned by [healthCheck(customChecks)], for an array
    [customChecks]: what it sends ([res.status(...).json(...)] itself is
    taken not to throw). *)
Definition healthCheck (customChecks : list check) (w : W) : response * W :=
  let health := initial_health in
  match figures with
  | inr message => (outer_catch message health, w)
  | inl (used, free, total) =>
      let health :=
        set_check (str "memory")
          (VObj [(str "status", VStr "healthy"); (str "used", used);
                 (str "free", free); (str "total", total)]) health in
      let health := set_check (str "disk") (VObj [(str "status", VStr "healthy")]) health in
      match run_checks customChecks health w with
      | Thrown e health w => (outer_catch (message_of e) health, w)
      | Done health w =>
          match api_check health w with
          | Thrown e health w => (outer_catch (message_of e) health, w)
          | Done health w =>
              ({| code := match status health with Healthy => 200 | _ => 503 end;
                  json := health |}, w)
          end
      end
  end.

(** What holds of the [health] object at the end of a run that does not
    end in the outer [catch]. *)
Definition done_with (P : health -> Prop) (o : outcome) : Prop :=
  match o with
  | Done h _ => P h
  | Thrown _ _ _ => True
  end.

(** The [catch] clause of an entry never throws: the entry is not [null]
    or [undefined], its name makes a key, and no reason it throws is [null]
    or [undefined]. *)
Definition handled (c : check) : Prop :=
  (exists key, check_key c = Fulfilled key)
  /\ match c with
     | Probe _ run =>
         forall w reason w', run w = (Rejected reason, w') -> nullish reason = false
     | NotFunction _ => True
     end.

(** The [catch] clause of an entry throws whenever the entry is run: the
    entry is [null] or [undefined] or its name makes no key, or the entry
    always throws [null] or [undefined]. *)
Definition escapes (c : check) : Prop :=
  (exists e, check_key c = Rejected e)
  \/ match c with
     | Probe _ run =>
         forall w, exists reason w', run w = (Rejected reason, w') /\ nullish reason = true
     | NotFunction _ => False
     end.

End Health.

Arguments NotFunction {W} entry.

End Middleware.

(* ================================================================== *)
(** * utils.js *)
(* ================================================================== *)

Module Utilities.

Record validation := mkValidation {
  isValid : bool;
  errors : list jsstring;
  warnings : list jsstring
}.

Section Validation.

(** [isValidEmail] and [isValidPhone], two regular-expression tests. *)
Variable isValidEmail : value -> bool.
Variable isValidPhone : value -> bool.

Definition when (b : bool) (message : string) : list jsstring :=
  if b then [str message] else [].

(** [validateUserData(userData)] for a [userData] that is not [null] or
    [undefined]. *)
Definition validateUserData (userData : value) : validation :=
  let errors :=
    when (negb (truthy (get (str "externalId") userData))) "externalId is required"
    ++ when (negb (truthy (get (str "name") userData))) "name is required"
    ++ when (negb (truthy (get (str "email") userData))) "email is required"
    ++ when (truthy (get (str "email") userData)
             && negb (isValidEmail (get (str "email") userData)))
         "email format is invalid"
    ++ when (truthy (get (str "metadata") userData)
             && negb (typeof_object (get (str "metadata") userData)))
         "metadata must be an object" in
  let warnings :=
    when (truthy (get (str "phone") userData)
          && negb (isValidPhone (get (str "phone") userData)))
      "phone format may be invalid" in
  {| isValid := match errors with [] => true | _ => false end;
     errors := errors;
     warnings := warnings |}.

Definition validDataTypes : list jsstring :=
  [str "user_data"; str "event_data"; str "custom_data"].

(** [validDataTypes.includes(x)] *)
Definition includes (x : value) : bool :=
  match x with
  | VScalar (SStr s) => existsb (jsstring_eqb s) validDataTypes
  | _ => false
  end.

(** [validateEntryData(entryData)] for an [entryData] that is not [null]
    or [undefined]. *)
Definition validateEntryData (entryData : value) : validation :=
  let dataType := get (str "dataType") entryData in
  let data := get (str "data") entryData in
  let tags := get (str "tags") entryData in
  let user := get (str "user") entryData in
  let errors :=
    when (negb (truthy (get (str "externalId") entryData))) "externalId is required"
    ++ when (negb (truthy dataType)) "dataType is required"
    ++ when (negb (truthy data)) "data is required"
    ++ when (truthy dataType && negb (includes dataType))
         "dataType must be one of: user_data, event_data, custom_data"
    ++ when (truthy data && negb (typeof_object data)) "data must be an object"
    ++ when (truthy tags && negb (isArray tags)) "tags must be an array"
    ++ (if truthy user
        then
          let userValidation := validateUserData user in
          if isValid userValidation then []
          else map (fun err => str "user." ++ err) (errors userValidation)
        else []) in
  {| isValid := match errors with [] => true | _ => false end;
     errors := errors;
     warnings := [] |}.

End Validation.

(** ** [validateFilePaths(filePaths)] *)

(** The entries of [valid] are given by path and size ([ext] and [name] are
    read off the path). *)
Record file_report := mkReport {
  valid : list (jsstring * Z);
  invalid : list (value * jsstring);
  missing : list (jsstring * jsstring);
  totalSize : Z
}.

Section Files.

Variable statSync : jsstring -> option Stats.

(** The body of the loop for one [filePath]. *)
Definition classify (filePath : value) (r : file_report) : file_report :=
  match filePath with
  | VScalar (SStr (c :: p)) =>
      let path := c :: p in
      match statSync path with
      | None =>
          {| valid := valid r; invalid := invalid r;
             missing := missing r ++ [(path, str "File does not exist")];
             totalSize := totalSize r |}
      | Some stats =>
          if negb (isFile stats)
          then {| valid := valid r;
                  invalid := invalid r ++ [(filePath, str "Path is not a file")];
                  missing := missing r; totalSize := totalSize r |}
          else {| valid := valid r ++ [(path, size stats)];
                  invalid := invalid r; missing := missing r;
                  totalSize := (totalSize r + size stats)%Z |}
      end
  | _ =>
      {| valid := valid r;
         invalid := invalid r ++ [(filePath, str "Invalid path format")];
         missing := missing r; totalSize := totalSize r |}
  end.

Definition validateFilePaths (filePaths : value) : settled file_report API.error :=
  match filePaths with
  | VArr paths =>
      Fulfilled
        (fold_left (fun r filePath => classify filePath r) paths
           {| valid := []; invalid := []; missing := []; totalSize := 0 |})
  | _ => Rejected (JsError (str "File paths must be an array"))
  end.

End Files.

(** ** [sanitizeData(data, sensitiveFields)] *)

(** [target[key] = value] on a plain object with a key that is not known
    beforehand: the key [__proto__] names the accessor of the prototype, and
    writing to it makes no property. *)
Definition set_property (key : jsstring) (v : value)
  (target : list (jsstring * value)) : list (jsstring * value) :=
  if jsstring_eqb key (str "__proto__") then target else assign key v target.

(** What the loop of [sanitizeData] does with the properties of an object,
    and the loop of [deepClone] where it returns: each is written, in order,
    into an object that starts empty, with the value [f] gives. *)
Fixpoint assign_each (f : jsstring -> value -> value)
  (props target : list (jsstring * value)) : list (jsstring * value) :=
  match props with
  | [] => target
  | (key, value) :: rest => assign_each f rest (set_property key (f key value) target)
  end.

Definition redacted : value := VStr "[REDACTED]".

(** The default of [sensitiveFields]. *)
Definition default_sensitiveFields : list jsstring :=
  [str "password"; str "token"; str "secret"; str "key"; str "auth"].

Section Sanitize.

(** [String.prototype.toLowerCase], and the [sensitiveFields] of the call
    (strings). *)
Variable toLowerCase : jsstring -> jsstring.
Variable sensitiveFields : list jsstring.

Definition isSensitive (key : jsstring) : bool :=
  let lowerKey := toLowerCase key in
  existsb (fun field => string_includes lowerKey field) sensitiveFields.

(** [Object.entries] gives the properties of an object, and the items of an
    array under their indices; the result is an object or an array
    accordingly. *)
Fixpoint sanitizeData (data : value) : value :=
  match data with
  | VScalar _ => data
  | VObj props =>
      VObj ((fix entries (props sanitized : list (jsstring * value)) {struct props}
               : list (jsstring * value) :=
               match props with
               | [] => sanitized
               | (key, value) :: rest =>
                   entries rest
                     (set_property key
                        (if isSensitive key then redacted
                         else match value with
                              | VObj _ | VArr _ => sanitizeData value
                              | VScalar _ => value
                              end)
                        sanitized)
               end) props [])
  | VArr items =>
      VArr ((fix entries (items : list value) (index : nat) {struct items}
               : list value :=
               match items with
               | [] => []
               | value :: rest =>
                   (if isSensitive (dec index) then redacted
                    else match value with
                         | VObj _ | VArr _ => sanitizeData value
                         | VScalar _ => value
                         end)
                   :: entries rest (S index)
               end) items 0)
  end.

(** The body of the loop, and the loop over the items of an array, by
    name. *)
Definition sanitize_member (key : jsstring) (member : value) : value :=
  if isSensitive key then redacted else sanitizeData member.

Fixpoint sanitize_items (items : list value) (index : nat) : list value :=
  match items with
  | [] => []
  | value :: rest => sanitize_member (dec index) value :: sanitize_items rest (S index)
  end.

End Sanitize.

(** ** [formatError(error, context = {})]

    [error] is an object; [timestamp] is [new Date().toISOString()]. *)
Definition formatError (toLowerCase : jsstring -> jsstring) (timestamp : jsstring)
  (error context : value) : value :=
  let sanitize := sanitizeData toLowerCase default_sensitiveFields in
  let errorInfo :=
    [(str "message", get (str "message") error);
     (str "name", get (str "name") error);
     (str "stack", get (str "stack") error);
     (str "timestamp", VScalar (SStr timestamp));
     (str "context", sanitize context)] in
  let response := get (str "response") error in
  let errorInfo :=
    if truthy response
    then assign (str "httpData") (get (str "data") response)
           (assign (str "httpStatus") (get (str "status") response) errorInfo)
    else errorInfo in
  let config := get (str "config") error in
  let errorInfo :=
    if truthy config
    then assign (str "request")
           (VObj [(str "method", get (str "method") config);
                  (str "url", get (str "url") config);
                  (str "headers", sanitize (get (str "headers") config))])
           errorInfo
    else errorInfo in
  VObj errorInfo.

(** ** [isValidEmail(email)] and [isValidPhone(phone)], for a string

    The patterns are built from classes of code units, [+] on a class, [?]
    and concatenation, and are tried with backtracking: [matches r s k]
    tells whether [r] matches a prefix of [s] that leaves a rest accepted by
    [k], longer repetitions first. *)
Inductive regex :=
| Unit (class : char -> bool)
| Many (class : char -> bool)
| Maybe (r : regex)
| Then (r1 r2 : regex).

Fixpoint matches (r : regex) (s : jsstring) (k : jsstring -> bool) : bool :=
  match r with
  | Unit class =>
      match s with
      | c :: rest => class c && k rest
      | [] => false
      end
  | Many class =>
      (fix many (s : jsstring) : bool :=
         match s with
         | c :: rest => class c && (many rest || k rest)
         | [] => false
         end) s
  | Maybe r' => matches r' s k || k s
  | Then r1 r2 => matches r1 s (fun rest => matches r2 rest k)
  end.

(** [/^r$/.test(s)] *)
Definition test (r : regex) (s : jsstring) : bool :=
  matches r s (fun rest => match rest with [] => true | _ :: _ => false end).

Definition is_code (code : N) (c : char) : bool := (c =? code)%N.

(** The class [[^\s@]]. *)
Definition not_space_or_at (c : char) : bool :=
  negb (is_whitespace c || is_code 64 c).

(** [/^[^\s@]+@[^\s@]+\.[^\s@]+$/] *)
Definition emailRegex : regex :=
  Then (Many not_space_or_at)
    (Then (Unit (is_code 64))
       (Then (Many not_space_or_at)
          (Then (Unit (is_code 46)) (Many not_space_or_at)))).

Definition isValidEmail (email : jsstring) : bool := test emailRegex email.

(** The class [[\d\s\-\(\)]]. *)
Definition phone_class (c : char) : bool :=
  Middleware.is_digit c || is_whitespace c
  || is_code 45 c || is_code 40 c || is_code 41 c.

(** [/^\+?[\d\s\-\(\)]+$/] *)
Definition phoneRegex : regex :=
  Then (Maybe (Unit (is_code 43))) (Many phone_class).

(** [phone.replace(/\D/g, '')] *)
Definition digits_of (phone : jsstring) : jsstring :=
  filter Middleware.is_digit phone.

Definition isValidPhone (phone : jsstring) : bool :=
  test phoneRegex phone && (10 <=? length (digits_of phone)).

(** ** [retry(fn, options = {})]

    What one call does besides running [fn]: it calls [fn], it calls
    [onError], it warns, and it sleeps. *)
Inductive backoff_event :=
| Try (attempt : Z)
| Notify (attempt : Z)
| Retrying (attempt delay : Z)
| Wait (ms : Z).

(** A destructuring default: it applies to [undefined] ([None]). *)
Definition default (x : option Z) (d : Z) : Z :=
  match x with
  | Some v => v
  | None => d
  end.

Section Backoff.

Variables W V E : Type.

(** [onError(error, attempt)] acts on the world and may throw. *)
Definition callback := E -> Z -> W -> option E * W.

Record retry_options := mkRetryOptions {
  maxAttempts : option Z;
  initialDelay : option Z;
  maxDelay : option Z;
  backoffFactor : option Z;
  onError : option callback
}.

(** [if (onError) { onError(error, attempt); }] *)
Definition notify (onError : option callback) (error : E) (attempt : Z) (w : W)
  : option E * W * list backoff_event :=
  match onError with
  | Some f => let (thrown, w') := f error attempt w in (thrown, w', [Notify attempt])
  | None => (None, w, [])
  end.

(** The [for] loop and the [throw lastError] after it, entered with the
    loop variable at [attempt].  [lastError] is [None] while it is
    [undefined], which is then what is thrown. *)
Equations? retry_from (attempts cap factor : Z) (fn : W -> settled V E * W)
  (onError : option callback) (attempt delay : Z) (lastError : option E)
  (st : W * list backoff_event)
  : settled V (option E) * (W * list backoff_event)
  by wf (Z.to_nat (attempts + 1 - attempt)) lt :=
retry_from attempts cap factor fn onError attempt delay lastError (w, tr)
  with Z_le_gt_dec attempt attempts => {
  | right _ => (Rejected lastError, (w, tr));
  | left _ with fn w => {
    | (Fulfilled v, w1) => (Fulfilled v, (w1, tr ++ [Try attempt]));
    | (Rejected error, w1) with notify onError error attempt w1 => {
      | (Some thrown, w2, told) =>
          (Rejected (Some thrown), (w2, tr ++ Try attempt :: told));
      | (None, w2, told) with Z.eq_dec attempt attempts => {
        | left _ => (Rejected (Some error), (w2, tr ++ Try attempt :: told));
        | right _ =>
            retry_from attempts cap factor fn onError (attempt + 1)
              (Z.min (delay * factor) cap) (Some error)
              (w2, tr ++ Try attempt :: told
                      ++ [Retrying attempt delay; Wait delay]) } } } }.
Proof. lia. Qed.

Definition retry (fn : W -> settled V E * W) (options : retry_options) (w : W)
  : settled V (option E) * (W * list backoff_event) :=
  retry_from (default (maxAttempts options) 3) (default (maxDelay options) 10000)
    (default (backoffFactor options) 2) fn (onError options) 1
    (default (initialDelay options) 1000) None (w, []).

End Backoff.

(** ** [deepClone(obj)]

    Values have no [Date].  An array is cloned item by item; an object,
    property by property in a [for (const key in obj)] loop that asks
    [obj.hasOwnProperty(key)] first, a call that throws when the object has
    a property of its own of that name.  The result is the clone, or what
    the first such call throws. *)
Fixpoint deepClone (obj : value) : settled value API.error :=
  match obj with
  | VScalar _ => Fulfilled obj
  | VArr items =>
      match
        (fix map (items : list value) : settled (list value) API.error :=
           match items with
           | [] => Fulfilled []
           | item :: rest =>
               match deepClone item with
               | Rejected e => Rejected e
               | Fulfilled clone =>
                   match map rest with
                   | Rejected e => Rejected e
                   | Fulfilled clones => Fulfilled (clone :: clones)
                   end
               end
           end) items
      with
      | Rejected e => Rejected e
      | Fulfilled clones => Fulfilled (VArr clones)
      end
  | VObj props =>
      match
        (fix each (rest cloned : list (jsstring * value)) {struct rest}
           : settled (list (jsstring * value)) API.error :=
           match rest with
           | [] => Fulfilled cloned
           | (key, value) :: rest =>
               match API.hasOwnProperty props key with
               | Rejected e => Rejected e
               | Fulfilled false => each rest cloned
               | Fulfilled true =>
                   match deepClone value with
                   | Rejected e => Rejected e
                   | Fulfilled clone => each rest (set_property key clone cloned)
                   end
               end
           end) props []
      with
      | Rejected e => Rejected e
      | Fulfilled cloned => Fulfilled (VObj cloned)
      end
  end.

(** The loops of [deepClone], by name. *)
Fixpoint clone_items (items : list value) : settled (list value) API.error :=
  match items with
  | [] => Fulfilled []
  | item :: rest =>
      match deepClone item with
      | Rejected e => Rejected e
      | Fulfilled clone =>
          match clone_items rest with
          | Rejected e => Rejected e
          | Fulfilled clones => Fulfilled (clone :: clones)
          end
      end
  end.

Fixpoint clone_properties (props rest cloned : list (jsstring * value))
  {struct rest} : settled (list (jsstring * value)) API.error :=
  match rest with
  | [] => Fulfilled cloned
  | (key, value) :: rest =>
      match API.hasOwnProperty props key with
      | Rejected e => Rejected e
      | Fulfilled false => clone_properties props rest cloned
      | Fulfilled true =>
          match deepClone value with
          | Rejected e => Rejected e
          | Fulfilled clone =>
              clone_properties props rest (set_property key clone cloned)
          end
      end
  end.

End Utilities.

(* ================================================================== *)
(** * api.js: metrics, events and error reports *)
(* ================================================================== *)

Module Reports.

(** [a || b] on values. *)
Definition or_value (a b : value) : value := if truthy a then a else b.

(** What one call reads off the clock and the random generator:
    [Date.now()], [new Date().toISOString()] and
    [Math.random().toString(36).substr(2, 9)]. *)
Record Clock := mkClock {
  now : nat;
  isoString : jsstring;
  random : jsstring
}.

Section Payloads.

Variable config : Config.t.
Variable process : Config.Process.
Variable clock : Clock.

(** The [payload] of [sendMetrics]. *)
Definition metrics_payload (metricsData : value) : value :=
  VObj [
    (str "externalId", VScalar (SStr (str "metrics_" ++ dec (now clock))));
    (str "dataType", VStr "custom_data");
    (str "data",
      VObj [
        (str "type", VStr "system_metrics");
        (str "metrics", metricsData);
        (str "timestamp", VScalar (SStr (isoString clock)));
        (str "service", Config.getServiceMetadata config process)
      ]);
    (str "tags", VArr [VStr "metrics"; VStr "monitoring"; VStr "system"])
  ].

(** The [payload] of [sendEvent]: [data] is [eventData] spread, then
    [timestamp] and [service] set. *)
Definition event_payload (eventData : value) : value :=
  VObj [
    (str "externalId",
      VScalar (SStr (str "event_" ++ dec (now clock) ++ str "_" ++ random clock)));
    (str "dataType", VStr "event_data");
    (str "data",
      VObj (assign (str "service") (Config.opt_string (Config.serviceName config))
              (assign (str "timestamp")
                 (or_value (get (str "timestamp") eventData)
                    (VScalar (SStr (isoString clock))))
                 (Middleware.spread eventData))));
    (str "tags", VArr [VStr "event"; get (str "eventType") eventData])
  ].

(** The [payload] of [sendError]. *)
Definition error_payload (errorData : value) : value :=
  VObj [
    (str "externalId",
      VScalar (SStr (str "error_" ++ dec (now clock) ++ str "_" ++ random clock)));
    (str "dataType", VStr "custom_data");
    (str "data",
      VObj [
        (str "type", VStr "error_report");
        (str "error",
          VObj [
            (str "message", get (str "message") errorData);
            (str "stack", get (str "stack") errorData);
            (str "code", get (str "code") errorData);
            (str "severity", or_value (get (str "severity") errorData) (VStr "error"));
            (str "timestamp", VScalar (SStr (isoString clock)));
            (str "service", Config.opt_string (Config.serviceName config));
            (str "version", Config.opt_string (Config.serviceVersion config));
            (str "environment", Config.opt_string (Config.environment config));
            (str "context", or_value (get (str "context") errorData) (VObj []))
          ])
      ]);
    (str "tags",
      VArr [VStr "error"; VStr "monitoring";
            or_value (get (str "severity") errorData) (VStr "error")])
  ].

Variable Net : Type.
Variable http : request -> Net -> settled value API.error * Net.

(** The closure the three sends give to [retryRequest]. *)
Definition post_entry (payload : value) : request_fn (world Net) value API.error :=
  post http (str "/data/entries") (JsonBody payload).

(** [sendMetrics(metricsData)] *)
Definition sendMetrics (metricsData : value) (w : world Net)
  : settled (option value) API.error * run_state (world Net) :=
  if negb (truthy metricsData)
  then (Rejected (JsError (str "Metrics data is required")), (w, []))
  else retryRequest config (post_entry (metrics_payload metricsData)) None w.

(** [sendEvent(eventData)] *)
Definition sendEvent (eventData : value) (w : world Net)
  : settled (option value) API.error * run_state (world Net) :=
  if negb (truthy eventData) || negb (truthy (get (str "eventType") eventData))
  then (Rejected (JsError (str "Event data must include eventType")), (w, []))
  else retryRequest config (post_entry (event_payload eventData)) None w.

(** [sendError(errorData)] *)
Definition sendError (errorData : value) (w : world Net)
  : settled (option value) API.error * run_state (world Net) :=
  if negb (truthy errorData) || negb (truthy (get (str "message") errorData))
  then (Rejected (JsError (str "Error data must include message")), (w, []))
  else retryRequest config (post_entry (error_payload errorData)) None w.

End Payloads.

(** ** The error report of [errorTracker] (middleware.js)

    The [errorInfo] object the middleware builds and gives to [sendError]:
    [error] is the thrown error by its properties, [request] the object made
    of the request, [severity] what [getErrorSeverity(error)] returns and
    [timestamp] the clock reading. *)
Definition errorInfo (config : option Config.t) (error request : value)
  (severity : Middleware.severity) (timestamp : jsstring) : value :=
  VObj [
    (str "message", get (str "message") error);
    (str "stack", get (str "stack") error);
    (str "code",
      or_value (get (str "code") error)
        (or_value (get (str "statusCode") error) (VNum 500)));
    (str "severity", VScalar (SStr (Middleware.severity_string severity)));
    (str "timestamp", VScalar (SStr timestamp));
    (str "request", request);
    (str "service",
      VScalar (SStr (match config with
                     | Some c => or_str_default (Config.serviceName c) (str "unknown")
                     | None => str "unknown"
                     end)))
  ].

End Reports.

(* ================================================================== *)
(** * index.js *)
(* ================================================================== *)

Module SDK.

(** The [constructor] of [KryosSDK], up to the initialisation of the
    modules: the options are checked, then the [Config] instance that the
    modules share is loaded and validated.  The result is what the
    constructor throws, or the configuration it goes on with, together with
    the shared instance as the call leaves it. *)
Definition constructor (shared : Config.t) (env : Config.Env)
  (options : Config.Options) : settled Config.t API.error * Config.t :=
  if negb (truthy_str (Config.o_keyId options))
     || negb (truthy_str (Config.o_keySecret options))
  then (Rejected (JsError (str "Kryos SDK: keyId and keySecret are required")), shared)
  else
    let config := Config.load shared env options in
    if negb (Config.isValid config)
    then (Rejected (JsError (str "Kryos SDK: Invalid configuration provided")), config)
    else (Fulfilled config, config).

End SDK.

(* ================================================================== *)
(** * Vocabulary of the properties *)
(* ================================================================== *)

Module Spec.

(** Two configurations that differ at most in [keySecret]. *)
Definition differ_only_in_keySecret (c1 c2 : Config.t) : Prop :=
  Config.keyId c1 = Config.keyId c2
  /\ Config.baseUrl c1 = Config.baseUrl c2
  /\ Config.enableDefaultMetrics c1 = Config.enableDefaultMetrics c2
  /\ Config.enableLogging c1 = Config.enableLogging c2
  /\ Config.timeout c1 = Config.timeout c2
  /\ Config.retryAttempts c1 = Config.retryAttempts c2
  /\ Config.retryDelay c1 = Config.retryDelay c2
  /\ Config.version c1 = Config.version c2
  /\ Config.userAgent c1 = Config.userAgent c2
  /\ Config.customTags c1 = Config.customTags c2
  /\ Config.serviceName c1 = Config.serviceName c2
  /\ Config.serviceVersion c1 = Config.serviceVersion c2
  /\ Config.environment c1 = Config.environment c2.

(** Case analysis on a code unit that is compared with constants: the
    binary digits are split until both sides of the goal are decided. *)
Ltac by_code_unit c :=
  let p := fresh "p" in
  destruct c as [|p]; [reflexivity|];
  repeat (destruct p as [p|p|]; try reflexivity).

(** The error of a request that the HTTP client made with [headers]: the
    client keeps the request configuration in [error.config]. *)
Definition request_error (message method url headers response : value) : value :=
  VObj [(str "message", message);
        (str "name", VStr "AxiosError");
        (str "config",
          VObj [(str "method", method); (str "url", url); (str "headers", headers)]);
        (str "response", response)].

(** The strings a pattern matches in full. *)
Fixpoint language (r : Utilities.regex) (m : jsstring) : Prop :=
  match r with
  | Utilities.Unit class => exists c, m = [c] /\ class c = true
  | Utilities.Many class => m <> [] /\ forallb class m = true
  | Utilities.Maybe r' => m = [] \/ language r' m
  | Utilities.Then r1 r2 => exists a b, m = a ++ b /\ language r1 a /\ language r2 b
  end.

(** A non-empty string without white space and without [@]. *)
Definition email_part (s : jsstring) : Prop :=
  s <> [] /\ forallb Utilities.not_space_or_at s = true.

(** The calls of [fn], the calls of [onError] and the sleeps of a run of
    [retry]. *)
Fixpoint tries_of (tr : list Utilities.backoff_event) : list Z :=
  match tr with
  | [] => []
  | Utilities.Try k :: rest => k :: tries_of rest
  | _ :: rest => tries_of rest
  end.

Fixpoint notices_of (tr : list Utilities.backoff_event) : list Z :=
  match tr with
  | [] => []
  | Utilities.Notify k :: rest => k :: notices_of rest
  | _ :: rest => notices_of rest
  end.

Fixpoint waits_of (tr : list Utilities.backoff_event) : list Z :=
  match tr with
  | [] => []
  | Utilities.Wait ms :: rest => ms :: waits_of rest
  | _ :: rest => waits_of rest
  end.

(** [n] delays from [delay], each the previous one times [factor], capped
    at [cap]. *)
Fixpoint backoff (delay factor cap : Z) (n : nat) : list Z :=
  match n with
  | O => []
  | S n' => delay :: backoff (Z.min (delay * factor) cap) factor cap n'
  end.

(** The callback, when there is one, does not throw. *)
Definition never_throws (W E : Type) (onError : option (Utilities.callback W E))
  : Prop :=
  forall f, onError = Some f -> forall e k w, fst (f e k w) = None.

(** The options name both credentials. *)
Definition has_credentials (options : Config.Options) : bool :=
  truthy_str (Config.o_keyId options) && truthy_str (Config.o_keySecret options).

(** The last four code units of a string (all of it when shorter). *)
Definition last4 (s : jsstring) : jsstring := skipn (length s - 4) s.

(** [options] with the three numeric settings replaced. *)
Definition with_numbers (timeout retryAttempts retryDelay : option Z)
  (o : Config.Options) : Config.Options :=
  {| Config.o_keyId := Config.o_keyId o;
     Config.o_keySecret := Config.o_keySecret o;
     Config.o_baseUrl := Config.o_baseUrl o;
     Config.o_enableDefaultMetrics := Config.o_enableDefaultMetrics o;
     Config.o_enableLogging := Config.o_enableLogging o;
     Config.o_timeout := timeout;
     Config.o_retryAttempts := retryAttempts;
     Config.o_retryDelay := retryDelay;
     Config.o_customTags := Config.o_customTags o;
     Config.o_serviceName := Config.o_serviceName o;
     Config.o_serviceVersion := Config.o_serviceVersion o |}.

(** The environment sets none of the three numeric variables. *)
Definition numbers_unset (env : Config.Env) : Prop :=
  Config.KRYOS_TIMEOUT env = None
  /\ Config.KRYOS_RETRY_ATTEMPTS env = None
  /\ Config.KRYOS_RETRY_DELAY env = None.

(** The severity rule in the specification's words: critical for a status
    of 500 or more; warning for a status in [400,500) or one of the two
    named kinds; error otherwise. *)
Definition named_kind (e : Middleware.FrameworkError) : bool :=
  jsstring_eqb (Middleware.name e) (str "ValidationError")
  || jsstring_eqb (Middleware.name e) (str "UnauthorizedError").

Definition status_at_least (bound : Z) (e : Middleware.FrameworkError) : bool :=
  match Middleware.statusCode e with
  | Some code => (bound <=? code)%Z
  | None => false
  end.

Definition severity_rule (e : Middleware.FrameworkError) : Middleware.severity :=
  if status_at_least 500 e then Middleware.Critical
  else if status_at_least 400 e || named_kind e then Middleware.Warning
  else Middleware.Plain.

(** ** Retry runs *)

Section RetryVocabulary.

Variables W V E : Type.
Variable requestFn : request_fn W V E.

(** The world after [k] calls of the request function. *)
Fixpoint nth_world (k : nat) (w : W) : W :=
  match k with
  | O => w
  | S k' => nth_world k' (snd (requestFn w))
  end.

(** The request function fails whenever it is called. *)
Definition always_fails : Prop :=
  forall w, exists e, fst (requestFn w) = Rejected e.

(** The request function fails on each of the first [n] calls made from
    the world [w]. *)
Definition fails_each_attempt (n : nat) (w : W) : Prop :=
  forall k, k < n -> exists e, fst (requestFn (nth_world k w)) = Rejected e.

(** The request function fails on each of the first [k] calls made from
    the world [w], and the call after them settles with [v]. *)
Definition first_success (k : nat) (w : W) (v : V) : Prop :=
  fails_each_attempt k w /\ fst (requestFn (nth_world k w)) = Fulfilled v.

End RetryVocabulary.

(** [len] consecutive integers from [start]. *)
Fixpoint zseq (start : Z) (len : nat) : list Z :=
  match len with
  | O => []
  | S len' => start :: zseq (start + 1) len'
  end.

(** What a failed attempt that is not the last leaves in the trace. *)
Definition failed_round (retries delay attempt : Z) : list retry_event :=
  [Attempt attempt; Warn attempt retries delay; Sleep (delay * attempt)].

(** The trace of a run in which every attempt up to the ceiling fails. *)
Definition failing_trace (retries delay : Z) : list retry_event :=
  flat_map (failed_round retries delay) (zseq 1 (Z.to_nat retries - 1))
  ++ [Attempt retries].

(** The attempts of a trace, and its sleeps. *)
Fixpoint attempts_of (tr : list retry_event) : list Z :=
  match tr with
  | [] => []
  | Attempt k :: rest => k :: attempts_of rest
  | _ :: rest => attempts_of rest
  end.

Fixpoint sleeps_of (tr : list retry_event) : list Z :=
  match tr with
  | [] => []
  | Sleep ms :: rest => ms :: sleeps_of rest
  | _ :: rest => sleeps_of rest
  end.

(** The sleep that immediately precedes attempt [k]. *)
Fixpoint delay_before (k : Z) (tr : list retry_event) : option Z :=
  match tr with
  | [] => None
  | Sleep ms :: rest =>
      match rest with
      | Attempt a :: _ => if (a =? k)%Z then Some ms else delay_before k rest
      | _ => delay_before k rest
      end
  | _ :: rest => delay_before k rest
  end.

(** ** Sends with files *)

(** The first path of the list that is not on the file system. *)
Definition first_missing (statSync : jsstring -> option Stats)
  (filePaths : list jsstring) : option jsstring :=
  find (fun path => negb (existsSync statSync path)) filePaths.

(** What an attempt to send a record with files throws when the path
    [missing] is the first that does not exist: what flattening the record
    throws, if it throws, and the error that names the path otherwise. *)
Definition missing_file_error (data : value) (missing : jsstring) : API.error :=
  match flattenAndAddToForm data [] with
  | Rejected e => e
  | Fulfilled _ => JsError (str "File not found: " ++ missing)
  end.

(** The guard of [sendEntryData]. *)
Definition entry_guard (entryData : value) : bool :=
  truthy entryData
  && truthy (get (str "externalId") entryData)
  && truthy (get (str "dataType") entryData).

(** The guard of [sendUserData]. *)
Definition user_guard (userData : value) : bool :=
  truthy userData && truthy (get (str "externalId") userData).

(** The sizes of the files of a report, added up. *)
Definition sum_sizes (files : list (jsstring * Z)) : Z :=
  fold_right (fun file acc => (snd file + acc)%Z) 0%Z files.

(** What a report of [validateFilePaths] says of the paths it was built
    from: each path is in exactly one of the three lists, the total is the
    sum of the sizes listed, the valid ones are regular files of the size
    listed, the missing ones do not exist, and a non-empty string listed as
    invalid is not a regular file. *)
Definition accounts_for (statSync : jsstring -> option Stats) (paths : list value)
  (r : Utilities.file_report) : Prop :=
  length (Utilities.valid r) + length (Utilities.invalid r)
  + length (Utilities.missing r) = length paths
  /\ Utilities.totalSize r = sum_sizes (Utilities.valid r)
  /\ (forall path size,
        In (path, size) (Utilities.valid r) ->
        In (VScalar (SStr path)) paths
        /\ statSync path = Some {| isFile := true; size := size |})
  /\ (forall path reason,
        In (path, reason) (Utilities.missing r) ->
        In (VScalar (SStr path)) paths /\ existsSync statSync path = false)
  /\ (forall filePath reason,
        In (filePath, reason) (Utilities.invalid r) ->
        In filePath paths
        /\ forall path size,
             filePath = VScalar (SStr path) ->
             path <> [] ->
             statSync path <> Some {| isFile := true; size := size |})
  /\ (forall filePath,
        In filePath paths ->
        (exists path size,
            filePath = VScalar (SStr path) /\ In (path, size) (Utilities.valid r))
        \/ (exists reason, In (filePath, reason) (Utilities.invalid r))
        \/ (exists path reason,
               filePath = VScalar (SStr path)
               /\ In (path, reason) (Utilities.missing r))).

(** ** Batches *)

(** The consecutive chunks of [size] elements of a list, the last one with
    what is left. *)
Fixpoint chunked_fuel (A : Type) (fuel size : nat) (l : list A) : list (list A) :=
  match fuel with
  | O => []
  | S fuel' =>
      match l with
      | [] => []
      | _ :: _ => firstn size l :: chunked_fuel fuel' size (skipn size l)
      end
  end.

Definition chunked (A : Type) (size : nat) (l : list A) : list (list A) :=
  chunked_fuel (length l) size l.

(** An endpoint whose answer depends on the request alone. *)
Definition answers_by_request (Net : Type)
  (http : request -> Net -> settled value API.error * Net) : Prop :=
  forall r n n', fst (http r n) = fst (http r n').

(** ** Routes *)

(** A pattern consumes at least one code unit. *)
Definition productive (m : Middleware.matcher) : Prop :=
  forall s rest, m s = Some rest -> length rest < length s.

(** A pattern that matches a string matches every extension of it. *)
Definition monotone (m : Middleware.matcher) : Prop :=
  forall p q, m (p ++ q) = None -> m p = None.

(** The pattern matches at no position of the string. *)
Fixpoint nowhere (m : Middleware.matcher) (s : jsstring) : Prop :=
  m s = None /\ match s with [] => True | _ :: rest => nowhere m rest end.

Definition head_digit (s : jsstring) : bool :=
  match s with
  | c :: _ => Middleware.is_digit c
  | [] => false
  end.

End Spec.

(* ================================================================== *)
(** * Re-nesting form fields by key path *)
(* ================================================================== *)

(** The inverse direction of [flattenAndAddToForm], which the SDK does not
    have: a form key is read as a path of property names and array indices,
    and each field is set at its path in a tree that starts empty. *)
Module Renest.

Inductive segment :=
| Key (k : jsstring)
| Index (i : nat).

Definition path := list segment.

Definition unstr (s : jsstring) : string :=
  string_of_list_ascii (map ascii_of_N s).

(** The number written by a run of decimal digits. *)
Definition index_of (digits : jsstring) : nat :=
  match NilEmpty.uint_of_string (unstr digits) with
  | Some d => Nat.of_uint d
  | None => O
  end.

(** The reader is in a property name, between brackets, or just after a
    closing bracket. *)
Inductive mode := InKey | InIndex | AfterIndex.

Fixpoint parse_from (m : mode) (acc : jsstring) (s : jsstring) : path :=
  match s with
  | [] =>
      match m with
      | InKey => [Key acc]
      | InIndex | AfterIndex => []
      end
  | c :: rest =>
      match m with
      | InKey =>
          if (c =? 46)%N then Key acc :: parse_from InKey [] rest
          else if (c =? 91)%N then Key acc :: parse_from InIndex [] rest
          else parse_from InKey (acc ++ [c]) rest
      | InIndex =>
          if (c =? 93)%N then Index (index_of acc) :: parse_from AfterIndex [] rest
          else parse_from InIndex (acc ++ [c]) rest
      | AfterIndex =>
          if (c =? 46)%N then parse_from InKey [] rest
          else if (c =? 91)%N then parse_from InIndex [] rest
          else []
      end
  end.

(** [a.b] is [Key a; Key b], [c[0].d] is [Key c; Index 0; Key d]. *)
Definition parse (key : jsstring) : path := parse_from InKey [] key.

(** What a path is set in when nothing is there yet. *)
Definition hole : value := VScalar SUndefined.

Definition props_of (t : value) : list (jsstring * value) :=
  match t with VObj props => props | _ => [] end.

Definition items_of (t : value) : list value :=
  match t with VArr items => items | _ => [] end.

(** Apply [f] to the property [k], added at the end when absent. *)
Fixpoint set_key (k : jsstring) (f : value -> value) (props : list (jsstring * value))
  : list (jsstring * value) :=
  match props with
  | [] => [(k, f hole)]
  | (k', v) :: rest =>
      if jsstring_eqb k k' then (k', f v) :: rest else (k', v) :: set_key k f rest
  end.

(** Apply [f] to the item at [i], added at the end when absent. *)
Fixpoint set_index (i : nat) (f : value -> value) (items : list value) : list value :=
  match items, i with
  | [], _ => [f hole]
  | v :: rest, O => f v :: rest
  | v :: rest, S i' => v :: set_index i' f rest
  end.

(** Set the leaf [s] at path [p]. *)
Fixpoint insert (p : path) (s : scalar) : value -> value :=
  match p with
  | [] => fun _ => VScalar s
  | Key k :: p' => fun t => VObj (set_key k (insert p' s) (props_of t))
  | Index i :: p' => fun t => VArr (set_index i (insert p' s) (items_of t))
  end.

Definition renest (fields : list (jsstring * scalar)) : value :=
  fold_left (fun t field => insert (parse (fst field)) (snd field) t) fields (VObj []).

(** ** The objects that flattening does not lose information on *)

(** A property name that is not empty and has no [.] and no [[]. *)
Definition flat_key (k : jsstring) : bool :=
  match k with
  | [] => false
  | _ :: _ => forallb (fun c => negb ((c =? 46)%N || (c =? 91)%N)) k
  end.

Fixpoint distinct_keys (props : list (jsstring * value)) : bool :=
  match props with
  | [] => true
  | (k, _) :: rest =>
      negb (existsb (fun kv => jsstring_eqb k (fst kv)) rest) && distinct_keys rest
  end.

(** A property value: a scalar; an object that is not empty, with distinct
    flat keys and such values; or an array that is not empty, of scalars
    other than [null] and of such objects. *)
Fixpoint nestable_member (v : value) : bool :=
  match v with
  | VScalar _ => true
  | VObj props =>
      match props with [] => false | _ :: _ => true end
      && distinct_keys props
      && forallb (fun kv => flat_key (fst kv) && nestable_member (snd kv)) props
  | VArr items =>
      match items with [] => false | _ :: _ => true end
      && forallb (fun item =>
                    match item with
                    | VScalar SNull => false
                    | VScalar _ => true
                    | VObj _ => nestable_member item
                    | VArr _ => false
                    end) items
  end.

(** The whole record: an object, possibly empty, with distinct flat keys
    and such values. *)
Definition nestable (obj : value) : bool :=
  match obj with
  | VObj props =>
      distinct_keys props
      && forallb (fun kv => flat_key (fst kv) && nestable_member (snd kv)) props
  | _ => false
  end.

(** ** The leaves of a value, by path *)

Definition under (seg : segment) (leaf : path * scalar) : path * scalar :=
  (seg :: fst leaf, snd leaf).

Fixpoint flat_mapi (A B : Type) (f : nat -> A -> list B) (i : nat) (l : list A)
  : list B :=
  match l with
  | [] => []
  | x :: rest => f i x ++ flat_mapi f (S i) rest
  end.

Fixpoint leaves (v : value) : list (path * scalar) :=
  match v with
  | VScalar s => [([], s)]
  | VObj props =>
      flat_map (fun kv => map (under (Key (fst kv))) (leaves (snd kv))) props
  | VArr items =>
      flat_mapi (fun i item => map (under (Index i)) (leaves item)) 0 items
  end.

(** The text a segment adds to a form key that is not empty. *)
Definition segment_text (seg : segment) : jsstring :=
  match seg with
  | Key k => str "." ++ k
  | Index i => str "[" ++ dec i ++ str "]"
  end.

Definition path_text (p : path) : jsstring := concat (map segment_text p).

(** A path whose property names have no [.] and no [[]. *)
Definition plain_segment (seg : segment) : bool :=
  match seg with
  | Key k => forallb (fun c => negb ((c =? 46)%N || (c =? 91)%N)) k
  | Index _ => true
  end.

(** ** Vocabulary of the round trip *)

(** An item of an array that flattening keeps. *)
Definition item_class (item : value) : bool :=
  match item with
  | VScalar SNull => false
  | VScalar _ => true
  | VObj _ => nestable_member item
  | VArr _ => false
  end.

(** The form field of a leaf under a form key that is not empty. *)
Definition field_under (formKey : jsstring) (leaf : path * scalar)
  : jsstring * scalar :=
  (formKey ++ path_text (fst leaf), snd leaf).

(** Flattening a property value gives the fields of its leaves. *)
Definition flattens_by_leaves (v : value) : Prop :=
  nestable_member v = true ->
  forall formKey, formKey <> [] ->
    member_fields formKey v = map (field_under formKey) (leaves v).

(** The form key of a leaf of the record itself: the first property name,
    then the text of the rest of the path. *)
Definition key_text (p : path) : jsstring :=
  match p with
  | Key k :: rest => k ++ path_text rest
  | _ => path_text p
  end.

Definition field_of (leaf : path * scalar) : jsstring * scalar :=
  (key_text (fst leaf), snd leaf).

Definition not_closing (c : char) : bool := negb (c =? 93)%N.

Definition plain_char (c : char) : bool := negb ((c =? 46)%N || (c =? 91)%N).

(** A path of the record itself: a flat property name first. *)
Definition top_path (p : path) : bool :=
  match p with
  | Key k :: rest => forallb plain_char k && forallb plain_segment rest
  | _ => false
  end.

Definition plain_path (leaf : path * scalar) : Prop :=
  forallb plain_segment (fst leaf) = true.

(** One step of re-nesting, on a leaf given by its path. *)
Definition set_leaf (t : value) (leaf : path * scalar) : value :=
  insert (fst leaf) (snd leaf) t.

(** Setting the leaves of a property value in a hole gives the value. *)
Definition rebuilds (v : value) : Prop :=
  nestable_member v = true -> fold_left set_leaf (leaves v) hole = v.

End Renest.

(* ================================================================== *)
(** * The shape of values *)
(* ================================================================== *)

Module Shape.

(** No property is named [__proto__]. *)
Definition no_proto (props : list (jsstring * value)) : bool :=
  forallb (fun kv => negb (jsstring_eqb (fst kv) (str "__proto__"))) props.

(** No object of the value has two properties of the same name (as no
    JavaScript object has) or a property of its own named [__proto__]. *)
Fixpoint well_formed (v : value) : bool :=
  match v with
  | VScalar _ => true
  | VObj props =>
      Renest.distinct_keys props
      && no_proto props
      && (fix all (props : list (jsstring * value)) : bool :=
            match props with
            | [] => true
            | (_, x) :: rest => well_formed x && all rest
            end) props
  | VArr items =>
      (fix all (items : list value) : bool :=
         match items with
         | [] => true
         | x :: rest => well_formed x && all rest
         end) items
  end.

(** Every object of the value inherits [hasOwnProperty]: none has a
    property of its own of that name. *)
Definition inherits_method (props : list (jsstring * value)) : bool :=
  match lookup (str "hasOwnProperty") props with
  | Some _ => false
  | None => true
  end.

Fixpoint inherits_hasOwnProperty (v : value) : bool :=
  match v with
  | VScalar _ => true
  | VObj props =>
      inherits_method props
      && (fix all (props : list (jsstring * value)) : bool :=
            match props with
            | [] => true
            | (_, x) :: rest => inherits_hasOwnProperty x && all rest
            end) props
  | VArr items =>
      (fix all (items : list value) : bool :=
         match items with
         | [] => true
         | x :: rest => inherits_hasOwnProperty x && all rest
         end) items
  end.

(** Where every object inherits [hasOwnProperty], flattening returns the
    fields; where one does not, it throws.  Stated for a property value and
    for the object, array or [null] of a call. *)
Definition flattens (v : value) : Prop :=
  (forall formKey,
     member_appends formKey v
     = if inherits_hasOwnProperty v
       then Fulfilled (member_fields formKey v)
       else Rejected not_a_function)
  /\ (match v with
      | VScalar (SStr _) => True
      | _ =>
          forall prefix,
            flattenAndAddToForm v prefix
            = if inherits_hasOwnProperty v
              then Fulfilled (fields_of v prefix)
              else Rejected not_a_function
      end).

(** What stands under a key, given which keys are sensitive: the redaction
    mark under a sensitive key, a value that is redacted in turn under
    another. *)
Fixpoint redacted_under (sensitive : jsstring -> bool) (v : value) : Prop :=
  match v with
  | VScalar _ => True
  | VObj props =>
      (fix all (props : list (jsstring * value)) : Prop :=
         match props with
         | [] => True
         | (k, x) :: rest =>
             (if sensitive k then x = Utilities.redacted
              else redacted_under sensitive x)
             /\ all rest
         end) props
  | VArr items =>
      (fix all (items : list value) (index : nat) : Prop :=
         match items with
         | [] => True
         | x :: rest =>
             (if sensitive (dec index) then x = Utilities.redacted
              else redacted_under sensitive x)
             /\ all rest (S index)
         end) items 0
  end.

(** The same, for one property and for the items of an array from an
    index. *)
Definition member_redacted (sensitive : jsstring -> bool) (k : jsstring) (x : value)
  : Prop :=
  if sensitive k then x = Utilities.redacted else redacted_under sensitive x.

Fixpoint items_redacted (sensitive : jsstring -> bool) (items : list value)
  (index : nat) : Prop :=
  match items with
  | [] => True
  | x :: rest =>
      member_redacted sensitive (dec index) x
      /\ items_redacted sensitive rest (S index)
  end.

End Shape.

Unset Implicit Arguments.

(* ================================================================== *)
(** * Concrete inputs *)
(* ================================================================== *)

Module Examples.

(** A request function that fails with the number of the call. *)
Definition failing : request_fn nat value nat := fun w => (Rejected w, S w).

(** A request function that fails on its first two calls and succeeds from
    the third on. *)
Definition flaky : request_fn nat value nat := fun w =>
  if w <? 2 then (Rejected w, S w) else (Fulfilled (VStr "ok"), S w).

(** [toLowerCase] on strings of ASCII letters, digits and punctuation. *)
Definition ascii_lower (s : jsstring) : jsstring :=
  map (fun c => if (65 <=? c)%N && (c <=? 90)%N then (c + 32)%N else c) s.

(** [{ user: 'ada', apiKey: 'k-1', items: [{ password: 'p' }] }] *)
Definition account : value :=
  VObj [(str "user", VStr "ada"); (str "apiKey", VStr "k-1");
        (str "items", VArr [VObj [(str "password", VStr "p")]])].

(** The two format tests of [validateUserData] on a value that is a
    string. *)
Definition email_test (email : value) : bool :=
  match email with
  | VScalar (SStr s) => Utilities.isValidEmail s
  | _ => false
  end.

Definition phone_test (phone : value) : bool :=
  match phone with
  | VScalar (SStr s) => Utilities.isValidPhone s
  | _ => false
  end.

(** [{ externalId: 'u1', name: 'Ada', email: 'ada@example.org' }] *)
Definition user_record : value :=
  VObj [(str "externalId", VStr "u1"); (str "name", VStr "Ada");
        (str "email", VStr "ada@example.org")].

(** An endpoint that accepts every request and counts them. *)
Definition accepting : request -> nat -> settled value API.error * nat :=
  fun _ n => (Fulfilled (VStr "ok"), S n).

(** An endpoint that is never reached. *)
Definition unreachable : request -> nat -> settled value API.error * nat :=
  fun _ n => (Rejected (JsError (str "Network Error: connect ECONNREFUSED")), S n).

Definition no_files : jsstring -> option Stats := fun _ => None.

(** A file system with one directory, [/tmp], and one file, [/tmp/a.txt]. *)
Definition tmp_dir : jsstring -> option Stats := fun path =>
  if jsstring_eqb path (str "/tmp") then Some {| isFile := false; size := 4096 |}
  else if jsstring_eqb path (str "/tmp/a.txt") then Some {| isFile := true; size := 12 |}
  else None.

(** [path.basename] on a path that does not end with a slash: what
    follows the last slash. *)
Fixpoint after_last_slash (acc path : jsstring) : jsstring :=
  match path with
  | [] => acc
  | c :: rest =>
      if (c =? 47)%N then after_last_slash [] rest
      else after_last_slash (acc ++ [c]) rest
  end.

Definition file_name (path : jsstring) : jsstring := after_last_slash [] path.

Definition start : world nat := {| net := O; requests := []; streams := [] |}.

(** [{ externalId: 'e1', dataType: 'bogus', data: {} }] *)
Definition bogus_entry : value :=
  VObj [(str "externalId", VStr "e1"); (str "dataType", VStr "bogus");
        (str "data", VObj [])].

(** [{ externalId: 'e1', dataType: 'event_data', data: {} }] *)
Definition event_entry : value :=
  VObj [(str "externalId", VStr "e1"); (str "dataType", VStr "event_data");
        (str "data", VObj [])].

(** [{ dataType: 'event_data' }] *)
Definition anonymous_entry : value :=
  VObj [(str "dataType", VStr "event_data")].

(** Two configurations loaded with the same key id and different secrets. *)
Definition credentials (secret : string) : Config.Options :=
  {| Config.o_keyId := Some (str "key_live_1234");
     Config.o_keySecret := Some (str secret);
     Config.o_baseUrl := None;
     Config.o_enableDefaultMetrics := None;
     Config.o_enableLogging := None;
     Config.o_timeout := None;
     Config.o_retryAttempts := None;
     Config.o_retryDelay := None;
     Config.o_customTags := None;
     Config.o_serviceName := None;
     Config.o_serviceVersion := None |}.

(** The same options with a base URL. *)
Definition credentials_at (baseUrl : string) : Config.Options :=
  {| Config.o_keyId := Some (str "key_live_1234");
     Config.o_keySecret := Some (str "alpha");
     Config.o_baseUrl := Some (str baseUrl);
     Config.o_enableDefaultMetrics := None;
     Config.o_enableLogging := None;
     Config.o_timeout := None;
     Config.o_retryAttempts := None;
     Config.o_retryDelay := None;
     Config.o_customTags := None;
     Config.o_serviceName := None;
     Config.o_serviceVersion := None |}.

Definition loaded (secret : string) : Config.t :=
  Config.load Config.new Config.empty_env (credentials secret).

(** Reading the figures for [checks.memory] throws, as it does where
    [require] is not defined. *)
Definition require_undefined : value * value * value + jsstring :=
  inr (str "require is not defined").

(** A conversion to a property key that finds no primitive value. *)
Definition no_key (name : value) : settled jsstring API.error :=
  Rejected (JsError (str "Cannot convert object to primitive value")).

(** The probe of the README: an arrow function, so without a name, that
    reports its status in the object it returns. *)
Definition database_down : Middleware.check unit :=
  Middleware.Probe []
    (fun w => (Fulfilled (VObj [(str "name", VStr "database");
                                (str "status", VStr "unhealthy")]), w)).

(** A probe that throws an [Error]. *)
Definition database_throws : Middleware.check unit :=
  Middleware.Probe (str "database")
    (fun w => (Rejected (VObj [(str "message", VStr "ECONNREFUSED")]), w)).

(** A probe that rejects without a reason, as [Promise.reject()] does. *)
Definition cache_rejects : Middleware.check unit :=
  Middleware.Probe (str "cache") (fun w => (Rejected (VScalar SUndefined), w)).

(** [{ a: { b: 1 }, c: [1, 2] }] *)
Definition nested_record : value :=
  VObj [(str "a", VObj [(str "b", VNum 1)]); (str "c", VArr [VNum 1; VNum 2])].

(** Twenty-five entries, [e1] to [e25]. *)
Definition numbered_entry (n : nat) : value :=
  VObj [(str "externalId", VNum (Z.of_nat n)); (str "dataType", VStr "event_data")].

Definition twenty_five : list value := map numbered_entry (seq 1 25).

End Examples.

(* ================================================================== *)
(** * Facts about strings *)
(* ================================================================== *)

Section StringFacts.

Lemma jsstring_eqb_eq (a b : jsstring) : jsstring_eqb a b = true <-> a = b.
Proof.
  revert b. induction a as [|x a IH]; intros [|y b]; simpl; try (split; congruence).
  unfold char_eqb. rewrite andb_true_iff, N.eqb_eq, IH.
  split; [intros [-> ->]; reflexivity | intros [= -> ->]; auto].
Qed.

Lemma jsstring_eqb_refl (k : jsstring) : jsstring_eqb k k = true.
Proof. now apply jsstring_eqb_eq. Qed.

Lemma jsstring_eqb_sym (a b : jsstring) : jsstring_eqb a b = jsstring_eqb b a.
Proof.
  destruct (jsstring_eqb a b) eqn:Hab, (jsstring_eqb b a) eqn:Hba; try reflexivity.
  - apply jsstring_eqb_eq in Hab. subst. now rewrite jsstring_eqb_refl in Hba.
  - apply jsstring_eqb_eq in Hba. subst. now rewrite jsstring_eqb_refl in Hab.
Qed.

End StringFacts.

(* ================================================================== *)
(** * Properties of config.js *)
(* ================================================================== *)

Section ConfigProperties.

Import Config.

Lemma slice_last4 (s : jsstring) : slice_from (-4) s = Spec.last4 s.
Proof.
  unfold slice_from, Spec.last4.
  replace (-4 <? 0)%Z with true by reflexivity.
  f_equal. lia.
Qed.

Lemma or_num_zero (b : Z) : or_num (Some 0%Z) b = or_num None b.
Proof. reflexivity. Qed.

Lemma or_num_nonzero (a : option Z) (b : Z) : b <> 0%Z -> or_num a b <> 0%Z.
Proof.
  intros Hb. destruct a as [n|]; simpl; auto.
  destruct (Z.eqb_spec n 0); auto.
Qed.

(** C9.  The JSON form of a configuration does not depend on [keySecret]:
    two configurations that differ only in [keySecret] serialize alike.  It
    has no [keySecret] property, and its [keyId] is [null] or three
    asterisks followed by the last four code units of the key id. *)
Theorem toJSON_independent_of_keySecret (c1 c2 : Config.t)
  (H : Spec.differ_only_in_keySecret c1 c2) :
  toJSON c1 = toJSON c2
  /\ (forall props, toJSON c1 = VObj props -> lookup (str "keySecret") props = None)
  /\ (get (str "keyId") (toJSON c1) = VScalar SNull
      \/ exists k, keyId c1 = Some k
           /\ get (str "keyId") (toJSON c1)
              = VScalar (SStr (str "***" ++ Spec.last4 k))).
Proof.
  destruct H as (Hid & Hurl & Hm & Hl & Ht & Hra & Hrd & _ & _ & Htags & Hn & Hv & He).
  split; [|split].
  - unfold toJSON. rewrite Hid, Hurl, Hm, Hl, Ht, Hra, Hrd, Htags, Hn, Hv, He.
    reflexivity.
  - intros props Hp. unfold toJSON in Hp. injection Hp as <-. reflexivity.
  - destruct (keyId c1) as [[|c k]|] eqn:Hk.
    + left. unfold toJSON. rewrite Hk. reflexivity.
    + right. exists (c :: k). split; [reflexivity|].
      unfold toJSON. rewrite Hk. cbn [truthy_str].
      rewrite slice_last4. reflexivity.
    + left. unfold toJSON. rewrite Hk. reflexivity.
Qed.

(** C10, as the code has it.  A supplied [0] for [timeout], [retryAttempts]
    or [retryDelay] is treated as absent; with nothing else supplied the
    setting keeps the value the instance holds, which is 30000, 3 and 1000
    on a fresh [Config]; and [load] yields a zero setting only when the
    instance already held zero. *)
Theorem load_zero_is_absent (this : Config.t) (env : Env) (options : Options) :
  load this env (Spec.with_numbers (Some 0%Z) (Some 0%Z) (Some 0%Z) options)
  = load this env (Spec.with_numbers None None None options)
  /\ (Spec.numbers_unset env ->
      let c := load this env (Spec.with_numbers (Some 0%Z) (Some 0%Z) (Some 0%Z) options) in
      timeout c = timeout this
      /\ retryAttempts c = retryAttempts this
      /\ retryDelay c = retryDelay this)
  /\ (Spec.numbers_unset env ->
      let c := load new env (Spec.with_numbers (Some 0%Z) (Some 0%Z) (Some 0%Z) options) in
      timeout c = 30000%Z /\ retryAttempts c = 3%Z /\ retryDelay c = 1000%Z)
  /\ (timeout this <> 0%Z -> timeout (load this env options) <> 0%Z)
  /\ (retryAttempts this <> 0%Z -> retryAttempts (load this env options) <> 0%Z)
  /\ (retryDelay this <> 0%Z -> retryDelay (load this env options) <> 0%Z)
  /\ retryAttempts (load new env options) <> 0%Z
  /\ retryDelay (load new env options) <> 0%Z.
Proof.
  split; [reflexivity|].
  split.
  { intros (Ht & Ha & Hd). cbn [load timeout retryAttempts retryDelay].
    rewrite Ht, Ha, Hd. repeat split; reflexivity. }
  split.
  { intros (Ht & Ha & Hd). cbn [load timeout retryAttempts retryDelay].
    rewrite Ht, Ha, Hd. repeat split; reflexivity. }
  cbn [load timeout retryAttempts retryDelay].
  repeat split; intros; repeat apply or_num_nonzero; (assumption || discriminate).
Qed.

End ConfigProperties.

Lemma toJSON_independent_of_keySecret_witness :
  Config.toJSON (Examples.loaded "alpha") = Config.toJSON (Examples.loaded "beta")
  /\ (forall props, Config.toJSON (Examples.loaded "alpha") = VObj props ->
      lookup (str "keySecret") props = None)
  /\ (get (str "keyId") (Config.toJSON (Examples.loaded "alpha")) = VScalar SNull
      \/ exists k, Config.keyId (Examples.loaded "alpha") = Some k
           /\ get (str "keyId") (Config.toJSON (Examples.loaded "alpha"))
              = VScalar (SStr (str "***" ++ Spec.last4 k))).
Proof.
  apply (@toJSON_independent_of_keySecret (Examples.loaded "alpha") (Examples.loaded "beta")).
  repeat split; reflexivity.
Defined.

(** C10, as stated, fails on an instance that was loaded before: the
    fallback is the value the instance holds, here 5000 and not 30000. *)
Lemma load_zero_after_load_keeps_previous :
  let first := Config.load Config.new Config.empty_env
                 (Spec.with_numbers (Some 5000%Z) None None Config.no_options) in
  let second := Config.load first Config.empty_env
                  (Spec.with_numbers (Some 0%Z) None None Config.no_options) in
  Config.timeout second = 5000%Z /\ Config.timeout second <> 30000%Z.
Proof. split; [reflexivity | discriminate]. Qed.

(* ================================================================== *)
(** * Properties of the middleware helpers *)
(* ================================================================== *)

Section SeverityProperties.

Import Middleware.

Lemma getErrorSeverity_as_rule (e : FrameworkError) :
  getErrorSeverity e = Spec.severity_rule e.
Proof.
  unfold getErrorSeverity, Spec.severity_rule, Spec.status_at_least, Spec.named_kind.
  destruct (statusCode e) as [code|].
  - destruct (Z.eqb_spec code 0) as [->|Hnz].
    + simpl. destruct (jsstring_eqb (name e) (str "ValidationError")); reflexivity.
    + destruct (500 <=? code)%Z eqn:H5; [reflexivity|].
      destruct (400 <=? code)%Z eqn:H4; [reflexivity|].
      simpl. destruct (jsstring_eqb (name e) (str "ValidationError")); reflexivity.
  - simpl. destruct (jsstring_eqb (name e) (str "ValidationError")); reflexivity.
Qed.

Lemma named_kind_true (e : FrameworkError) :
  Spec.named_kind e = true
  <-> name e = str "ValidationError" \/ name e = str "UnauthorizedError".
Proof.
  unfold Spec.named_kind. rewrite orb_true_iff, !jsstring_eqb_eq. tauto.
Qed.

(** C8.  The severity computed for a framework error is critical when it
    carries a status code of 500 or more, warning when it carries a status
    code in [400,500) or is named ValidationError or UnauthorizedError, and
    error in every other case. *)
Theorem getErrorSeverity_rule (e : FrameworkError) :
  getErrorSeverity e = Spec.severity_rule e
  /\ (forall code, statusCode e = Some code -> (500 <= code)%Z ->
      getErrorSeverity e = Critical)
  /\ (forall code, statusCode e = Some code -> (400 <= code < 500)%Z ->
      getErrorSeverity e = Warning)
  /\ ((forall code, statusCode e = Some code -> (code < 500)%Z) ->
      name e = str "ValidationError" \/ name e = str "UnauthorizedError" ->
      getErrorSeverity e = Warning)
  /\ ((forall code, statusCode e = Some code -> (code < 400)%Z) ->
      name e <> str "ValidationError" -> name e <> str "UnauthorizedError" ->
      getErrorSeverity e = Plain).
Proof.
  split; [apply getErrorSeverity_as_rule|].
  rewrite getErrorSeverity_as_rule.
  unfold Spec.severity_rule, Spec.status_at_least.
  repeat split.
  - intros code -> H. now replace (500 <=? code)%Z with true by (symmetry; apply Z.leb_le; lia).
  - intros code -> H.
    replace (500 <=? code)%Z with false by (symmetry; apply Z.leb_gt; lia).
    now replace (400 <=? code)%Z with true by (symmetry; apply Z.leb_le; lia).
  - intros Hcode Hname. apply named_kind_true in Hname. rewrite Hname.
    destruct (statusCode e) as [code|]; [|reflexivity].
    specialize (Hcode code eq_refl).
    replace (500 <=? code)%Z with false by (symmetry; apply Z.leb_gt; lia).
    now rewrite orb_true_r.
  - intros Hcode Hv Hu.
    assert (Hname : Spec.named_kind e = false).
    { destruct (Spec.named_kind e) eqn:Hn; [|reflexivity].
      apply named_kind_true in Hn. tauto. }
    rewrite Hname.
    destruct (statusCode e) as [code|]; [|reflexivity].
    specialize (Hcode code eq_refl).
    replace (500 <=? code)%Z with false by (symmetry; apply Z.leb_gt; lia).
    now replace (400 <=? code)%Z with false by (symmetry; apply Z.leb_gt; lia).
Qed.

End SeverityProperties.

(* ================================================================== *)
(** * Properties of api.js: retries *)
(* ================================================================== *)

Section RetryProperties.

Variables W V E : Type.
Variable requestFn : request_fn W V E.

(** The loop, one iteration unfolded. *)
Lemma retry_loop_unfold (retries delay attempt : Z) (w : W) (tr : list retry_event) :
  retry_loop retries delay requestFn attempt (w, tr)
  = if (attempt <=? retries)%Z then
      match requestFn w with
      | (Fulfilled v, w') => (Fulfilled (Some v), (w', tr ++ [Attempt attempt]))
      | (Rejected error, w') =>
          if (attempt =? retries)%Z
          then (Rejected error, (w', tr ++ [Attempt attempt]))
          else retry_loop retries delay requestFn (attempt + 1)
                 (w', tr ++ Spec.failed_round retries delay attempt)
      end
    else (Fulfilled None, (w, tr)).
Proof.
  simp retry_loop.
  destruct (Z_le_gt_dec attempt retries) as [Hle|Hgt]; simpl.
  - replace (attempt <=? retries)%Z with true by (symmetry; apply Z.leb_le; lia).
    destruct (requestFn w) as [[v|error] w']; simpl; [reflexivity|].
    destruct (Z.eq_dec attempt retries) as [Heq|Hne]; simpl.
    + replace (attempt =? retries)%Z with true by (symmetry; apply Z.eqb_eq; lia).
      reflexivity.
    + replace (attempt =? retries)%Z with false by (symmetry; apply Z.eqb_neq; lia).
      reflexivity.
  - replace (attempt <=? retries)%Z with false by (symmetry; apply Z.leb_gt; lia).
    reflexivity.
Qed.

Lemma always_fails_each_attempt (n : nat) (w : W) :
  Spec.always_fails requestFn -> Spec.fails_each_attempt requestFn n w.
Proof. intros H k _. apply H. Qed.

Lemma retry_loop_all_fail (retries delay : Z) (k : nat) :
  forall (attempt : Z) (w : W) (tr : list retry_event),
    Spec.fails_each_attempt requestFn (S k) w ->
    (attempt + Z.of_nat k = retries)%Z ->
    exists e,
      fst (requestFn (Spec.nth_world requestFn k w)) = Rejected e
      /\ retry_loop retries delay requestFn attempt (w, tr)
         = (Rejected e,
            (Spec.nth_world requestFn (S k) w,
             tr ++ flat_map (Spec.failed_round retries delay) (Spec.zseq attempt k)
                ++ [Attempt retries])).
Proof.
  induction k as [|k IH]; intros attempt w tr Hfail Hk.
  - destruct (Hfail 0 (Nat.lt_0_succ _)) as [e He]. exists e. split; [exact He|].
    rewrite retry_loop_unfold.
    replace (attempt <=? retries)%Z with true by (symmetry; apply Z.leb_le; lia).
    replace (attempt =? retries)%Z with true by (symmetry; apply Z.eqb_eq; lia).
    cbn [Spec.nth_world] in *.
    destruct (requestFn w) as [[v|e'] w']; simpl in *; [discriminate|].
    injection He as ->. replace attempt with retries by lia. reflexivity.
  - destruct (Hfail 0 (Nat.lt_0_succ _)) as [e0 He0].
    rewrite retry_loop_unfold.
    replace (attempt <=? retries)%Z with true by (symmetry; apply Z.leb_le; lia).
    replace (attempt =? retries)%Z with false by (symmetry; apply Z.eqb_neq; lia).
    cbn [Spec.nth_world] in He0.
    destruct (requestFn w) as [[v|e'] w'] eqn:Hw; simpl in He0; [discriminate|].
    destruct (IH (attempt + 1)%Z w' (tr ++ Spec.failed_round retries delay attempt))
      as (e & He & Hrun); [|lia|].
    { intros j Hj. specialize (Hfail (S j) (proj1 (Nat.succ_lt_mono _ _) Hj)).
      cbn [Spec.nth_world] in Hfail. now rewrite Hw in Hfail. }
    exists e. cbn [Spec.nth_world]. rewrite Hw. cbn [snd].
    split; [exact He|].
    rewrite Hrun. cbn [Spec.zseq flat_map].
    rewrite <- !app_assoc. reflexivity.
Qed.

(** A ceiling of zero or less: no attempt, and the call fulfils with
    [undefined]. *)
Lemma retry_loop_no_attempt (retries delay : Z) (w : W) :
  (retries <= 0)%Z ->
  retry_loop retries delay requestFn 1 (w, []) = (Fulfilled None, (w, [])).
Proof.
  intros H. rewrite retry_loop_unfold.
  replace (1 <=? retries)%Z with false by (symmetry; apply Z.leb_gt; lia).
  reflexivity.
Qed.

(** Whatever a run does, every world it goes through is reached by calls
    of the request function: an invariant of the request function is an
    invariant of the run. *)
Lemma retry_loop_invariant (P : W -> Prop) (retries delay : Z) :
  (forall w, P w -> P (snd (requestFn w))) ->
  forall (k : nat) (attempt : Z) (w : W) (tr : list retry_event),
    (retries + 1 - attempt <= Z.of_nat k)%Z ->
    P w ->
    P (fst (snd (retry_loop retries delay requestFn attempt (w, tr)))).
Proof.
  intros Hstep. induction k as [|k IH]; intros attempt w tr Hk Hw;
    rewrite retry_loop_unfold.
  - replace (attempt <=? retries)%Z with false by (symmetry; apply Z.leb_gt; lia).
    exact Hw.
  - destruct (attempt <=? retries)%Z; [|exact Hw].
    specialize (Hstep w Hw).
    destruct (requestFn w) as [[v|e] w']; simpl in *; [exact Hstep|].
    destruct (attempt =? retries)%Z; [exact Hstep|].
    apply IH; [lia | exact Hstep].
Qed.

Lemma attempts_of_app (a b : list retry_event) :
  Spec.attempts_of (a ++ b) = Spec.attempts_of a ++ Spec.attempts_of b.
Proof.
  induction a as [|[k|k r d|ms] a IH]; simpl; rewrite ?IH; reflexivity.
Qed.

Lemma sleeps_of_app (a b : list retry_event) :
  Spec.sleeps_of (a ++ b) = Spec.sleeps_of a ++ Spec.sleeps_of b.
Proof.
  induction a as [|[k|k r d|ms] a IH]; simpl; rewrite ?IH; reflexivity.
Qed.

Lemma zseq_length (start : Z) (len : nat) : length (Spec.zseq start len) = len.
Proof. revert start. induction len; intros; simpl; auto. Qed.

Lemma attempts_of_rounds (retries delay start : Z) (len : nat) :
  Spec.attempts_of (flat_map (Spec.failed_round retries delay) (Spec.zseq start len))
  = Spec.zseq start len.
Proof.
  revert start. induction len as [|len IH]; intros; simpl; [reflexivity|].
  now rewrite IH.
Qed.

Lemma sleeps_of_rounds (retries delay start : Z) (len : nat) :
  Spec.sleeps_of (flat_map (Spec.failed_round retries delay) (Spec.zseq start len))
  = map (fun k => delay * k)%Z (Spec.zseq start len).
Proof.
  revert start. induction len as [|len IH]; intros; simpl; [reflexivity|].
  now rewrite IH.
Qed.

Lemma zseq_snoc (start : Z) (len : nat) :
  Spec.zseq start (S len) = Spec.zseq start len ++ [(start + Z.of_nat len)%Z].
Proof.
  revert start. induction len as [|len IH]; intros start.
  - simpl. now rewrite Z.add_0_r.
  - change (Spec.zseq start (S (S len)))
      with (start :: Spec.zseq (start + 1) (S len)).
    rewrite IH. simpl. do 2 f_equal. f_equal. lia.
Qed.

(** In a failing trace the sleep before attempt [k + 1] is [delay * k]. *)
Lemma delay_before_rounds (retries delay : Z) (len : nat) :
  forall (start k : Z) (tail : list retry_event),
    (start <= k < start + Z.of_nat len)%Z ->
    Spec.delay_before (k + 1)
      (flat_map (Spec.failed_round retries delay) (Spec.zseq start len)
       ++ Attempt (start + Z.of_nat len) :: tail)
    = Some (delay * k)%Z.
Proof.
  induction len as [|len IH]; intros start k tail Hk; [lia|].
  cbn [Spec.zseq flat_map Spec.failed_round app Spec.delay_before].
  destruct len as [|len'].
  - cbn [Spec.zseq flat_map app].
    replace (start + Z.of_nat 1 =? k + 1)%Z with true by (symmetry; apply Z.eqb_eq; lia).
    f_equal. f_equal. lia.
  - cbn [Spec.zseq flat_map Spec.failed_round app].
    destruct (Z.eqb_spec (start + 1) (k + 1)) as [Heq|Hne].
    + f_equal. f_equal. lia.
    + specialize (IH (start + 1)%Z k tail).
      cbn [Spec.zseq flat_map Spec.failed_round app] in IH.
      replace (start + 1 + Z.of_nat (S len'))%Z
        with (start + Z.of_nat (S (S len')))%Z in IH by lia.
      apply IH. lia.
Qed.

Lemma failing_trace_attempts (retries delay : Z) :
  (1 <= retries)%Z ->
  Spec.attempts_of (Spec.failing_trace retries delay) = Spec.zseq 1 (Z.to_nat retries).
Proof.
  intros H. unfold Spec.failing_trace.
  rewrite attempts_of_app, attempts_of_rounds. simpl.
  replace (Z.to_nat retries) with (S (Z.to_nat retries - 1)) at 2 by lia.
  rewrite zseq_snoc. do 2 f_equal. lia.
Qed.

(** The shared core: under a ceiling of at least one, a request function
    that always fails makes [retryRequest] reject with its last error. *)
Lemma retryRequest_all_fail_aux (config : Config.t) (maxRetries : option Z) (w : W) :
  Spec.fails_each_attempt requestFn
    (Z.to_nat (or_num maxRetries (Config.retryAttempts config))) w ->
  (1 <= or_num maxRetries (Config.retryAttempts config))%Z ->
  exists e,
    fst (requestFn
           (Spec.nth_world requestFn
              (Z.to_nat (or_num maxRetries (Config.retryAttempts config)) - 1) w))
    = Rejected e
    /\ retryRequest config requestFn maxRetries w
       = (Rejected e,
          (Spec.nth_world requestFn
             (Z.to_nat (or_num maxRetries (Config.retryAttempts config))) w,
           Spec.failing_trace (or_num maxRetries (Config.retryAttempts config))
             (Config.retryDelay config))).
Proof.
  intros Hfail HN.
  set (N := or_num maxRetries (Config.retryAttempts config)) in *.
  destruct (@retry_loop_all_fail N (Config.retryDelay config) (Z.to_nat N - 1)
              1%Z w []) as (e & He & Hrun); [|lia|].
  { replace (S (Z.to_nat N - 1)) with (Z.to_nat N) by lia. exact Hfail. }
  exists e. split; [exact He|].
  unfold retryRequest. fold N. rewrite Hrun.
  replace (S (Z.to_nat N - 1)) with (Z.to_nat N) by lia. reflexivity.
Qed.

(** C1.  When the request function fails on every attempt (on each of the
    [N] calls the run can make) and the retry ceiling is [N] with base
    delay [D], [retryRequest] calls it exactly [N] times, sleeps [D * k] milliseconds between attempt [k] and attempt
    [k + 1], and (there being a last attempt, [N >= 1]) rejects with the
    error of the last attempt. *)
Theorem retryRequest_exhausts_retries (config : Config.t) (maxRetries : option Z)
  (w : W) :
  let N := or_num maxRetries (Config.retryAttempts config) in
  let D := Config.retryDelay config in
  Spec.fails_each_attempt requestFn (Z.to_nat N) w ->
  (0 <= N)%Z ->
  let run := retryRequest config requestFn maxRetries w in
  let trace := snd (snd run) in
  Spec.attempts_of trace = Spec.zseq 1 (Z.to_nat N)
  /\ length (Spec.attempts_of trace) = Z.to_nat N
  /\ Spec.sleeps_of trace = map (fun k => D * k)%Z (Spec.zseq 1 (Z.to_nat N - 1))
  /\ (forall k, (1 <= k < N)%Z -> Spec.delay_before (k + 1) trace = Some (D * k)%Z)
  /\ ((1 <= N)%Z ->
      exists e,
        fst (requestFn (Spec.nth_world requestFn (Z.to_nat N - 1) w)) = Rejected e
        /\ run = (Rejected e,
                  (Spec.nth_world requestFn (Z.to_nat N) w, Spec.failing_trace N D))).
Proof.
  intros N D Hfail HN run trace.
  destruct (Z.eq_dec N 0) as [H0|Hpos].
  - assert (Hrun : run = (Fulfilled None, (w, []))).
    { subst run. unfold retryRequest. fold N. apply retry_loop_no_attempt. lia. }
    subst trace. rewrite Hrun, H0. cbn [snd Z.to_nat Spec.zseq Spec.attempts_of
      Spec.sleeps_of length Nat.sub map].
    repeat split; try reflexivity; intros; lia.
  - assert (H1 : (1 <= N)%Z) by lia.
    destruct (retryRequest_all_fail_aux config maxRetries w Hfail H1)
      as (e & He & Hrun).
    fold N D in Hrun, He. fold run in Hrun.
    assert (Htrace : trace = Spec.failing_trace N D) by (subst trace; now rewrite Hrun).
    rewrite Htrace.
    split; [now apply failing_trace_attempts|].
    split; [rewrite failing_trace_attempts by assumption; apply zseq_length|].
    split.
    { unfold Spec.failing_trace. rewrite sleeps_of_app, sleeps_of_rounds.
      simpl. now rewrite app_nil_r. }
    split.
    { intros k Hk. unfold Spec.failing_trace.
      replace N with (1 + Z.of_nat (Z.to_nat N - 1))%Z at 3 by lia.
      apply delay_before_rounds. lia. }
    intros _. exists e. split; [exact He | exact Hrun].
Qed.

End RetryProperties.

Lemma retryRequest_exhausts_retries_witness :
  let run := retryRequest Config.new Examples.failing None O in
  let trace := snd (snd run) in
  Spec.attempts_of trace = Spec.zseq 1 3
  /\ length (Spec.attempts_of trace) = 3
  /\ Spec.sleeps_of trace = map (fun k => 1000 * k)%Z (Spec.zseq 1 2)
  /\ (forall k, (1 <= k < 3)%Z -> Spec.delay_before (k + 1) trace = Some (1000 * k)%Z)
  /\ ((1 <= 3)%Z ->
      exists e,
        fst (Examples.failing (Spec.nth_world Examples.failing 2 O)) = Rejected e
        /\ run = (Rejected e,
                  (Spec.nth_world Examples.failing 3 O, Spec.failing_trace 3 1000))).
Proof.
  apply (@retryRequest_exhausts_retries nat value nat Examples.failing Config.new None O).
  - intros k _. eexists. reflexivity.
  - simpl. lia.
Defined.

(* ================================================================== *)
(** * Properties of api.js: sends *)
(* ================================================================== *)

Section SendProperties.

Variable Net : Type.
Variable http : request -> Net -> settled value API.error * Net.
Variable statSync : jsstring -> option Stats.
Variable basename : jsstring -> jsstring.
Variable config : Config.t.

Local Abbreviation world := (API.world Net).
Local Abbreviation sendEntryData := (API.sendEntryData http statSync basename config).
Local Abbreviation sendUserData := (API.sendUserData http statSync basename config).
Local Abbreviation sendWithFiles := (API.sendWithFiles http statSync basename).
Local Abbreviation send_once := (API.send_once http statSync basename).
Local Abbreviation add_files := (API.add_files statSync basename).

(** *** The guard of [sendEntryData] *)

Lemma entry_guard_fails (entryData : value) :
  Spec.entry_guard entryData = false ->
  negb (truthy entryData)
  || negb (truthy (get (str "externalId") entryData))
  || negb (truthy (get (str "dataType") entryData)) = true.
Proof.
  unfold Spec.entry_guard.
  destruct (truthy entryData), (truthy (get (str "externalId") entryData)),
    (truthy (get (str "dataType") entryData)); simpl; congruence.
Qed.

Lemma entry_guard_passes (entryData : value) :
  Spec.entry_guard entryData = true ->
  negb (truthy entryData)
  || negb (truthy (get (str "externalId") entryData))
  || negb (truthy (get (str "dataType") entryData)) = false.
Proof.
  unfold Spec.entry_guard.
  destruct (truthy entryData), (truthy (get (str "externalId") entryData)),
    (truthy (get (str "dataType") entryData)); simpl; congruence.
Qed.

Lemma no_error_iff_empty (errors : list jsstring) (message : jsstring) :
  In message errors -> match errors with [] => true | _ :: _ => false end = false.
Proof. destruct errors; [contradiction | reflexivity]. Qed.

(** *** Missing files *)

Lemma add_files_missing (filePaths : list jsstring) (missing : jsstring) :
  Spec.first_missing statSync filePaths = Some missing ->
  forall (files : list (jsstring * jsstring)) (w : world),
  exists w',
    add_files filePaths files w
    = (Rejected (JsError (str "File not found: " ++ missing)), w')
    /\ requests w' = requests w
    /\ net w' = net w.
Proof.
  unfold Spec.first_missing.
  induction filePaths as [|filePath rest IH]; intros Hfind files w; [discriminate|].
  cbn [find] in Hfind. cbn [API.add_files].
  destruct (negb (existsSync statSync filePath)).
  - injection Hfind as ->. exists w. auto.
  - destruct (IH Hfind (files ++ [(basename filePath, filePath)])
                {| net := net w; requests := requests w;
                   streams := streams w ++ [filePath] |})
      as (w' & Hrun & Hreq & Hnet).
    exists w'. auto.
Qed.

Lemma first_missing_exists (filePaths : list jsstring) :
  (exists path, In path filePaths /\ existsSync statSync path = false) ->
  exists missing,
    Spec.first_missing statSync filePaths = Some missing
    /\ In missing filePaths
    /\ existsSync statSync missing = false.
Proof.
  intros (path & Hin & Hex). unfold Spec.first_missing.
  destruct (find (fun p => negb (existsSync statSync p)) filePaths) as [m|] eqn:Hfind.
  - exists m. apply find_some in Hfind. destruct Hfind as [Hm Hneg].
    repeat split; auto. now apply negb_true_iff.
  - exfalso. apply (find_none _ _ Hfind) in Hin. rewrite Hex in Hin. discriminate.
Qed.

Lemma first_missing_nonempty (filePaths : list jsstring) (missing : jsstring) :
  Spec.first_missing statSync filePaths = Some missing -> filePaths <> [].
Proof. destruct filePaths; [discriminate | congruence]. Qed.

Lemma sendWithFiles_missing (endpoint : jsstring) (data : value)
  (filePaths : list jsstring) (missing : jsstring) (w : world) :
  Spec.first_missing statSync filePaths = Some missing ->
  exists w',
    sendWithFiles endpoint data filePaths w
    = (Rejected (Spec.missing_file_error data missing), w')
    /\ requests w' = requests w.
Proof.
  intros Hm. unfold API.sendWithFiles, Spec.missing_file_error.
  destruct (flattenAndAddToForm data []) as [fields|e]; [|now exists w].
  destruct (add_files_missing _ _ Hm [] w) as (w' & -> & Hreq & _).
  exists w'. auto.
Qed.

Lemma send_once_missing (endpoint : jsstring) (data : value)
  (filePaths : list jsstring) (missing : jsstring) (w : world) :
  Spec.first_missing statSync filePaths = Some missing ->
  fst (send_once endpoint data filePaths w)
  = Rejected (Spec.missing_file_error data missing)
  /\ requests (snd (send_once endpoint data filePaths w)) = requests w.
Proof.
  intros Hm. unfold API.send_once.
  destruct filePaths as [|p rest]; [discriminate|].
  destruct (sendWithFiles_missing endpoint data _ _ w Hm) as (w' & -> & Hreq).
  auto.
Qed.

(** A send through [retryRequest] whose files are not all there: every
    attempt stops before the request, at the flattening or at the missing
    file, and none issues a request. *)
Lemma retry_missing (endpoint : jsstring) (data : value)
  (filePaths : list jsstring) (missing : jsstring) (w : world) :
  Spec.first_missing statSync filePaths = Some missing ->
  requests (fst (snd (retryRequest config (send_once endpoint data filePaths) None w)))
  = requests w
  /\ ((1 <= Config.retryAttempts config)%Z ->
      fst (retryRequest config (send_once endpoint data filePaths) None w)
      = Rejected (Spec.missing_file_error data missing)).
Proof.
  intros Hm. split.
  - unfold retryRequest.
    apply (@retry_loop_invariant world value API.error
             (send_once endpoint data filePaths)
             (fun w' => requests w' = requests w)
             (or_num None (Config.retryAttempts config)) (Config.retryDelay config))
      with (k := Z.to_nat (or_num None (Config.retryAttempts config))); [|lia|reflexivity].
    intros w0 H0. rewrite <- H0. now apply (send_once_missing endpoint data _ _ w0 Hm).
  - intros HN.
    destruct (@retryRequest_all_fail_aux world value API.error
                (send_once endpoint data filePaths) config None w) as (e & He & Hrun).
    + apply always_fails_each_attempt.
      intros w0. eexists. now apply (send_once_missing endpoint data _ _ w0 Hm).
    + exact HN.
    + rewrite Hrun. cbn [fst].
      rewrite (proj1 (send_once_missing endpoint data _ _ _ Hm)) in He. congruence.
Qed.

Lemma missing_file_error_flat (data : value) (missing : jsstring)
  (fields : list (jsstring * scalar)) :
  flattenAndAddToForm data [] = Fulfilled fields ->
  Spec.missing_file_error data missing = JsError (str "File not found: " ++ missing).
Proof. unfold Spec.missing_file_error. now intros ->. Qed.

Lemma missing_file_error_thrown (data : value) (missing : jsstring) (e : API.error) :
  flattenAndAddToForm data [] = Rejected e ->
  Spec.missing_file_error data missing = e.
Proof. unfold Spec.missing_file_error. now intros ->. Qed.

(** *** A record that passes the guard is posted *)

Lemma issue_appends (req : request) (w : world) :
  requests (snd (issue http req w)) = requests w ++ [req].
Proof. unfold issue. now destruct (http req (net w)). Qed.

Lemma retry_post_is_issued (endpoint : jsstring) (data : value) (w : world) :
  (1 <= Config.retryAttempts config)%Z ->
  exists later,
    requests (fst (snd (retryRequest config (send_once endpoint data []) None w)))
    = requests w
      ++ {| method := str "POST"; API.url := endpoint; payload := JsonBody data |}
      :: later.
Proof.
  intros HN. unfold retryRequest.
  change (or_num None (Config.retryAttempts config)) with (Config.retryAttempts config).
  set (req := {| method := str "POST"; API.url := endpoint; payload := JsonBody data |}).
  set (P := fun w' : world => exists later, requests w' = requests w ++ req :: later).
  assert (Hstep : forall w0, P w0 -> P (snd (send_once endpoint data [] w0))).
  { intros w0 [later Hw0]. exists (later ++ [req]).
    unfold API.send_once, post. rewrite issue_appends, Hw0.
    now rewrite <- app_assoc. }
  assert (Hfirst : P (snd (send_once endpoint data [] w))).
  { exists []. unfold API.send_once, post. now rewrite issue_appends. }
  rewrite retry_loop_unfold.
  replace (1 <=? Config.retryAttempts config)%Z with true
    by (symmetry; apply Z.leb_le; lia).
  destruct (send_once endpoint data [] w) as [[v|e] w1]; cbn [snd fst] in *;
    [exact Hfirst|].
  destruct (1 =? Config.retryAttempts config)%Z; [exact Hfirst|].
  apply (@retry_loop_invariant world value API.error (send_once endpoint data []) P
           (Config.retryAttempts config) (Config.retryDelay config) Hstep
           (Z.to_nat (Config.retryAttempts config)));
    [lia | exact Hfirst].
Qed.

(** C3, as the code has it.  A data-entry send whose record is missing, or
    lacks a truthy [externalId] or [dataType], is rejected at once: the
    world is untouched and no retry event occurs.  Every other record, its
    [dataType] in the enumerated set or not, is handed to [retryRequest]
    unchanged, and under a retry ceiling of at least one it is posted; the
    enumerated set is checked by [validateEntryData] alone, which reports a
    [dataType] outside it as invalid. *)
Theorem sendEntryData_checks_presence_only (entryData : value)
  (files : list jsstring) (w : world) :
  (Spec.entry_guard entryData = false ->
   sendEntryData entryData files w
   = (Rejected (JsError (str "Entry data must include externalId and dataType")),
      (w, [])))
  /\ (Spec.entry_guard entryData = true ->
      sendEntryData entryData files w
      = retryRequest config (send_once (str "/data/entries") entryData files) None w)
  /\ (Spec.entry_guard entryData = true ->
      (1 <= Config.retryAttempts config)%Z ->
      exists later,
        requests (fst (snd (sendEntryData entryData [] w)))
        = requests w
          ++ {| method := str "POST"; API.url := str "/data/entries";
                payload := JsonBody entryData |}
          :: later)
  /\ (forall isValidEmail isValidPhone,
      truthy (get (str "dataType") entryData) = true ->
      Utilities.includes (get (str "dataType") entryData) = false ->
      let report := Utilities.validateEntryData isValidEmail isValidPhone entryData in
      Utilities.isValid report = false
      /\ In (str "dataType must be one of: user_data, event_data, custom_data")
           (Utilities.errors report)).
Proof.
  split; [|split; [|split]].
  - intros Hg. unfold API.sendEntryData. now rewrite (entry_guard_fails _ Hg).
  - intros Hg. unfold API.sendEntryData. now rewrite (entry_guard_passes _ Hg).
  - intros Hg HN. unfold API.sendEntryData. rewrite (entry_guard_passes _ Hg).
    now apply retry_post_is_issued.
  - intros isValidEmail isValidPhone Ht Hi report.
    assert (Hin : In (str "dataType must be one of: user_data, event_data, custom_data")
                    (Utilities.errors report)).
    { subst report. unfold Utilities.validateEntryData. cbn [Utilities.errors].
      rewrite Ht, Hi. cbn [negb andb Utilities.when].
      apply in_or_app. right. apply in_or_app. right. apply in_or_app. right.
      apply in_or_app. left. left. reflexivity. }
    split; [|exact Hin].
    subst report. unfold Utilities.validateEntryData in *.
    cbn [Utilities.errors Utilities.isValid] in *.
    exact (no_error_iff_empty _ _ Hin).
Qed.

(** C4, as the code has it.  A send with attached paths one of which does
    not exist issues no HTTP request, and under a retry ceiling of at least
    one it is rejected.  When the record passes the guard, the error names
    the first missing path if the record can be flattened; if flattening
    throws, on an object with a property of its own named [hasOwnProperty],
    the error is the one flattening throws, before any path is looked at. *)
Theorem send_with_missing_file_issues_no_request (data : value)
  (files : list jsstring) (w : world) :
  (exists path, In path files /\ existsSync statSync path = false) ->
  files <> []
  /\ requests (fst (snd (sendEntryData data files w))) = requests w
  /\ requests (fst (snd (sendUserData data files w))) = requests w
  /\ ((1 <= Config.retryAttempts config)%Z ->
      exists missing,
        Spec.first_missing statSync files = Some missing
        /\ (exists e, fst (sendEntryData data files w) = Rejected e)
        /\ (exists e, fst (sendUserData data files w) = Rejected e)
        /\ (forall fields,
            flattenAndAddToForm data [] = Fulfilled fields ->
            (Spec.entry_guard data = true ->
             fst (sendEntryData data files w)
             = Rejected (JsError (str "File not found: " ++ missing)))
            /\ (Spec.user_guard data = true ->
                fst (sendUserData data files w)
                = Rejected (JsError (str "File not found: " ++ missing))))
        /\ (forall thrown,
            flattenAndAddToForm data [] = Rejected thrown ->
            (Spec.entry_guard data = true ->
             fst (sendEntryData data files w) = Rejected thrown)
            /\ (Spec.user_guard data = true ->
                fst (sendUserData data files w) = Rejected thrown))).
Proof.
  intros Hex.
  destruct (first_missing_exists files Hex) as (missing & Hm & _ & _).
  pose proof (retry_missing (str "/data/entries") data files missing w Hm) as [He1 He2].
  pose proof (retry_missing (str "/data/users") data files missing w Hm) as [Hu1 Hu2].
  assert (Hentry : sendEntryData data files w
                   = (if Spec.entry_guard data
                      then retryRequest config (send_once (str "/data/entries") data files) None w
                      else (Rejected (JsError (str "Entry data must include externalId and dataType")),
                            (w, [])))).
  { unfold API.sendEntryData.
    destruct (Spec.entry_guard data) eqn:Hg;
      [now rewrite (entry_guard_passes _ Hg) | now rewrite (entry_guard_fails _ Hg)]. }
  assert (Huser : sendUserData data files w
                  = (if Spec.user_guard data
                     then retryRequest config (send_once (str "/data/users") data files) None w
                     else (Rejected (JsError (str "User data must include externalId")),
                           (w, [])))).
  { unfold API.sendUserData, Spec.user_guard.
    destruct (truthy data), (truthy (get (str "externalId") data)); reflexivity. }
  split; [exact (first_missing_nonempty _ _ Hm)|].
  split; [rewrite Hentry; destruct (Spec.entry_guard data); [exact He1 | reflexivity]|].
  split; [rewrite Huser; destruct (Spec.user_guard data); [exact Hu1 | reflexivity]|].
  intros HN. exists missing. split; [exact Hm|].
  rewrite Hentry, Huser.
  split; [|split; [|split]].
  - destruct (Spec.entry_guard data); eexists; [now apply He2 | reflexivity].
  - destruct (Spec.user_guard data); eexists; [now apply Hu2 | reflexivity].
  - intros fields Hflat.
    rewrite (missing_file_error_flat data missing fields Hflat) in He2, Hu2.
    split; intros ->; [now apply He2 | now apply Hu2].
  - intros thrown Hthrown.
    rewrite (missing_file_error_thrown data missing thrown Hthrown) in He2, Hu2.
    split; intros ->; [now apply He2 | now apply Hu2].
Qed.

End SendProperties.

(** C3, as stated, fails: an entry whose [dataType] is ["bogus"] passes the
    guard, goes through the retry logic and is posted. *)
Lemma sendEntryData_bogus_dataType_is_posted :
  API.sendEntryData Examples.accepting Examples.no_files Examples.file_name
    Config.new Examples.bogus_entry [] Examples.start
  = (Fulfilled (Some (VStr "ok")),
     ({| net := 1%nat;
         requests := [{| method := str "POST"; API.url := str "/data/entries";
                         payload := JsonBody Examples.bogus_entry |}];
         streams := [] |},
      [Attempt 1])).
Proof. vm_compute. reflexivity. Qed.

Lemma send_with_missing_file_witness :
  [str "/tmp/a.txt"; str "/tmp/b.txt"] <> []
  /\ requests (fst (snd (API.sendEntryData Examples.accepting Examples.tmp_dir
                           Examples.file_name Config.new Examples.event_entry
                           [str "/tmp/a.txt"; str "/tmp/b.txt"] Examples.start)))
     = requests Examples.start
  /\ requests (fst (snd (API.sendUserData Examples.accepting Examples.tmp_dir
                           Examples.file_name Config.new Examples.event_entry
                           [str "/tmp/a.txt"; str "/tmp/b.txt"] Examples.start)))
     = requests Examples.start
  /\ ((1 <= Config.retryAttempts Config.new)%Z ->
      exists missing,
        Spec.first_missing Examples.tmp_dir [str "/tmp/a.txt"; str "/tmp/b.txt"]
        = Some missing
        /\ (exists e, fst (API.sendEntryData Examples.accepting Examples.tmp_dir
                             Examples.file_name Config.new Examples.event_entry
                             [str "/tmp/a.txt"; str "/tmp/b.txt"] Examples.start)
                      = Rejected e)
        /\ (exists e, fst (API.sendUserData Examples.accepting Examples.tmp_dir
                             Examples.file_name Config.new Examples.event_entry
                             [str "/tmp/a.txt"; str "/tmp/b.txt"] Examples.start)
                      = Rejected e)
        /\ (forall fields,
            flattenAndAddToForm Examples.event_entry [] = Fulfilled fields ->
            (Spec.entry_guard Examples.event_entry = true ->
             fst (API.sendEntryData Examples.accepting Examples.tmp_dir
                    Examples.file_name Config.new Examples.event_entry
                    [str "/tmp/a.txt"; str "/tmp/b.txt"] Examples.start)
             = Rejected (JsError (str "File not found: " ++ missing)))
            /\ (Spec.user_guard Examples.event_entry = true ->
                fst (API.sendUserData Examples.accepting Examples.tmp_dir
                       Examples.file_name Config.new Examples.event_entry
                       [str "/tmp/a.txt"; str "/tmp/b.txt"] Examples.start)
                = Rejected (JsError (str "File not found: " ++ missing))))
        /\ (forall thrown,
            flattenAndAddToForm Examples.event_entry [] = Rejected thrown ->
            (Spec.entry_guard Examples.event_entry = true ->
             fst (API.sendEntryData Examples.accepting Examples.tmp_dir
                    Examples.file_name Config.new Examples.event_entry
                    [str "/tmp/a.txt"; str "/tmp/b.txt"] Examples.start)
             = Rejected thrown)
            /\ (Spec.user_guard Examples.event_entry = true ->
                fst (API.sendUserData Examples.accepting Examples.tmp_dir
                       Examples.file_name Config.new Examples.event_entry
                       [str "/tmp/a.txt"; str "/tmp/b.txt"] Examples.start)
                = Rejected thrown))).
Proof.
  apply (send_with_missing_file_issues_no_request nat Examples.accepting
           Examples.tmp_dir Examples.file_name Config.new Examples.event_entry
           [str "/tmp/a.txt"; str "/tmp/b.txt"] Examples.start).
  exists (str "/tmp/b.txt"). split; [right; left; reflexivity | reflexivity].
Defined.

(** C4, as stated, fails: a directory is not a regular file, yet a send with
    the directory attached is posted. *)
Lemma send_with_directory_is_posted :
  Examples.tmp_dir (str "/tmp") = Some {| isFile := false; size := 4096 |}
  /\ API.sendEntryData Examples.accepting Examples.tmp_dir Examples.file_name
       Config.new Examples.event_entry [str "/tmp"] Examples.start
     = (Fulfilled (Some (VStr "ok")),
        ({| net := 1%nat;
            requests :=
              [{| method := str "POST"; API.url := str "/data/entries";
                  payload :=
                    FormBody
                      [(str "externalId", SStr (str "e1"));
                       (str "dataType", SStr (str "event_data"))]
                      [(str "tmp", str "/tmp")] |}];
            streams := [str "/tmp"] |},
         [Attempt 1])).
Proof. split; vm_compute; reflexivity. Qed.

(* ================================================================== *)
(** * Properties of api.js: batches *)
(* ================================================================== *)

Section ChunkProperties.

Variable A : Type.

Lemma chunked_fuel_concat (size : nat) :
  0 < size ->
  forall (fuel : nat) (l : list A),
    length l <= fuel -> concat (Spec.chunked_fuel fuel size l) = l.
Proof.
  intros Hs. induction fuel as [|fuel IH]; intros l Hl.
  - destruct l; [reflexivity | simpl in Hl; lia].
  - destruct l as [|x l]; [reflexivity|].
    cbn [Spec.chunked_fuel concat].
    rewrite IH; [apply firstn_skipn|].
    rewrite length_skipn. cbn [length] in *. lia.
Qed.

Lemma chunked_fuel_sizes (size : nat) :
  0 < size ->
  forall (fuel : nat) (l : list A),
    Forall (fun c => 1 <= length c <= size) (Spec.chunked_fuel fuel size l).
Proof.
  intros Hs. induction fuel as [|fuel IH]; intros l; [constructor|].
  destruct l as [|x l]; [constructor|].
  cbn [Spec.chunked_fuel]. constructor; [|apply IH].
  rewrite length_firstn. cbn [length]. lia.
Qed.

Lemma chunked_fuel_count (size : nat) :
  0 < size ->
  forall (fuel : nat) (l : list A),
    length l <= fuel ->
    length (Spec.chunked_fuel fuel size l) = (length l + (size - 1)) / size.
Proof.
  intros Hs. induction fuel as [|fuel IH]; intros l Hl.
  - destruct l; [|simpl in Hl; lia]. simpl.
    symmetry. apply Nat.div_small. lia.
  - destruct l as [|x l].
    + simpl. symmetry. apply Nat.div_small. lia.
    + cbn [Spec.chunked_fuel length].
      rewrite IH by (rewrite length_skipn; cbn [length] in *; lia).
      rewrite length_skipn. cbn [length].
      destruct (Nat.le_gt_cases (S (length l)) size) as [Hle|Hgt].
      * replace (S (length l) - size) with 0 by lia.
        rewrite (Nat.div_small (0 + (size - 1)) size) by lia.
        apply (Nat.div_unique _ _ 1 (S (length l) - 1)); lia.
      * replace (S (length l) + (size - 1))
          with ((S (length l) - size + (size - 1)) + 1 * size) by lia.
        rewrite Nat.div_add by lia. lia.
Qed.

(** Every chunk but the last is full. *)
Lemma chunked_fuel_full (size : nat) :
  forall (fuel : nat) (l : list A) (i : nat),
    S i < length (Spec.chunked_fuel fuel size l) ->
    length (nth i (Spec.chunked_fuel fuel size l) []) = size.
Proof.
  induction fuel as [|fuel IH]; intros l i Hi; [simpl in Hi; lia|].
  destruct l as [|x l]; [simpl in Hi; lia|].
  cbn [Spec.chunked_fuel] in *. cbn [length] in Hi.
  destruct i as [|i].
  - cbn [nth]. rewrite length_firstn.
    destruct (Nat.le_gt_cases size (length (x :: l))) as [Hle|Hgt]; [lia|].
    exfalso. rewrite skipn_all2 in Hi by lia.
    destruct fuel; simpl in Hi; lia.
  - cbn [nth]. apply IH. lia.
Qed.

End ChunkProperties.

Section BatchProperties.

Variable Net : Type.
Variable http : request -> Net -> settled value API.error * Net.
Variable statSync : jsstring -> option Stats.
Variable basename : jsstring -> jsstring.
Variable config : Config.t.

Local Abbreviation world := (API.world Net).
Local Abbreviation sendEntryData := (API.sendEntryData http statSync basename config).
Local Abbreviation send_members := (API.send_members http statSync basename config).
Local Abbreviation batch_loop := (API.batch_loop http statSync basename config).
Local Abbreviation batchSendEntries := (API.batchSendEntries http statSync basename config).

(** The chunk loop, one iteration unfolded. *)
Lemma batch_loop_unfold (entries : list value) (i : nat) (st : batch_state Net) :
  batch_loop entries i st
  = if i <? length entries then
      batch_loop entries (i + batchSize)
        {| results := results st
                      ++ fst (send_members (slice i (i + batchSize) entries) (after st));
           chunks := chunks st ++ [slice i (i + batchSize) entries];
           after := snd (send_members (slice i (i + batchSize) entries) (after st)) |}
    else st.
Proof.
  rewrite API.batch_loop_equation_1.
  destruct (lt_dec i (length entries)) as [Hlt|Hge]; simpl.
  - replace (i <? length entries) with true by (symmetry; apply Nat.ltb_lt; lia).
    destruct (send_members (slice i (i + batchSize) entries) (after st)) as [rs w'].
    reflexivity.
  - replace (i <? length entries) with false by (symmetry; apply Nat.ltb_ge; lia).
    reflexivity.
Qed.

Lemma send_members_app (a b : list value) (w : world) :
  send_members (a ++ b) w
  = (fst (send_members a w) ++ fst (send_members b (snd (send_members a w))),
     snd (send_members b (snd (send_members a w)))).
Proof.
  revert w. induction a as [|entry a IH]; intros w; cbn [app API.send_members].
  - cbn [fst snd app]. now destruct (send_members b w).
  - destruct (sendEntryData entry [] w) as [r [w1 tr]].
    rewrite IH.
    destruct (send_members a w1) as [rs w2]. reflexivity.
Qed.

Lemma send_members_length (batch : list value) (w : world) :
  length (fst (send_members batch w)) = length batch.
Proof.
  revert w. induction batch as [|entry batch IH]; intros w; cbn [API.send_members].
  - reflexivity.
  - destruct (sendEntryData entry [] w) as [r [w1 tr]].
    specialize (IH w1). destruct (send_members batch w1) as [rs w2].
    simpl in *. now rewrite IH.
Qed.

(** The outcome at each position is the outcome of sending the entry at that
    position, whatever the other members did. *)
Lemma send_members_nth (batch : list value) :
  forall (w : world) (i : nat) (entry : value),
    nth_error batch i = Some entry ->
    exists wi,
      nth_error (fst (send_members batch w)) i = Some (fst (sendEntryData entry [] wi)).
Proof.
  induction batch as [|e batch IH]; intros w i entry Hi; [destruct i; discriminate|].
  cbn [API.send_members].
  destruct (sendEntryData e [] w) as [r [w1 tr]] eqn:He.
  destruct (send_members batch w1) as [rs w2] eqn:Hrest.
  destruct i as [|i]; cbn [nth_error fst] in *.
  - injection Hi as <-. exists w. now rewrite He.
  - destruct (IH w1 i entry Hi) as [wi Hwi]. exists wi.
    now rewrite Hrest in Hwi.
Qed.

Lemma batch_loop_runs (entries : list value) :
  forall (fuel i : nat) (st : batch_state Net),
    length entries - i <= fuel ->
    batch_loop entries i st
    = {| results := results st ++ fst (send_members (skipn i entries) (after st));
         chunks := chunks st ++ Spec.chunked_fuel fuel batchSize (skipn i entries);
         after := snd (send_members (skipn i entries) (after st)) |}.
Proof.
  induction fuel as [|fuel IH]; intros i st Hf; rewrite batch_loop_unfold.
  - replace (i <? length entries) with false by (symmetry; apply Nat.ltb_ge; lia).
    rewrite skipn_all2 by lia. destruct st; simpl. now rewrite !app_nil_r.
  - destruct (Nat.ltb_spec i (length entries)) as [Hlt|Hge].
    + rewrite IH by (unfold batchSize; lia).
      unfold slice. replace (i + batchSize - i) with batchSize by lia.
      cbn [results chunks after].
      assert (Hne : skipn i entries <> []).
      { intros Hnil. apply skipn_all_iff in Hnil. lia. }
      destruct (skipn i entries) as [|x l] eqn:Hskip; [congruence|].
      cbn [Spec.chunked_fuel].
      replace (skipn (i + batchSize) entries) with (skipn batchSize (x :: l))
        by (rewrite <- Hskip, skipn_skipn; f_equal; lia).
      pose proof (send_members_app (firstn batchSize (x :: l))
                    (skipn batchSize (x :: l)) (after st)) as Happ.
      rewrite firstn_skipn in Happ. rewrite Happ. cbn [fst snd].
      rewrite <- !app_assoc. reflexivity.
    + rewrite skipn_all2 by lia. destruct st, fuel; simpl; now rewrite !app_nil_r.
Qed.

(** When the request function's answer does not depend on the world, the
    way a run settles does not either. *)
Lemma retry_loop_answer_independent (W V E : Type) (requestFn : request_fn W V E)
  (retries delay : Z) :
  (forall w1 w2, fst (requestFn w1) = fst (requestFn w2)) ->
  forall (k : nat) (attempt : Z) (w1 w2 : W) (tr1 tr2 : list retry_event),
    (retries + 1 - attempt <= Z.of_nat k)%Z ->
    fst (retry_loop retries delay requestFn attempt (w1, tr1))
    = fst (retry_loop retries delay requestFn attempt (w2, tr2)).
Proof.
  intros Hsame. induction k as [|k IH]; intros attempt w1 w2 tr1 tr2 Hk;
    rewrite !retry_loop_unfold.
  - replace (attempt <=? retries)%Z with false by (symmetry; apply Z.leb_gt; lia).
    reflexivity.
  - destruct (attempt <=? retries)%Z; [|reflexivity].
    specialize (Hsame w1 w2).
    destruct (requestFn w1) as [[v1|e1] w1'], (requestFn w2) as [[v2|e2] w2'];
      simpl in Hsame; try discriminate.
    + injection Hsame as ->. reflexivity.
    + injection Hsame as ->.
      destruct (attempt =? retries)%Z; [reflexivity|].
      apply IH. lia.
Qed.

Lemma sendEntryData_answer_independent :
  Spec.answers_by_request http ->
  forall (entry : value) (w w' : world),
    fst (sendEntryData entry [] w) = fst (sendEntryData entry [] w').
Proof.
  intros Hhttp entry w w'. unfold API.sendEntryData.
  destruct (negb (truthy entry) || negb (truthy (get (str "externalId") entry))
            || negb (truthy (get (str "dataType") entry))); [reflexivity|].
  unfold retryRequest.
  apply retry_loop_answer_independent
    with (k := Z.to_nat (or_num None (Config.retryAttempts config))); [|lia].
  intros w1 w2. unfold send_once, post, issue.
  match goal with |- context [http ?r (net w1)] =>
    specialize (Hhttp r (net w1) (net w2));
    destruct (http r (net w1)), (http r (net w2)) end.
  exact Hhttp.
Qed.

Lemma send_members_map (w0 : world) :
  Spec.answers_by_request http ->
  forall (batch : list value) (w : world),
    fst (send_members batch w) = map (fun entry => fst (sendEntryData entry [] w0)) batch.
Proof.
  intros Hhttp. induction batch as [|entry batch IH]; intros w; [reflexivity|].
  cbn [API.send_members map].
  rewrite (sendEntryData_answer_independent Hhttp entry w0 w).
  destruct (sendEntryData entry [] w) as [r [w1 tr]].
  specialize (IH w1). destruct (send_members batch w1) as [rs w2].
  cbn [fst] in *. now rewrite IH.
Qed.

(** C7, as the code has it.  A batch send of a non-empty sequence is cut
    into consecutive chunks of ten (the last one with what is left; 25
    records make 3 chunks) and fulfils with one outcome per record, in input
    order: the outcome at a position is that of sending the record at that
    position, a rejected member leaves the others in place, and against an
    endpoint that answers by the request alone each outcome depends on its
    own record only. *)
Theorem batchSendEntries_outcomes (items : list value) (w : world) :
  items <> [] ->
  exists st,
    batchSendEntries (VArr items) w = Fulfilled st
    /\ chunks st = Spec.chunked batchSize items
    /\ concat (chunks st) = items
    /\ Forall (fun c => 1 <= length c <= 10) (chunks st)
    /\ (forall i, S i < length (chunks st) -> length (nth i (chunks st) []) = 10)
    /\ length (chunks st) = (length items + 9) / 10
    /\ (length items = 25 -> length (chunks st) = 3)
    /\ results st = fst (send_members items w)
    /\ length (results st) = length items
    /\ (forall i entry, nth_error items i = Some entry ->
        exists wi, nth_error (results st) i = Some (fst (sendEntryData entry [] wi)))
    /\ (Spec.answers_by_request http ->
        results st = map (fun entry => fst (sendEntryData entry [] w)) items).
Proof.
  intros Hne. destruct items as [|entry rest]; [congruence|].
  set (items := entry :: rest) in *.
  eexists. split; [reflexivity|].
  rewrite (batch_loop_runs items (length items) 0) by lia.
  cbn [results chunks after skipn app].
  assert (Hchunks : Spec.chunked_fuel (length items) batchSize items
                    = Spec.chunked batchSize items) by reflexivity.
  rewrite Hchunks. unfold Spec.chunked, batchSize.
  split; [reflexivity|].
  split; [apply chunked_fuel_concat; lia|].
  split; [apply chunked_fuel_sizes; lia|].
  split; [intros i Hi; now apply chunked_fuel_full|].
  split; [rewrite chunked_fuel_count by lia; reflexivity|].
  split; [intros H25; rewrite chunked_fuel_count by lia; now rewrite H25|].
  split; [reflexivity|].
  split; [apply send_members_length|].
  split; [intros i e Hi; now apply send_members_nth|].
  intros Hhttp. now apply send_members_map.
Qed.

End BatchProperties.

(** C7, as stated, fails on the empty sequence: the call is rejected and
    yields no sequence of outcomes. *)
Lemma batchSendEntries_empty_is_rejected :
  API.batchSendEntries Examples.accepting Examples.no_files Examples.file_name
    Config.new (VArr []) Examples.start
  = Rejected (JsError (str "Entries must be a non-empty array")).
Proof. reflexivity. Qed.

Lemma batchSendEntries_outcomes_witness :
  exists st,
    API.batchSendEntries Examples.unreachable Examples.no_files Examples.file_name
      Config.new (VArr Examples.twenty_five) Examples.start = Fulfilled st
    /\ length (chunks st) = 3
    /\ length (results st) = 25
    /\ results st
       = map (fun entry =>
                fst (API.sendEntryData Examples.unreachable Examples.no_files
                       Examples.file_name Config.new entry [] Examples.start))
           Examples.twenty_five.
Proof.
  destruct (batchSendEntries_outcomes nat Examples.unreachable Examples.no_files
              Examples.file_name Config.new Examples.twenty_five Examples.start)
    as (st & Hst & _ & _ & _ & _ & _ & H25 & _ & Hlen & _ & Hmap).
  - discriminate.
  - exists st. split; [exact Hst|].
    split; [apply H25; reflexivity|].
    split; [rewrite Hlen; reflexivity|].
    apply Hmap. intros r n n'. reflexivity.
Defined.

(* ================================================================== *)
(** * Properties of middleware.js: route patterns *)
(* ================================================================== *)

Section RouteProperties.

Import Middleware.

(** *** Global replacement *)

Lemma replace_all_fuel_enough (m : matcher) (replacement : jsstring) :
  Spec.productive m ->
  forall (fuel1 fuel2 : nat) (s : jsstring),
    length s < fuel1 -> length s < fuel2 ->
    replace_all_fuel fuel1 m replacement s = replace_all_fuel fuel2 m replacement s.
Proof.
  intros Hm. induction fuel1 as [|fuel1 IH]; intros fuel2 s H1 H2; [lia|].
  destruct fuel2 as [|fuel2]; [lia|].
  cbn [replace_all_fuel].
  destruct (m s) as [rest|] eqn:Hs.
  - apply Hm in Hs. f_equal. apply IH; lia.
  - destruct s as [|c rest]; [reflexivity|].
    cbn [length] in *. f_equal. apply IH; lia.
Qed.

Lemma replace_all_unfold (m : matcher) (replacement s : jsstring) :
  Spec.productive m ->
  replace_all m replacement s
  = match m s with
    | Some rest => replacement ++ replace_all m replacement rest
    | None =>
        match s with
        | [] => []
        | c :: rest => c :: replace_all m replacement rest
        end
    end.
Proof.
  intros Hm. unfold replace_all at 1. cbn [replace_all_fuel].
  destruct (m s) as [rest|] eqn:Hs.
  - pose proof (Hm _ _ Hs). f_equal.
    apply replace_all_fuel_enough; [assumption | lia | lia].
  - destruct s as [|c rest]; reflexivity.
Qed.

Lemma replace_all_nowhere (m : matcher) (replacement : jsstring) :
  Spec.productive m ->
  forall s, Spec.nowhere m s -> replace_all m replacement s = s.
Proof.
  intros Hm. induction s as [|c s IH]; intros [Hs Hrest];
    rewrite replace_all_unfold by assumption; rewrite Hs; [reflexivity|].
  f_equal. now apply IH.
Qed.

Lemma nowhere_app_l (m : matcher) :
  Spec.monotone m ->
  forall p q, Spec.nowhere m (p ++ q) -> Spec.nowhere m p.
Proof.
  intros Hm. induction p as [|c p IH]; intros q H.
  - split; [|exact I]. apply (Hm [] q). destruct q; apply H.
  - destruct H as [Hc Hrest]. split; [now apply (Hm (c :: p) q)|].
    now apply (IH q).
Qed.

Lemma nowhere_app_r (m : matcher) :
  forall p q, Spec.nowhere m (p ++ q) -> Spec.nowhere m q.
Proof.
  induction p as [|c p IH]; intros q H; [exact H|].
  apply IH. apply H.
Qed.

(** *** The two patterns *)

Lemma drop_digits_length (s : jsstring) : length (drop_digits s) <= length s.
Proof.
  induction s as [|c s IH]; [reflexivity|].
  cbn [drop_digits]. destruct (is_digit c); cbn [length]; lia.
Qed.

Lemma slash_digits_productive : Spec.productive slash_digits.
Proof.
  intros [|c [|d s]] rest H; try discriminate.
  cbn [slash_digits] in H.
  destruct (is_slash c && is_digit d); [|discriminate].
  injection H as <-. pose proof (drop_digits_length s). cbn [length]. lia.
Qed.

Lemma exactly_split (p : char -> bool) (n : nat) :
  forall s rest, exactly p n s = Some rest ->
    exists pre, s = pre ++ rest /\ length pre = n.
Proof.
  induction n as [|n IH]; intros s rest H.
  - injection H as <-. exists []. auto.
  - destruct s as [|c s]; [discriminate|]. cbn [exactly] in H.
    destruct (p c); [|discriminate].
    destruct (IH _ _ H) as (pre & -> & Hlen).
    exists (c :: pre). cbn [length]. auto.
Qed.

Lemma slash_uuid_split (s rest : jsstring) :
  slash_uuid s = Some rest -> exists pre, s = pre ++ rest /\ length pre = 37.
Proof.
  destruct s as [|c s]; [discriminate|]. cbn [slash_uuid].
  destruct (is_slash c); [|discriminate]. intros H.
  destruct (exactly_split _ _ _ _ H) as (pre & -> & Hlen).
  exists (c :: pre). cbn [length]. auto.
Qed.

Lemma slash_uuid_productive : Spec.productive slash_uuid.
Proof.
  intros s rest H. destruct (slash_uuid_split _ _ H) as (pre & -> & Hlen).
  rewrite length_app. lia.
Qed.

Lemma slash_digits_monotone : Spec.monotone slash_digits.
Proof.
  intros [|c [|d p]] q H; try reflexivity.
  cbn [app slash_digits] in *.
  destruct (is_slash c && is_digit d); [discriminate | reflexivity].
Qed.

Lemma exactly_monotone (p : char -> bool) (n : nat) :
  forall s q, exactly p n (s ++ q) = None -> exactly p n s = None.
Proof.
  induction n as [|n IH]; intros s q H; [discriminate|].
  destruct s as [|c s]; [reflexivity|].
  cbn [app exactly] in *. destruct (p c); [now apply (IH s q) | reflexivity].
Qed.

Lemma slash_uuid_monotone : Spec.monotone slash_uuid.
Proof.
  intros [|c p] q H; [reflexivity|].
  cbn [app slash_uuid] in *.
  destruct (is_slash c); [now apply (exactly_monotone _ _ p q) | reflexivity].
Qed.

Lemma slash_digits_none (c : char) (s : jsstring) :
  slash_digits (c :: s) = None <-> is_slash c && Spec.head_digit s = false.
Proof.
  destruct s as [|d s]; cbn [slash_digits Spec.head_digit].
  - rewrite andb_false_r. tauto.
  - destruct (is_slash c && is_digit d); split; congruence.
Qed.

Lemma hex_is_not_slash (c : char) : is_hex_or_dash c = true -> is_slash c = false.
Proof.
  unfold is_hex_or_dash, is_digit, is_slash. intros H.
  destruct (N.eqb_spec c 47) as [->|]; [discriminate H | reflexivity].
Qed.

Lemma digit_is_not_slash (c : char) : is_digit c = true -> is_slash c = false.
Proof.
  unfold is_digit, is_slash. intros H.
  destruct (N.eqb_spec c 47) as [->|]; [discriminate H | reflexivity].
Qed.

(** *** What the replacements leave behind *)

Lemma nowhere_digits_cons (c : char) (s : jsstring) :
  is_slash c && Spec.head_digit s = false ->
  Spec.nowhere slash_digits s ->
  Spec.nowhere slash_digits (c :: s).
Proof. intros Hc Hs. split; [now apply slash_digits_none | exact Hs]. Qed.

Lemma nowhere_uuid_cons (c : char) (s : jsstring) :
  (is_slash c = true -> exactly is_hex_or_dash 36 s = None) ->
  Spec.nowhere slash_uuid s ->
  Spec.nowhere slash_uuid (c :: s).
Proof.
  intros Hc Hs. split; [|exact Hs].
  cbn [slash_uuid]. destruct (is_slash c); [now apply Hc | reflexivity].
Qed.

(** A replacement that does not begin with a digit puts no digit in front. *)
Lemma head_digit_replace_all (m : matcher) (r : char) (replacement s : jsstring) :
  Spec.productive m ->
  is_digit r = false ->
  Spec.head_digit s = false ->
  Spec.head_digit (replace_all m (r :: replacement) s) = false.
Proof.
  intros Hm Hr Hs. rewrite replace_all_unfold by assumption.
  destruct (m s); [exact Hr|]. destruct s; [reflexivity | exact Hs].
Qed.

Lemma ids_leave_no_id (n : nat) :
  forall s, length s <= n ->
    Spec.nowhere slash_digits (replace_all slash_digits (str "/:id") s).
Proof.
  induction n as [|n IH]; intros s Hn;
    rewrite replace_all_unfold by exact slash_digits_productive.
  - destruct s; [|cbn [length] in Hn; lia]. cbn. auto.
  - destruct (slash_digits s) as [rest|] eqn:Hs.
    + pose proof (slash_digits_productive _ _ Hs) as Hlt.
      change (str "/:id" ++ replace_all slash_digits (str "/:id") rest)
        with (47 :: 58 :: 105 :: 100 :: replace_all slash_digits (str "/:id") rest)%N.
      repeat (apply nowhere_digits_cons; [reflexivity|]).
      apply IH. lia.
    + destruct s as [|c s]; [cbn; auto|].
      apply nowhere_digits_cons; [|apply IH; cbn [length] in Hn; lia].
      apply slash_digits_none in Hs.
      destruct (is_slash c); [|reflexivity]. cbn [andb] in *.
      now apply head_digit_replace_all; [exact slash_digits_productive| |].
Qed.

Lemma uuids_keep_no_id (n : nat) :
  forall s, length s <= n ->
    Spec.nowhere slash_digits s ->
    Spec.nowhere slash_digits (replace_all slash_uuid (str "/:uuid") s).
Proof.
  induction n as [|n IH]; intros s Hn Hs;
    rewrite replace_all_unfold by exact slash_uuid_productive.
  - destruct s; [|cbn [length] in Hn; lia]. cbn. auto.
  - destruct (slash_uuid s) as [rest|] eqn:Hm.
    + destruct (slash_uuid_split _ _ Hm) as (pre & -> & Hlen).
      change (str "/:uuid" ++ replace_all slash_uuid (str "/:uuid") rest)
        with (47 :: 58 :: 117 :: 117 :: 105 :: 100
                 :: replace_all slash_uuid (str "/:uuid") rest)%N.
      repeat (apply nowhere_digits_cons; [reflexivity|]).
      apply IH; [rewrite length_app in Hn; lia|].
      now apply nowhere_app_r with pre.
    + destruct s as [|c s]; [cbn; auto|].
      destruct Hs as [Hc Hs].
      apply nowhere_digits_cons; [|apply IH; [cbn [length] in Hn; lia | exact Hs]].
      apply slash_digits_none in Hc.
      destruct (is_slash c); [|reflexivity]. cbn [andb] in *.
      now apply head_digit_replace_all; [exact slash_uuid_productive| |].
Qed.

(** Where thirty-six class characters did not follow, they do not follow
    after the replacement either. *)
Lemma exactly_after_uuids (n : nat) :
  forall s, exactly is_hex_or_dash n s = None ->
    exactly is_hex_or_dash n (replace_all slash_uuid (str "/:uuid") s) = None.
Proof.
  induction n as [|n IH]; intros s H; [discriminate|].
  rewrite replace_all_unfold by exact slash_uuid_productive.
  destruct (slash_uuid s) as [rest|] eqn:Hm; [reflexivity|].
  destruct s as [|c s]; [reflexivity|].
  cbn [exactly] in *.
  destruct (is_hex_or_dash c); [now apply IH | reflexivity].
Qed.

Lemma uuids_leave_no_uuid (n : nat) :
  forall s, length s <= n ->
    Spec.nowhere slash_uuid (replace_all slash_uuid (str "/:uuid") s).
Proof.
  induction n as [|n IH]; intros s Hn;
    rewrite replace_all_unfold by exact slash_uuid_productive.
  - destruct s; [|cbn [length] in Hn; lia]. cbn. auto.
  - destruct (slash_uuid s) as [rest|] eqn:Hm.
    + destruct (slash_uuid_split _ _ Hm) as (pre & -> & Hlen).
      change (str "/:uuid" ++ replace_all slash_uuid (str "/:uuid") rest)
        with (47 :: 58 :: 117 :: 117 :: 105 :: 100
                 :: replace_all slash_uuid (str "/:uuid") rest)%N.
      repeat (apply nowhere_uuid_cons; [intros; try discriminate; reflexivity|]).
      apply IH. rewrite length_app in Hn. lia.
    + destruct s as [|c s]; [cbn; auto|].
      apply nowhere_uuid_cons; [|apply IH; cbn [length] in Hn; lia].
      intros Hc. cbn [slash_uuid] in Hm. rewrite Hc in Hm.
      now apply exactly_after_uuids.
Qed.

(** *** The query string *)

Lemma strip_query_prefix (s : jsstring) : exists q, s = strip_query s ++ q.
Proof.
  induction s as [|c s [q IH]]; [exists []; reflexivity|].
  cbn [strip_query].
  destruct ((c =? 63)%N && no_line_terminator s).
  - exists (c :: s). reflexivity.
  - exists q. cbn [app]. now rewrite <- IH.
Qed.

Lemma no_line_terminator_cons (c : char) (s : jsstring) :
  no_line_terminator (c :: s) = negb (is_line_terminator c) && no_line_terminator s.
Proof. reflexivity. Qed.

Lemma strip_query_keeps_terminator (s : jsstring) :
  no_line_terminator s = false -> no_line_terminator (strip_query s) = false.
Proof.
  induction s as [|c s IH]; intros H; [discriminate|].
  rewrite no_line_terminator_cons in H. cbn [strip_query].
  destruct ((c =? 63)%N && no_line_terminator s) eqn:Hq.
  - apply andb_true_iff in Hq. destruct Hq as [Hc Hs].
    apply N.eqb_eq in Hc. subst c. rewrite Hs in H. discriminate H.
  - rewrite no_line_terminator_cons.
    destruct (is_line_terminator c); [reflexivity|].
    cbn [negb andb] in *. now apply IH.
Qed.

Lemma strip_query_idempotent (s : jsstring) :
  strip_query (strip_query s) = strip_query s.
Proof.
  induction s as [|c s IH]; [reflexivity|].
  cbn [strip_query].
  destruct ((c =? 63)%N && no_line_terminator s) eqn:Hq; [reflexivity|].
  cbn [strip_query]. rewrite IH.
  destruct (c =? 63)%N; [|reflexivity].
  cbn [andb] in *. now rewrite (strip_query_keeps_terminator _ Hq).
Qed.

Lemma strip_query_nowhere (m : matcher) (s : jsstring) :
  Spec.monotone m -> Spec.nowhere m s -> Spec.nowhere m (strip_query s).
Proof.
  intros Hm Hs. destruct (strip_query_prefix s) as [q Hq].
  rewrite Hq in Hs. now apply nowhere_app_l with q.
Qed.

(** *** Normalization *)

Lemma normalize_fixed (s : jsstring) :
  Spec.nowhere slash_digits s ->
  Spec.nowhere slash_uuid s ->
  strip_query s = s ->
  normalize s = s.
Proof.
  intros Hd Hu Hq. unfold normalize.
  rewrite (replace_all_nowhere slash_digits (str "/:id") slash_digits_productive _ Hd).
  rewrite (replace_all_nowhere slash_uuid (str "/:uuid") slash_uuid_productive _ Hu).
  exact Hq.
Qed.

(** Route normalization is idempotent. *)
Lemma normalize_idempotent (r : jsstring) : normalize (normalize r) = normalize r.
Proof.
  apply normalize_fixed.
  - unfold normalize.
    apply strip_query_nowhere; [exact slash_digits_monotone|].
    apply (uuids_keep_no_id _ _ (le_n _)).
    apply (ids_leave_no_id _ _ (le_n _)).
  - unfold normalize.
    apply strip_query_nowhere; [exact slash_uuid_monotone|].
    apply (uuids_leave_no_uuid _ _ (le_n _)).
  - apply strip_query_idempotent.
Qed.

(** The pattern of a request that Express did not match is a fixed point
    of the helper. *)
Lemma getRoutePattern_idempotent (url : jsstring) :
  getRoutePattern (mkReq None (getRoutePattern (mkReq None url)))
  = getRoutePattern (mkReq None url).
Proof. cbn [getRoutePattern route_path Middleware.url]. apply normalize_idempotent. Qed.

Lemma getRoutePattern_numeric_id :
  getRoutePattern (mkReq None (str "/users/123")) = str "/users/:id".
Proof. vm_compute. reflexivity. Qed.

Lemma getRoutePattern_query :
  getRoutePattern (mkReq None (str "/search?q=x")) = str "/search".
Proof. vm_compute. reflexivity. Qed.

(** A UUID that begins with a letter is replaced by [:uuid]. *)
Lemma getRoutePattern_uuid_with_leading_letter :
  getRoutePattern (mkReq None (str "/users/afa85f64-5717-4562-b3fc-2c963f66afa6"))
  = str "/users/:uuid".
Proof. vm_compute. reflexivity. Qed.

(** C5 at the UUID of the claim, which begins with a digit: the first
    replacement turns [/3] into [/:id], and the rest of the UUID stays. *)
Theorem getRoutePattern_uuid_with_leading_digit :
  getRoutePattern (mkReq None (str "/users/3fa85f64-5717-4562-b3fc-2c963f66afa6"))
  = str "/users/:idfa85f64-5717-4562-b3fc-2c963f66afa6"
  /\ getRoutePattern (mkReq None (str "/users/3fa85f64-5717-4562-b3fc-2c963f66afa6"))
     <> str "/users/:uuid".
Proof. split; [vm_compute; reflexivity | vm_compute; discriminate]. Qed.

End RouteProperties.

(* ================================================================== *)
(** * Properties of middleware.js: health checks *)
(* ================================================================== *)

Section HealthProperties.

Import Middleware.

Variables W V : Type.
Variable config : option Config.t.
Variable api : option (W -> settled V value * W).
Variable toPropertyKey : value -> settled jsstring API.error.

Local Abbreviation run_checks := (@Middleware.run_checks W toPropertyKey).
Local Abbreviation api_check := (@Middleware.api_check W V api).
Local Abbreviation check_key := (@Middleware.check_key W toPropertyKey).
Local Abbreviation try_check := (@Middleware.try_check W toPropertyKey).
Local Abbreviation handled := (@Middleware.handled W toPropertyKey).
Local Abbreviation escapes := (@Middleware.escapes W toPropertyKey).
Local Abbreviation healthCheck :=
  (@Middleware.healthCheck W V config api).

(** *** One entry *)

(** The [try] block of an entry leaves the status as it is. *)
Lemma try_check_status (c : check W) (h h' : health) (w w' : W) :
  try_check c h w = (Fulfilled h', w') -> status h' = status h.
Proof.
  unfold Middleware.try_check. destruct c as [name run|entry]; [|discriminate].
  destruct (run w) as [[result|reason] w1]; [|discriminate].
  destruct (nullish result); [discriminate|].
  destruct (Middleware.check_key toPropertyKey (Probe name run)); [|discriminate].
  now intros [= <- _].
Qed.

(** Its [catch] clause, where it does not throw, sets the status to
    degraded. *)
Lemma catch_check_status (key : settled jsstring API.error) (reason : value)
  (h h' : health) :
  catch_check key reason h = Fulfilled h' -> status h' = Degraded.
Proof.
  unfold catch_check. destruct key as [k|e]; [|discriminate].
  destruct (error_message reason); [|discriminate].
  now intros [= <-].
Qed.

(** A probe that throws lands in its [catch] clause. *)
Lemma try_check_rejecting (name : jsstring) (run : W -> settled value value * W)
  (h : health) (w : W) :
  (exists reason w', run w = (Rejected reason, w')) ->
  exists reason w', try_check (Probe name run) h w = (Rejected reason, w').
Proof.
  intros (reason & w' & Hrun). exists reason, w'.
  unfold Middleware.try_check. now rewrite Hrun.
Qed.

(** The [catch] clause of a handled entry returns. *)
Lemma catch_check_handled (c : check W) (h h' : health) (w w' : W) (reason : value) :
  handled c ->
  try_check c h w = (Rejected reason, w') ->
  exists h', catch_check (check_key c) reason h = Fulfilled h'.
Proof.
  intros [[key Hkey] Hreason] Htry. unfold catch_check. rewrite Hkey.
  assert (Hnull : nullish reason = false).
  { unfold Middleware.try_check in Htry. destruct c as [name run|entry].
    - destruct (run w) as [[result|r] w1] eqn:Hrun.
      + destruct (nullish result);
          [now injection Htry as <- _|].
        rewrite Hkey in Htry. discriminate.
      + injection Htry as -> _. exact (Hreason _ _ _ Hrun).
    - now injection Htry as <- _. }
  unfold error_message. rewrite Hnull. eauto.
Qed.

(** The [catch] clause of an entry that escapes throws. *)
Lemma catch_check_escapes (c : check W) (h : health) (w : W) :
  escapes c ->
  exists reason w' e,
    try_check c h w = (Rejected reason, w')
    /\ catch_check (check_key c) reason h = Rejected e.
Proof.
  intros [[e Hkey]|Hrun].
  - destruct c as [name run|entry].
    + destruct name; discriminate.
    + eexists _, w, e. split; [reflexivity|].
      unfold catch_check. now rewrite Hkey.
  - destruct c as [name run|entry]; [|contradiction].
    destruct (Hrun w) as (reason & w' & Hw & Hnull).
    exists reason, w'. unfold Middleware.try_check. rewrite Hw.
    unfold catch_check, error_message. rewrite Hnull.
    destruct (Middleware.check_key toPropertyKey (Probe name run)); eauto.
Qed.

(** *** The loop *)

(** The loop only ever sets the status to degraded. *)
Lemma run_checks_status (customChecks : list (check W)) :
  forall (h : health) (w : W),
    done_with (fun h' => status h' = status h \/ status h' = Degraded)
      (run_checks customChecks h w).
Proof.
  induction customChecks as [|c rest IH]; intros h w; [left; reflexivity|].
  cbn [Middleware.run_checks].
  destruct (Middleware.try_check toPropertyKey c h w) as [[h1|reason] w1] eqn:Htry.
  - apply try_check_status in Htry. rewrite <- Htry. apply IH.
  - destruct (catch_check (Middleware.check_key toPropertyKey c) reason h)
      as [h1|e] eqn:Hcatch; [|exact I].
    apply catch_check_status in Hcatch.
    specialize (IH h1 w1).
    destruct (Middleware.run_checks toPropertyKey rest h1 w1); [|exact I].
    cbn [done_with] in *. right. destruct IH; congruence.
Qed.

Lemma run_checks_keeps_degraded (customChecks : list (check W)) (h : health) (w : W) :
  status h = Degraded ->
  done_with (fun h' => status h' = Degraded) (run_checks customChecks h w).
Proof.
  intros Hd. pose proof (run_checks_status customChecks h w) as H.
  destruct (Middleware.run_checks toPropertyKey customChecks h w); [|exact I].
  cbn [done_with] in *. destruct H; congruence.
Qed.

(** With a probe that throws among the entries, a run that sends the
    response has set the status to degraded. *)
Lemma run_checks_rejecting_probe (customChecks : list (check W)) (name : jsstring)
  (run : W -> settled value value * W) :
  In (Probe name run) customChecks ->
  (forall w, exists reason w', run w = (Rejected reason, w')) ->
  forall (h : health) (w : W),
    done_with (fun h' => status h' = Degraded) (run_checks customChecks h w).
Proof.
  intros Hin Hthrows.
  induction customChecks as [|c rest IH]; intros h w; [contradiction|].
  cbn [Middleware.run_checks]. destruct Hin as [->|Hin].
  - destruct (try_check_rejecting name run h w (Hthrows w)) as (reason & w' & ->).
    destruct (catch_check (Middleware.check_key toPropertyKey (Probe name run)) reason h)
      as [h1|e] eqn:Hcatch; [|exact I].
    apply run_checks_keeps_degraded. now apply catch_check_status in Hcatch.
  - destruct (Middleware.try_check toPropertyKey c h w) as [[h1|reason] w1];
      [now apply IH|].
    destruct (catch_check (Middleware.check_key toPropertyKey c) reason h);
      [now apply IH | exact I].
Qed.

(** With an entry that escapes among the entries, the loop ends in the
    outer [catch]. *)
Lemma run_checks_escapes (customChecks : list (check W)) (c : check W) :
  In c customChecks ->
  escapes c ->
  forall (h : health) (w : W),
  exists e h' w', run_checks customChecks h w = Thrown e h' w'.
Proof.
  intros Hin Hescapes.
  induction customChecks as [|c0 rest IH]; intros h w; [contradiction|].
  cbn [Middleware.run_checks]. destruct Hin as [->|Hin].
  - destruct (catch_check_escapes c h w Hescapes) as (reason & w' & e & -> & ->).
    eauto.
  - destruct (Middleware.try_check toPropertyKey c0 h w) as [[h1|reason] w1];
      [now apply IH|].
    destruct (catch_check (Middleware.check_key toPropertyKey c0) reason h);
      [now apply IH | eauto].
Qed.

(** With handled entries only, the loop runs to its end. *)
Lemma run_checks_handled (customChecks : list (check W)) :
  (forall c, In c customChecks -> handled c) ->
  forall (h : health) (w : W),
  exists h' w', run_checks customChecks h w = Done h' w'.
Proof.
  induction customChecks as [|c rest IH]; intros Hall h w; [cbn; eauto|].
  cbn [Middleware.run_checks].
  assert (Hrest : forall c', In c' rest -> handled c')
    by (intros c' H; apply Hall; now right).
  destruct (Middleware.try_check toPropertyKey c h w) as [[h1|reason] w1] eqn:Htry;
    [now apply IH|].
  destruct (catch_check_handled c h h w w1 reason (Hall c (or_introl eq_refl)) Htry)
    as [h1 ->].
  now apply IH.
Qed.

(** *** The transport check *)

Lemma api_check_status (h : health) (w : W) :
  done_with (fun h' => status h' = status h \/ status h' = Degraded) (api_check h w).
Proof.
  unfold Middleware.api_check. destruct api as [ping|]; [|left; reflexivity].
  destruct (ping w) as [[v|reason] w']; [left; reflexivity|].
  destruct (catch_check (Fulfilled (str "kryosApi")) reason h) as [h1|e] eqn:Hcatch;
    [|exact I].
  right. now apply catch_check_status in Hcatch.
Qed.

Lemma api_check_handled (h : health) (w : W) :
  (forall ping w reason w',
     api = Some ping -> ping w = (Rejected reason, w') -> nullish reason = false) ->
  exists h' w', api_check h w = Done h' w'.
Proof.
  intros Hreason. unfold Middleware.api_check.
  destruct api as [ping|]; [|eauto].
  destruct (ping w) as [[v|reason] w'] eqn:Hping; [eauto|].
  unfold catch_check, error_message.
  rewrite (Hreason ping w reason w' eq_refl Hping). eauto.
Qed.

Lemma api_check_escapes (ping : W -> settled V value * W) (h : health) (w : W) :
  api = Some ping ->
  (forall w, exists reason w', ping w = (Rejected reason, w') /\ nullish reason = true) ->
  exists e h' w', api_check h w = Thrown e h' w'.
Proof.
  intros Hapi Hping. unfold Middleware.api_check. rewrite Hapi.
  destruct (Hping w) as (reason & w' & -> & Hnull).
  unfold catch_check, error_message. rewrite Hnull. eauto.
Qed.

(** *** The handler *)

(** The answer, by how the [try] block ends. *)
Lemma healthCheck_outcome (figures : value * value * value + jsstring)
  (customChecks : list (check W)) (w : W) :
  let answer := fst (healthCheck figures toPropertyKey customChecks w) in
  (status (json answer) = Unhealthy /\ code answer = 503%Z)
  \/ (exists used free total h w1 h' w2,
        figures = inl (used, free, total)
        /\ run_checks customChecks h w = Done h' w1
        /\ api_check h' w1 = Done (json answer) w2
        /\ status h = Healthy
        /\ code answer = match status (json answer) with Healthy => 200 | _ => 503 end%Z).
Proof.
  unfold Middleware.healthCheck.
  destruct figures as [[[used free] total]|message]; [|left; split; reflexivity].
  match goal with
  | |- context [Middleware.run_checks toPropertyKey customChecks ?h w] =>
      set (h0 := h); destruct (Middleware.run_checks toPropertyKey customChecks h0 w)
        as [h1 w1|e h1 w1] eqn:Hrun
  end; [|left; split; reflexivity].
  destruct (Middleware.api_check api h1 w1) as [h2 w2|e h2 w2] eqn:Hapi;
    [|left; split; reflexivity].
  right. exists used, free, total, h0, w1, h1, w2. cbn [fst json code].
  repeat split; assumption.
Qed.

(** When the overall status is unhealthy.  It is when reading the figures
    throws, whatever the entries, and no check is recorded then; when an
    entry escapes, its [catch] clause throwing in turn (the entry is [null]
    or [undefined] or its name makes no key, or it is a probe that always
    throws [null] or [undefined]); and when the transport check always
    throws [null] or [undefined].  With the figures read, entries that are
    all handled and a transport check that never throws [null] or
    [undefined], the status is not unhealthy. *)
Theorem healthCheck_unhealthy_cases (figures : value * value * value + jsstring)
  (customChecks : list (check W)) (w : W) :
  let answer := fst (healthCheck figures toPropertyKey customChecks w) in
  (forall message,
     figures = inr message ->
     status (json answer) = Unhealthy
     /\ code answer = 503%Z
     /\ error (json answer) = Some message
     /\ checks (json answer) = [])
  /\ (forall c,
      In c customChecks -> escapes c ->
      status (json answer) = Unhealthy /\ code answer = 503%Z)
  /\ (forall ping,
      api = Some ping ->
      (forall w, exists reason w',
         ping w = (Rejected reason, w') /\ nullish reason = true) ->
      status (json answer) = Unhealthy /\ code answer = 503%Z)
  /\ (forall used free total,
      figures = inl (used, free, total) ->
      (forall c, In c customChecks -> handled c) ->
      (forall ping w reason w',
         api = Some ping -> ping w = (Rejected reason, w') -> nullish reason = false) ->
      status (json answer) <> Unhealthy).
Proof.
  intros answer. split; [|split; [|split]].
  - intros message ->. subst answer. repeat split.
  - intros c Hin Hescapes.
    destruct (healthCheck_outcome figures customChecks w)
      as [H|(used & free & total & h & w1 & h' & w2 & _ & Hrun & _)]; [exact H|].
    destruct (run_checks_escapes customChecks c Hin Hescapes h w) as (e & h1 & w3 & H).
    rewrite H in Hrun. discriminate.
  - intros ping Hapi Hping.
    destruct (healthCheck_outcome figures customChecks w)
      as [H|(used & free & total & h & w1 & h' & w2 & _ & _ & Hdone & _)]; [exact H|].
    destruct (api_check_escapes ping h' w1 Hapi Hping) as (e & h1 & w3 & H).
    rewrite H in Hdone. discriminate.
  - intros used free total -> Hchecks Hreason. subst answer.
    unfold Middleware.healthCheck.
    match goal with
    | |- context [Middleware.run_checks toPropertyKey customChecks ?h w] =>
        pose proof (run_checks_status customChecks h w) as Hstatus;
        destruct (run_checks_handled customChecks Hchecks h w) as (h1 & w1 & Hrun)
    end.
    rewrite Hrun in *. cbn [done_with status set_check initial_health] in Hstatus.
    pose proof (api_check_status h1 w1) as Hapi.
    destruct (api_check_handled h1 w1 Hreason) as (h2 & w2 & Hdone).
    rewrite Hdone in *. cbn [done_with fst json] in *.
    destruct Hstatus, Hapi; congruence.
Qed.

(** A probe that always throws makes the answer a 503 and the overall
    status other than healthy, whatever else is checked and whether or not
    the figures are read: the status is unhealthy where reading the figures
    throws, and degraded with the figures read, entries that are all
    handled and a transport check that never throws [null] or
    [undefined]. *)
Theorem healthCheck_throwing_probe_is_not_healthy
  (figures : value * value * value + jsstring)
  (customChecks : list (check W)) (name : jsstring)
  (run : W -> settled value value * W) (w : W) :
  In (Probe name run) customChecks ->
  (forall w, exists reason w', run w = (Rejected reason, w')) ->
  let answer := fst (healthCheck figures toPropertyKey customChecks w) in
  code answer = 503%Z
  /\ status (json answer) <> Healthy
  /\ (forall message, figures = inr message -> status (json answer) = Unhealthy)
  /\ (forall used free total,
      figures = inl (used, free, total) ->
      (forall c, In c customChecks -> handled c) ->
      (forall ping w reason w',
         api = Some ping -> ping w = (Rejected reason, w') -> nullish reason = false) ->
      status (json answer) = Degraded).
Proof.
  intros Hin Hthrows answer.
  assert (Hdegraded : (status (json answer) = Unhealthy /\ code answer = 503%Z)
                      \/ (status (json answer) = Degraded /\ code answer = 503%Z)).
  { destruct (healthCheck_outcome figures customChecks w)
      as [H|(used & free & total & h & w1 & h' & w2 & _ & Hrun & Hdone & _ & Hcode)];
      [now left|]. right.
    pose proof (run_checks_rejecting_probe customChecks name run Hin Hthrows h w) as H1.
    rewrite Hrun in H1. cbn [done_with] in H1.
    pose proof (api_check_status h' w1) as H2.
    rewrite Hdone in H2. cbn [done_with] in H2.
    fold answer in H2, Hcode.
    assert (Hd : status (json answer) = Degraded) by (destruct H2; congruence).
    rewrite Hd in Hcode. auto. }
  split; [|split; [|split]].
  - destruct Hdegraded as [[_ H]|[_ H]]; exact H.
  - destruct Hdegraded as [[H _]|[H _]]; rewrite H; discriminate.
  - intros message ->. reflexivity.
  - intros used free total -> Hchecks Hreason.
    destruct Hdegraded as [[H _]|[H _]]; [|exact H]. exfalso.
    subst answer. revert H. unfold Middleware.healthCheck.
    match goal with
    | |- context [Middleware.run_checks toPropertyKey customChecks ?h w] =>
        pose proof (run_checks_status customChecks h w) as Hstatus;
        destruct (run_checks_handled customChecks Hchecks h w) as (h1 & w1 & Hrun)
    end.
    rewrite Hrun in *. cbn [done_with status set_check initial_health] in Hstatus.
    pose proof (api_check_status h1 w1) as Hapi.
    destruct (api_check_handled h1 w1 Hreason) as (h2 & w2 & Hdone).
    rewrite Hdone in *. cbn [done_with fst json] in *.
    destruct Hstatus, Hapi; congruence.
Qed.

End HealthProperties.

(** C2 at the probe of the README, which reports [status: 'unhealthy'] in
    the object it returns.  The overall status is never degraded: where
    reading the figures throws, as it does in the ES module the file is, the
    answer is a 503 with the status unhealthy and no check recorded; where
    the figures are read, the check is recorded as unhealthy and the overall
    status stays healthy, with a 200. *)
Theorem healthCheck_reported_unhealthy_never_degrades
  (figures : value * value * value + jsstring)
  (toPropertyKey : value -> settled jsstring API.error) :
  let answer :=
    fst (Middleware.healthCheck (V := unit) None None figures toPropertyKey
           [Examples.database_down] tt) in
  Middleware.status (Middleware.json answer) <> Middleware.Degraded
  /\ (forall message,
      figures = inr message ->
      Middleware.code answer = 503%Z
      /\ Middleware.status (Middleware.json answer) = Middleware.Unhealthy
      /\ Middleware.error (Middleware.json answer) = Some message
      /\ Middleware.checks (Middleware.json answer) = [])
  /\ (forall used free total,
      figures = inl (used, free, total) ->
      Middleware.code answer = 200%Z
      /\ Middleware.status (Middleware.json answer) = Middleware.Healthy
      /\ lookup (str "custom") (Middleware.checks (Middleware.json answer))
         = Some (VObj [(str "status", VStr "unhealthy");
                       (str "name", VStr "database")])).
Proof.
  intros answer. subst answer.
  destruct figures as [[[used free] total]|message].
  - split; [discriminate|]. split; [discriminate|].
    intros u f t _. repeat split.
  - split; [discriminate|]. split; [|discriminate].
    intros m [= <-]. repeat split.
Qed.

(** As the file is written, with [require] not defined, the answer to the
    probe of the README is a 503 with the status unhealthy. *)
Lemma healthCheck_as_written :
  let answer :=
    fst (Middleware.healthCheck (V := unit) None None Examples.require_undefined
           Examples.no_key [Examples.database_down] tt) in
  Middleware.code answer = 503%Z
  /\ Middleware.status (Middleware.json answer) = Middleware.Unhealthy
  /\ Middleware.error (Middleware.json answer) = Some (str "require is not defined").
Proof. repeat split. Qed.

Lemma healthCheck_throwing_probe_is_not_healthy_witness :
  let answer :=
    fst (Middleware.healthCheck (V := unit) None None Examples.require_undefined
           Examples.no_key [Examples.database_down; Examples.database_throws] tt) in
  Middleware.code answer = 503%Z
  /\ Middleware.status (Middleware.json answer) <> Middleware.Healthy
  /\ (forall message,
      Examples.require_undefined = inr message ->
      Middleware.status (Middleware.json answer) = Middleware.Unhealthy)
  /\ (forall used free total,
      Examples.require_undefined = inl (used, free, total) ->
      (forall c, In c [Examples.database_down; Examples.database_throws] ->
                 Middleware.handled Examples.no_key c) ->
      (forall (ping : unit -> settled unit value * unit) w reason w',
         None = Some ping -> ping w = (Rejected reason, w') ->
         Middleware.nullish reason = false) ->
      Middleware.status (Middleware.json answer) = Middleware.Degraded).
Proof.
  apply (healthCheck_throwing_probe_is_not_healthy unit unit None None
           Examples.no_key Examples.require_undefined
           [Examples.database_down; Examples.database_throws]
           (str "database")
           (fun w => (Rejected (VObj [(str "message", VStr "ECONNREFUSED")]), w)) tt).
  - right. left. reflexivity.
  - intros w. eexists _, _. reflexivity.
Defined.

(** With the figures read: the same probe throwing instead of reporting
    gives degraded and a 503; a probe that rejects without a reason, or a
    [null] among the entries, gives unhealthy. *)
Lemma healthCheck_thrown_examples (used free total : value) :
  let answer (customChecks : list (Middleware.check unit)) :=
    fst (Middleware.healthCheck (V := unit) None None (inl (used, free, total))
           Examples.no_key customChecks tt) in
  (Middleware.code (answer [Examples.database_throws]) = 503%Z
   /\ Middleware.status (Middleware.json (answer [Examples.database_throws]))
      = Middleware.Degraded
   /\ lookup (str "database")
        (Middleware.checks (Middleware.json (answer [Examples.database_throws])))
      = Some (VObj [(str "status", VStr "unhealthy");
                    (str "error", VStr "ECONNREFUSED")]))
  /\ (Middleware.status (Middleware.json (answer [Examples.cache_rejects]))
      = Middleware.Unhealthy
      /\ Middleware.error (Middleware.json (answer [Examples.cache_rejects]))
         = Some (str "Cannot read properties of undefined (reading 'message')"))
  /\ (Middleware.status
        (Middleware.json (answer [Middleware.NotFunction (VScalar SNull)]))
      = Middleware.Unhealthy
      /\ Middleware.error
           (Middleware.json (answer [Middleware.NotFunction (VScalar SNull)]))
         = Some (str "Cannot read properties of null (reading 'name')")).
Proof. repeat split. Qed.

(** The entry of a result that is an array or a string lists its indices
    before [status]. *)
Lemma check_entry_order :
  Middleware.check_entry (VArr [VNum 7; VNum 8])
  = VObj [(str "0", VNum 7); (str "1", VNum 8); (str "status", VStr "healthy")]
  /\ Middleware.check_entry (VStr "ok")
     = VObj [(str "0", VStr "o"); (str "1", VStr "k"); (str "status", VStr "healthy")]
  /\ Middleware.check_entry
       (VObj [(str "2", VNum 1); (str "name", VStr "db"); (str "status", VStr "up")])
     = VObj [(str "2", VNum 1); (str "status", VStr "up"); (str "name", VStr "db")].
Proof. repeat split. Qed.

(* ================================================================== *)
(** * Properties of api.js: multipart flattening *)
(* ================================================================== *)

Section FlattenProperties.

Import Renest.

(** Induction over values, with the hypothesis on every property value and
    on every item. *)
Lemma value_ind_nested (P : value -> Prop) :
  (forall s, P (VScalar s)) ->
  (forall props, Forall (fun kv => P (snd kv)) props -> P (VObj props)) ->
  (forall items, Forall P items -> P (VArr items)) ->
  forall v, P v.
Proof.
  intros Hs Ho Ha. fix IH 1. intros [s|props|items].
  - apply Hs.
  - apply Ho. induction props as [|kv rest IHrest]; constructor.
    + apply IH.
    + exact IHrest.
  - apply Ha. induction items as [|item rest IHrest]; constructor.
    + apply IH.
    + exact IHrest.
Qed.

(** *** The loops of [fields_of] *)

Lemma flatten_obj_nil (prefix : jsstring) : fields_of (VObj []) prefix = [].
Proof. reflexivity. Qed.

Lemma flatten_obj_cons (k : jsstring) (v : value) (rest : list (jsstring * value))
  (prefix : jsstring) :
  fields_of (VObj ((k, v) :: rest)) prefix
  = member_fields (formKey_of prefix k) v ++ fields_of (VObj rest) prefix.
Proof. destruct v; reflexivity. Qed.

Lemma formKey_of_nonempty (prefix k : jsstring) :
  prefix <> [] -> formKey_of prefix k = prefix ++ segment_text (Key k).
Proof. destruct prefix; [congruence | reflexivity]. Qed.

Lemma indexed_text (formKey : jsstring) (i : nat) :
  indexed formKey i = formKey ++ segment_text (Index i).
Proof. reflexivity. Qed.

Lemma path_text_cons (seg : segment) (p : path) :
  path_text (seg :: p) = segment_text seg ++ path_text p.
Proof. reflexivity. Qed.

Lemma app_nonempty (a b : jsstring) : a <> [] -> a ++ b <> [].
Proof. destruct a; [congruence | discriminate]. Qed.

(** *** The class, unfolded *)

Lemma flat_key_nonempty (k : jsstring) : flat_key k = true -> k <> [].
Proof. destruct k; [discriminate | discriminate]. Qed.

Lemma flat_key_plain (k : jsstring) :
  flat_key k = true -> plain_segment (Key k) = true.
Proof. destruct k; [discriminate | intros H; exact H]. Qed.

(** *** Flattening, by leaves *)

Lemma field_under_segment (formKey : jsstring) (seg : segment) (leaf : path * scalar) :
  field_under formKey (under seg leaf) = field_under (formKey ++ segment_text seg) leaf.
Proof.
  unfold field_under, under. cbn [fst snd].
  now rewrite path_text_cons, app_assoc.
Qed.

Lemma flatten_props_by_leaves (props : list (jsstring * value)) (formKey : jsstring) :
  formKey <> [] ->
  Forall (fun kv => flattens_by_leaves (snd kv)) props ->
  forallb (fun kv => flat_key (fst kv) && nestable_member (snd kv)) props = true ->
  fields_of (VObj props) formKey
  = map (field_under formKey) (leaves (VObj props)).
Proof.
  intros Hk HP. induction HP as [|[k v] rest Hv _ IH]; intros Hclass; [reflexivity|].
  cbn [forallb fst snd] in Hclass.
  apply andb_true_iff in Hclass. destruct Hclass as [Hkv Hrest].
  apply andb_true_iff in Hkv. destruct Hkv as [_ Hmember].
  rewrite flatten_obj_cons, (IH Hrest).
  cbn [leaves flat_map fst snd]. rewrite map_app, map_map. f_equal.
  rewrite formKey_of_nonempty by assumption.
  rewrite (Hv Hmember) by now apply app_nonempty.
  apply map_ext. intros leaf. symmetry. apply field_under_segment.
Qed.

Lemma forEach_by_leaves (items : list value) (formKey : jsstring) :
  formKey <> [] ->
  Forall flattens_by_leaves items ->
  forall index,
    forallb item_class items = true ->
    forEach_fields formKey items index
    = map (field_under formKey)
        (flat_mapi (fun i item => map (under (Index i)) (leaves item)) index items).
Proof.
  intros Hk HP. induction HP as [|item rest Hitem _ IH]; intros index Hclass;
    [reflexivity|].
  cbn [forallb] in Hclass. apply andb_true_iff in Hclass.
  destruct Hclass as [Hc Hrest].
  cbn [forEach_fields flat_mapi]. rewrite map_app, map_map, (IH _ Hrest). f_equal.
  destruct item as [sc|props|items'].
  - destruct sc; try discriminate Hc; cbn [leaves map];
      rewrite field_under_segment, indexed_text;
      unfold field_under; cbn [fst snd path_text map concat];
      now rewrite app_nil_r.
  - cbn [item_class] in Hc.
    change (fields_of (VObj props) (indexed formKey index))
      with (member_fields (indexed formKey index) (VObj props)).
    rewrite (Hitem Hc) by (rewrite indexed_text; now apply app_nonempty).
    apply map_ext. intros leaf. symmetry. apply field_under_segment.
  - discriminate Hc.
Qed.

Lemma nestable_member_obj (props : list (jsstring * value)) :
  nestable_member (VObj props) = true ->
  props <> []
  /\ distinct_keys props = true
  /\ forallb (fun kv => flat_key (fst kv) && nestable_member (snd kv)) props = true.
Proof.
  cbn [nestable_member]. intros H.
  apply andb_true_iff in H. destruct H as [H Hall].
  apply andb_true_iff in H. destruct H as [Hne Hd].
  repeat split; auto. destruct props; [discriminate | discriminate].
Qed.

Lemma nestable_member_arr (items : list value) :
  nestable_member (VArr items) = true ->
  items <> [] /\ forallb item_class items = true.
Proof.
  cbn [nestable_member]. intros H.
  apply andb_true_iff in H. destruct H as [Hne Hall].
  split; [destruct items; [discriminate | discriminate] | exact Hall].
Qed.

Lemma member_fields_by_leaves (v : value) : flattens_by_leaves v.
Proof.
  induction v as [s|props IH|items IH] using value_ind_nested;
    intros Hclass formKey Hk.
  - unfold field_under. cbn. now rewrite app_nil_r.
  - apply nestable_member_obj in Hclass. destruct Hclass as (_ & _ & Hall).
    now apply flatten_props_by_leaves.
  - apply nestable_member_arr in Hclass. destruct Hclass as (_ & Hall).
    now apply forEach_by_leaves.
Qed.

Lemma flatten_by_leaves (props : list (jsstring * value)) :
  forallb (fun kv => flat_key (fst kv) && nestable_member (snd kv)) props = true ->
  fields_of (VObj props) [] = map field_of (leaves (VObj props)).
Proof.
  induction props as [|[k v] rest IH]; intros Hclass; [reflexivity|].
  cbn [forallb fst snd] in Hclass.
  apply andb_true_iff in Hclass. destruct Hclass as [Hkv Hrest].
  apply andb_true_iff in Hkv. destruct Hkv as [Hflat Hmember].
  rewrite flatten_obj_cons, (IH Hrest).
  cbn [leaves flat_map fst snd]. rewrite map_app, map_map. f_equal.
  cbn [formKey_of].
  rewrite (member_fields_by_leaves v Hmember) by now apply flat_key_nonempty.
  apply map_ext. intros leaf. reflexivity.
Qed.

(** *** Reading a form key back *)

Lemma unstr_str (s : string) : unstr (str s) = s.
Proof.
  unfold unstr, str. rewrite map_map.
  rewrite (map_ext _ (fun a => a)) by apply ascii_N_embedding.
  rewrite map_id. apply string_of_list_ascii_of_string.
Qed.

Lemma index_of_dec (n : nat) : index_of (dec n) = n.
Proof.
  unfold index_of, dec. rewrite unstr_str, NilEmpty.usu.
  apply DecimalNat.Unsigned.of_to.
Qed.

Lemma digits_not_closing (d : Decimal.uint) :
  forallb not_closing (str (NilEmpty.string_of_uint d)) = true.
Proof. induction d; cbn; auto. Qed.

Lemma dec_not_closing (n : nat) : forallb not_closing (dec n) = true.
Proof. apply digits_not_closing. Qed.

(** In a property name: plain characters are accumulated. *)
Lemma parse_key_chars (k : jsstring) :
  forallb plain_char k = true ->
  forall acc rest,
    parse_from InKey acc (k ++ rest) = parse_from InKey (acc ++ k) rest.
Proof.
  induction k as [|c k IH]; intros Hk acc rest.
  - now rewrite app_nil_r.
  - cbn [forallb] in Hk. apply andb_true_iff in Hk. destruct Hk as [Hc Hk].
    cbn [app parse_from]. unfold plain_char in Hc.
    destruct (c =? 46)%N; [discriminate|].
    destruct (c =? 91)%N; [discriminate|].
    rewrite (IH Hk). now rewrite <- app_assoc.
Qed.

(** Between brackets: the digits up to the closing bracket are the index. *)
Lemma parse_index_chars (digits : jsstring) :
  forallb not_closing digits = true ->
  forall acc rest,
    parse_from InIndex acc (digits ++ 93%N :: rest)
    = Index (index_of (acc ++ digits)) :: parse_from AfterIndex [] rest.
Proof.
  induction digits as [|c digits IH]; intros Hd acc rest.
  - cbn. now rewrite app_nil_r.
  - cbn [forallb] in Hd. apply andb_true_iff in Hd. destruct Hd as [Hc Hd].
    cbn [app parse_from]. unfold not_closing in Hc.
    destruct (c =? 93)%N; [discriminate|].
    rewrite (IH Hd). now rewrite <- app_assoc.
Qed.

Lemma parse_path_text (p : path) :
  forallb plain_segment p = true ->
  (forall acc, parse_from InKey acc (path_text p) = Key acc :: p)
  /\ parse_from AfterIndex [] (path_text p) = p.
Proof.
  induction p as [|seg p IH]; intros Hp; [split; reflexivity|].
  cbn [forallb] in Hp. apply andb_true_iff in Hp. destruct Hp as [Hseg Hp].
  destruct (IH Hp) as [IHkey IHafter].
  rewrite path_text_cons.
  destruct seg as [k|i]; cbn [segment_text plain_segment] in *.
  - change (str "." ++ k) with (46%N :: k). cbn [app parse_from N.eqb Pos.eqb].
    rewrite (parse_key_chars k Hseg), IHkey. split; reflexivity.
  - change ((str "[" ++ dec i ++ str "]") ++ path_text p)
      with (91%N :: ((dec i ++ [93%N]) ++ path_text p)).
    rewrite <- app_assoc. cbn [app parse_from N.eqb Pos.eqb].
    rewrite (parse_index_chars (dec i) (dec_not_closing i)), IHafter.
    cbn [app]. rewrite index_of_dec. split; reflexivity.
Qed.

Lemma parse_key_text (p : path) : top_path p = true -> parse (key_text p) = p.
Proof.
  destruct p as [|[k|i] rest]; try discriminate.
  cbn [top_path key_text]. intros H.
  apply andb_true_iff in H. destruct H as [Hk Hrest].
  unfold parse. rewrite (parse_key_chars k Hk).
  now rewrite (proj1 (parse_path_text rest Hrest)).
Qed.

(** *** The paths of the leaves *)

Lemma plain_under (seg : segment) (ls : list (path * scalar)) :
  plain_segment seg = true ->
  Forall plain_path ls -> Forall plain_path (map (under seg) ls).
Proof.
  intros Hseg Hls. apply Forall_map.
  eapply Forall_impl; [|exact Hls].
  intros leaf Hleaf. unfold plain_path, under in *. cbn [fst forallb].
  now rewrite Hseg, Hleaf.
Qed.

Lemma leaves_plain (v : value) :
  nestable_member v = true -> Forall plain_path (leaves v).
Proof.
  induction v as [s|props IH|items IH] using value_ind_nested; intros Hclass.
  - repeat constructor.
  - apply nestable_member_obj in Hclass. destruct Hclass as (_ & _ & Hall).
    cbn [leaves]. induction IH as [|[k v] rest Hv _ IHrest]; [constructor|].
    cbn [forallb fst snd] in Hall.
    apply andb_true_iff in Hall. destruct Hall as [Hkv Hrest].
    apply andb_true_iff in Hkv. destruct Hkv as [Hflat Hmember].
    cbn [flat_map fst snd]. apply Forall_app. split; [|now apply IHrest].
    apply plain_under; [now apply flat_key_plain | now apply Hv].
  - apply nestable_member_arr in Hclass. destruct Hclass as (_ & Hall).
    cbn [leaves]. generalize 0 as index.
    induction IH as [|item rest Hitem _ IHrest]; intros index; [constructor|].
    cbn [forallb] in Hall.
    apply andb_true_iff in Hall. destruct Hall as [Hc Hrest].
    cbn [flat_mapi]. apply Forall_app. split; [|now apply IHrest].
    apply plain_under; [reflexivity|]. apply Hitem.
    destruct item as [[]| |]; try discriminate Hc; try reflexivity; exact Hc.
Qed.

Lemma leaves_top_paths (props : list (jsstring * value)) :
  forallb (fun kv => flat_key (fst kv) && nestable_member (snd kv)) props = true ->
  Forall (fun leaf => top_path (fst leaf) = true) (leaves (VObj props)).
Proof.
  induction props as [|[k v] rest IH]; intros Hall; [constructor|].
  cbn [forallb fst snd] in Hall.
  apply andb_true_iff in Hall. destruct Hall as [Hkv Hrest].
  apply andb_true_iff in Hkv. destruct Hkv as [Hflat Hmember].
  cbn [leaves flat_map fst snd]. apply Forall_app. split; [|now apply IH].
  apply Forall_map. eapply Forall_impl; [|exact (leaves_plain v Hmember)].
  intros leaf Hleaf. unfold under, plain_path in *. cbn [fst top_path].
  apply flat_key_plain in Hflat. cbn [plain_segment] in Hflat.
  change (forallb plain_char k) with
    (forallb (fun c => negb ((c =? 46)%N || (c =? 91)%N)) k).
  now rewrite Hflat, Hleaf.
Qed.

Lemma leaves_nonempty (v : value) : nestable_member v = true -> leaves v <> [].
Proof.
  induction v as [s|props IH|items IH] using value_ind_nested; intros Hclass.
  - discriminate.
  - apply nestable_member_obj in Hclass. destruct Hclass as (Hne & _ & Hall).
    destruct props as [|[k v] rest]; [congruence|].
    cbn [forallb fst snd] in Hall.
    apply andb_true_iff in Hall. destruct Hall as [Hkv _].
    apply andb_true_iff in Hkv. destruct Hkv as [_ Hmember].
    inversion IH as [|? ? Hv _]; subst. cbn [snd] in Hv.
    cbn [leaves flat_map fst snd].
    destruct (leaves v) as [|leaf ls]; [now apply Hv in Hmember | discriminate].
  - apply nestable_member_arr in Hclass. destruct Hclass as (Hne & Hall).
    destruct items as [|item rest]; [congruence|].
    cbn [forallb] in Hall. apply andb_true_iff in Hall. destruct Hall as [Hc _].
    inversion IH as [|? ? Hitem _]; subst.
    cbn [leaves flat_mapi].
    assert (Hm : nestable_member item = true)
      by (destruct item as [[]| |]; try discriminate Hc; try reflexivity; exact Hc).
    destruct (leaves item) as [|leaf ls]; [now apply Hitem in Hm | discriminate].
Qed.

(** *** Setting the leaves rebuilds the tree *)

Lemma set_key_compose (k : jsstring) (f g : value -> value)
  (props : list (jsstring * value)) :
  set_key k f (set_key k g props) = set_key k (fun t => f (g t)) props.
Proof.
  induction props as [|[k' v] rest IH]; cbn [set_key].
  - now rewrite jsstring_eqb_refl.
  - destruct (jsstring_eqb k k') eqn:Hk; cbn [set_key]; rewrite Hk;
      [reflexivity | now rewrite IH].
Qed.

Lemma set_key_absent (k : jsstring) (f : value -> value)
  (props : list (jsstring * value)) :
  existsb (fun kv => jsstring_eqb k (fst kv)) props = false ->
  set_key k f props = props ++ [(k, f hole)].
Proof.
  induction props as [|[k' v] rest IH]; intros H; [reflexivity|].
  cbn [existsb fst] in H. apply orb_false_iff in H. destruct H as [Hk Hrest].
  cbn [set_key app]. rewrite Hk. now rewrite IH.
Qed.

Lemma set_index_compose (f g : value -> value) (items : list value) :
  forall i, i <= length items ->
    set_index i f (set_index i g items) = set_index i (fun t => f (g t)) items.
Proof.
  induction items as [|v rest IH]; intros i Hi.
  - cbn [length] in Hi. replace i with 0 by lia. reflexivity.
  - destruct i as [|i]; [reflexivity|].
    cbn [set_index]. f_equal. apply IH. cbn [length] in Hi. lia.
Qed.

Lemma set_index_absent (f : value -> value) (items : list value) :
  set_index (length items) f items = items ++ [f hole].
Proof.
  induction items as [|v rest IH]; [reflexivity|].
  cbn [length set_index app]. now rewrite IH.
Qed.

Lemma set_index_length (f : value -> value) (items : list value) (i : nat) :
  i <= length items -> i <= length (set_index i f items).
Proof.
  revert i. induction items as [|v rest IH]; intros i Hi.
  - cbn in *. lia.
  - destruct i as [|i]; cbn [set_index length] in *; [lia|].
    apply le_n_S, IH. lia.
Qed.

(** The leaves under one property go to that property. *)
Lemma set_leaves_under_key (k : jsstring) (ls : list (path * scalar)) :
  forall (g : value -> value) (props : list (jsstring * value)),
    fold_left set_leaf (map (under (Key k)) ls) (VObj (set_key k g props))
    = VObj (set_key k (fun t => fold_left set_leaf ls (g t)) props).
Proof.
  induction ls as [|leaf ls IH]; intros g props; [reflexivity|].
  cbn [map fold_left]. unfold set_leaf at 2. cbn [under fst snd insert props_of].
  rewrite set_key_compose. now rewrite IH.
Qed.

Lemma set_leaves_under_new_key (k : jsstring) (ls : list (path * scalar)) (t : value) :
  ls <> [] ->
  existsb (fun kv => jsstring_eqb k (fst kv)) (props_of t) = false ->
  fold_left set_leaf (map (under (Key k)) ls) t
  = VObj (props_of t ++ [(k, fold_left set_leaf ls hole)]).
Proof.
  intros Hne Hk. destruct ls as [|leaf ls]; [congruence|].
  cbn [map fold_left]. unfold set_leaf at 2. cbn [under fst snd insert].
  rewrite set_leaves_under_key. now rewrite set_key_absent.
Qed.

(** The leaves under one index go to that item. *)
Lemma set_leaves_under_index (i : nat) (ls : list (path * scalar)) :
  forall (g : value -> value) (items : list value),
    i <= length items ->
    fold_left set_leaf (map (under (Index i)) ls) (VArr (set_index i g items))
    = VArr (set_index i (fun t => fold_left set_leaf ls (g t)) items).
Proof.
  induction ls as [|leaf ls IH]; intros g items Hi; [reflexivity|].
  cbn [map fold_left]. unfold set_leaf at 2. cbn [under fst snd insert items_of].
  rewrite set_index_compose by assumption. now rewrite IH.
Qed.

Lemma set_leaves_under_new_index (ls : list (path * scalar)) (t : value) :
  ls <> [] ->
  fold_left set_leaf (map (under (Index (length (items_of t)))) ls) t
  = VArr (items_of t ++ [fold_left set_leaf ls hole]).
Proof.
  intros Hne. destruct ls as [|leaf ls]; [congruence|].
  cbn [map fold_left]. unfold set_leaf at 2. cbn [under fst snd insert].
  rewrite set_leaves_under_index by reflexivity. now rewrite set_index_absent.
Qed.

Lemma distinct_keys_app_absent (a b : list (jsstring * value)) (k : jsstring) (v : value) :
  distinct_keys (a ++ (k, v) :: b) = true ->
  existsb (fun kv => jsstring_eqb k (fst kv)) a = false.
Proof.
  induction a as [|[k' v'] a IH]; intros H; [reflexivity|].
  cbn [app distinct_keys] in H. apply andb_true_iff in H. destruct H as [Hk' Hrest].
  apply negb_true_iff in Hk'. rewrite existsb_app in Hk'.
  apply orb_false_iff in Hk'. destruct Hk' as [_ Hk'].
  cbn [existsb fst] in Hk'. apply orb_false_iff in Hk'. destruct Hk' as [Hk' _].
  cbn [existsb fst]. rewrite jsstring_eqb_sym, Hk'. now apply IH.
Qed.

Lemma item_class_member (item : value) :
  item_class item = true -> nestable_member item = true.
Proof. destruct item as [[]| |]; try discriminate; auto. Qed.

Lemma rebuild_props (props : list (jsstring * value)) :
  Forall (fun kv => rebuilds (snd kv)) props ->
  forallb (fun kv => flat_key (fst kv) && nestable_member (snd kv)) props = true ->
  forall t,
    distinct_keys (props_of t ++ props) = true ->
    t = VObj (props_of t) \/ props <> [] ->
    fold_left set_leaf (leaves (VObj props)) t = VObj (props_of t ++ props).
Proof.
  intros HP. induction HP as [|[k v] rest Hv _ IH]; intros Hall t Hd Ht.
  - destruct Ht as [Ht|Ht]; [|congruence]. now rewrite app_nil_r.
  - cbn [forallb fst snd] in Hall.
    apply andb_true_iff in Hall. destruct Hall as [Hkv Hrest].
    apply andb_true_iff in Hkv. destruct Hkv as [_ Hmember].
    cbn [leaves flat_map fst snd]. rewrite fold_left_app.
    rewrite set_leaves_under_new_key;
      [|now apply leaves_nonempty | now apply (distinct_keys_app_absent _ rest k v)].
    unfold rebuilds in Hv. cbn [snd] in Hv. rewrite (Hv Hmember).
    change (flat_map (fun kv => map (under (Key (fst kv))) (leaves (snd kv))) rest)
      with (leaves (VObj rest)).
    rewrite (IH Hrest); cbn [props_of].
    + now rewrite <- app_assoc.
    + now rewrite <- app_assoc.
    + now left.
Qed.

Lemma rebuild_items (items : list value) :
  Forall rebuilds items ->
  forallb item_class items = true ->
  forall t,
    t = VArr (items_of t) \/ items <> [] ->
    fold_left set_leaf
      (flat_mapi (fun i item => map (under (Index i)) (leaves item))
         (length (items_of t)) items) t
    = VArr (items_of t ++ items).
Proof.
  intros HP. induction HP as [|item rest Hitem _ IH]; intros Hall t Ht.
  - destruct Ht as [Ht|Ht]; [|congruence]. now rewrite app_nil_r.
  - cbn [forallb] in Hall. apply andb_true_iff in Hall. destruct Hall as [Hc Hrest].
    apply item_class_member in Hc.
    cbn [flat_mapi]. rewrite fold_left_app.
    rewrite set_leaves_under_new_index by now apply leaves_nonempty.
    rewrite (Hitem Hc).
    specialize (IH Hrest (VArr (items_of t ++ [item])) (or_introl eq_refl)).
    cbn [items_of] in IH. rewrite length_app, Nat.add_1_r in IH. cbn [length] in IH.
    rewrite IH. now rewrite <- app_assoc.
Qed.

Lemma rebuild_member (v : value) : rebuilds v.
Proof.
  induction v as [s|props IH|items IH] using value_ind_nested; intros Hclass.
  - reflexivity.
  - apply nestable_member_obj in Hclass. destruct Hclass as (Hne & Hd & Hall).
    now apply (rebuild_props props IH Hall hole); [exact Hd | right].
  - apply nestable_member_arr in Hclass. destruct Hclass as (Hne & Hall).
    cbn [leaves].
    now apply (rebuild_items items IH Hall hole); right.
Qed.

(** Reading the keys back gives the paths of the leaves. *)
Lemma renest_by_leaves (ls : list (path * scalar)) :
  Forall (fun leaf => top_path (fst leaf) = true) ls ->
  forall t,
    fold_left (fun t field => insert (parse (fst field)) (snd field) t)
      (map field_of ls) t
    = fold_left set_leaf ls t.
Proof.
  intros HP. induction HP as [|leaf ls Hleaf _ IH]; intros t; [reflexivity|].
  cbn [map fold_left]. unfold field_of at 2. cbn [fst snd].
  rewrite (parse_key_text _ Hleaf). apply IH.
Qed.

Lemma renest_flatten (props : list (jsstring * value)) :
  nestable (VObj props) = true ->
  renest (fields_of (VObj props) []) = VObj props.
Proof.
  cbn [nestable]. intros H. apply andb_true_iff in H. destruct H as [Hd Hall].
  rewrite (flatten_by_leaves props Hall). unfold renest.
  rewrite (renest_by_leaves _ (leaves_top_paths props Hall)).
  apply (rebuild_props props); auto.
  apply Forall_forall. intros kv _. apply rebuild_member.
Qed.

(** *** [flattenAndAddToForm] and the fields *)

Lemma flatten_obj_loop (props : list (jsstring * value)) (prefix : jsstring) :
  flattenAndAddToForm (VObj props) prefix = each_property props prefix props.
Proof.
  cbn [flattenAndAddToForm].
  match goal with
  | |- ?each props = _ =>
      enough (H : forall rest, each rest = each_property props prefix rest)
        by apply H
  end.
  induction rest as [|[key value] rest IH]; [reflexivity|].
  cbn [each_property]. rewrite <- IH. destruct value; reflexivity.
Qed.

Lemma flatten_arr_loop (elems : list value) (prefix : jsstring) :
  flattenAndAddToForm (VArr elems) prefix = each_index prefix elems 0.
Proof.
  cbn [flattenAndAddToForm].
  match goal with
  | |- ?each elems 0 = _ =>
      enough (H : forall index, each elems index = each_index prefix elems index)
        by apply H
  end.
  induction elems as [|value rest IH]; intros index; [reflexivity|].
  cbn [each_index]. rewrite <- IH. destruct value; reflexivity.
Qed.

Lemma fields_arr_loop (elems : list value) (prefix : jsstring) :
  fields_of (VArr elems) prefix = index_fields prefix elems 0.
Proof.
  cbn [fields_of].
  match goal with
  | |- ?each elems 0 = _ =>
      enough (H : forall index, each elems index = index_fields prefix elems index)
        by apply H
  end.
  induction elems as [|value rest IH]; intros index; [reflexivity|].
  cbn [index_fields]. rewrite <- IH. destruct value; reflexivity.
Qed.

Lemma inherits_obj_cons (k : jsstring) (v : value) (rest : list (jsstring * value)) :
  Shape.inherits_hasOwnProperty (VObj ((k, v) :: rest)) = true ->
  Shape.inherits_hasOwnProperty v = true.
Proof.
  cbn [Shape.inherits_hasOwnProperty]. intros H.
  apply andb_true_iff in H. destruct H as [_ H].
  apply andb_true_iff in H. now destruct H.
Qed.

Lemma lookup_member (k : jsstring) (v : value) (props : list (jsstring * value)) :
  In (k, v) props -> exists x, lookup k props = Some x.
Proof.
  induction props as [|[k' v'] rest IH]; intros Hin; [contradiction|].
  cbn [lookup]. destruct (jsstring_eqb k k') eqn:Hk; [now exists v'|].
  destruct Hin as [Heq|Hin]; [|now apply IH].
  injection Heq as -> ->. now rewrite jsstring_eqb_refl in Hk.
Qed.

Lemma inherits_obj (props : list (jsstring * value)) :
  Shape.inherits_hasOwnProperty (VObj props)
  = Shape.inherits_method props
    && forallb (fun kv => Shape.inherits_hasOwnProperty (snd kv)) props.
Proof.
  cbn [Shape.inherits_hasOwnProperty]. f_equal.
  induction props as [|[k v] rest IH]; [reflexivity|].
  cbn [forallb snd]. now rewrite IH.
Qed.

Lemma inherits_arr (items : list value) :
  Shape.inherits_hasOwnProperty (VArr items)
  = forallb Shape.inherits_hasOwnProperty items.
Proof.
  cbn [Shape.inherits_hasOwnProperty].
  induction items as [|v rest IH]; [reflexivity|].
  cbn [forallb]. now rewrite IH.
Qed.

Lemma and_then_both (a b : bool) (x y : list (jsstring * scalar)) :
  and_then (if a then Fulfilled x else Rejected not_a_function)
    (if b then Fulfilled y else Rejected not_a_function)
  = if a && b then Fulfilled (x ++ y) else Rejected not_a_function.
Proof. destruct a, b; reflexivity. Qed.

Lemma forEach_appends_fields (items : list value) :
  Forall Shape.flattens items ->
  forall formKey index,
    forEach_appends formKey items index
    = if forallb Shape.inherits_hasOwnProperty items
      then Fulfilled (forEach_fields formKey items index)
      else Rejected not_a_function.
Proof.
  intros HP. induction HP as [|item rest [_ Hitem] _ IH]; intros formKey index;
    [reflexivity|].
  cbn [forEach_appends forEach_fields forallb]. rewrite IH.
  rewrite <- and_then_both. f_equal.
  destruct item as [s|props|elems]; [destruct s; try reflexivity|..]; apply Hitem.
Qed.

Lemma each_index_fields (elems : list value) :
  Forall Shape.flattens elems ->
  forall prefix index,
    each_index prefix elems index
    = if forallb Shape.inherits_hasOwnProperty elems
      then Fulfilled (index_fields prefix elems index)
      else Rejected not_a_function.
Proof.
  intros HP. induction HP as [|value rest [Hvalue _] _ IH]; intros prefix index;
    [reflexivity|].
  cbn [each_index index_fields forallb]. rewrite IH, Hvalue.
  apply and_then_both.
Qed.

Lemma each_property_fields (props : list (jsstring * value)) (prefix : jsstring) :
  Shape.inherits_method props = true ->
  forall rest,
    Forall (fun kv => Shape.flattens (snd kv)) rest ->
    (forall k v, In (k, v) rest -> In (k, v) props) ->
    each_property props prefix rest
    = if forallb (fun kv => Shape.inherits_hasOwnProperty (snd kv)) rest
      then Fulfilled (fields_of (VObj rest) prefix)
      else Rejected not_a_function.
Proof.
  intros Hmethod rest HP.
  induction HP as [|[k v] rest [Hv _] _ IH]; intros Hin; [reflexivity|].
  cbn [each_property forallb snd]. rewrite flatten_obj_cons.
  rewrite IH by (intros k' v' H; apply Hin; now right).
  rewrite <- and_then_both. f_equal.
  unfold hasOwnProperty. unfold Shape.inherits_method in Hmethod.
  destruct (lookup (str "hasOwnProperty") props); [discriminate|].
  destruct (lookup_member k v props (Hin k v (or_introl eq_refl))) as [x ->].
  apply Hv.
Qed.

Lemma each_property_shadowed (props : list (jsstring * value)) (prefix : jsstring) :
  Shape.inherits_method props = false ->
  each_property props prefix props = Rejected not_a_function.
Proof.
  unfold Shape.inherits_method. intros Hmethod.
  destruct props as [|[k v] rest]; [discriminate|].
  cbn [each_property]. unfold hasOwnProperty.
  now destruct (lookup (str "hasOwnProperty") ((k, v) :: rest)).
Qed.

(** [flattenAndAddToForm] returns the fields of a value in which every
    object inherits [hasOwnProperty], and throws on any other. *)
Lemma flatten_fields (v : value) : Shape.flattens v.
Proof.
  induction v as [s|props IH|items IH] using value_ind_nested.
  - split; [reflexivity|]. destruct s; try exact I; reflexivity.
  - assert (Hobj : forall prefix,
               flattenAndAddToForm (VObj props) prefix
               = if Shape.inherits_hasOwnProperty (VObj props)
                 then Fulfilled (fields_of (VObj props) prefix)
                 else Rejected not_a_function).
    { intros prefix. rewrite flatten_obj_loop, inherits_obj.
      destruct (Shape.inherits_method props) eqn:Hmethod.
      - now apply each_property_fields.
      - now apply each_property_shadowed. }
    split; [intros formKey; apply Hobj | exact Hobj].
  - split.
    + intros formKey. cbn [member_appends member_fields].
      rewrite inherits_arr. now apply forEach_appends_fields.
    + intros prefix. rewrite flatten_arr_loop, fields_arr_loop, inherits_arr.
      now apply each_index_fields.
Qed.

Lemma flatten_inherited (v : value) (prefix : jsstring) :
  Shape.inherits_hasOwnProperty v = true ->
  match v with VScalar (SStr _) => False | _ => True end ->
  flattenAndAddToForm v prefix = Fulfilled (fields_of v prefix).
Proof.
  intros Hv Hstr. destruct (flatten_fields v) as [_ H].
  destruct v as [s|props|items]; [destruct s; try contradiction|..];
    now rewrite H, Hv.
Qed.

Lemma flatten_shadowed (v : value) (prefix : jsstring) :
  Shape.inherits_hasOwnProperty v = false ->
  flattenAndAddToForm v prefix = Rejected not_a_function.
Proof.
  intros Hv. destruct (flatten_fields v) as [_ H].
  destruct v as [s|props|items]; [discriminate|..]; now rewrite H, Hv.
Qed.

(** C6, as the code has it.  Flattening [{a:{b:1}, c:[1,2]}] yields exactly
    the fields [a.b=1], [c[0]=1], [c[1]=2].  Take an object whose keys are
    distinct, not empty and free of [.] and [[], whose nested objects and
    arrays are not empty, and whose arrays hold scalars other than [null]
    and objects.  If no object in it has a property of its own named
    [hasOwnProperty], flattening returns and re-nesting the flattened
    fields by key path gives the object back; if one has, flattening throws
    a [TypeError] and there are no fields. *)
Theorem flattenAndAddToForm_round_trip (obj : value) :
  nestable obj = true ->
  flattenAndAddToForm Examples.nested_record []
  = Fulfilled [(str "a.b", SNum 1); (str "c[0]", SNum 1); (str "c[1]", SNum 2)]
  /\ (Shape.inherits_hasOwnProperty obj = true ->
      exists fields,
        flattenAndAddToForm obj [] = Fulfilled fields /\ renest fields = obj)
  /\ (Shape.inherits_hasOwnProperty obj = false ->
      flattenAndAddToForm obj [] = Rejected not_a_function).
Proof.
  intros H. split; [reflexivity|].
  destruct obj as [s|props|items]; try discriminate H.
  split.
  - intros Hinherits. exists (fields_of (VObj props) []).
    split; [now apply flatten_inherited | now apply renest_flatten].
  - intros Hshadowed. now apply flatten_shadowed.
Qed.

End FlattenProperties.

Lemma flattenAndAddToForm_round_trip_witness :
  flattenAndAddToForm Examples.nested_record []
  = Fulfilled [(str "a.b", SNum 1); (str "c[0]", SNum 1); (str "c[1]", SNum 2)]
  /\ (Shape.inherits_hasOwnProperty Examples.nested_record = true ->
      exists fields,
        flattenAndAddToForm Examples.nested_record [] = Fulfilled fields
        /\ Renest.renest fields = Examples.nested_record)
  /\ (Shape.inherits_hasOwnProperty Examples.nested_record = false ->
      flattenAndAddToForm Examples.nested_record [] = Rejected not_a_function).
Proof.
  apply (flattenAndAddToForm_round_trip Examples.nested_record). reflexivity.
Defined.

(** C6, as stated, fails: an object with an empty nested object flattens to
    the same fields as the empty object, so no re-nesting of the fields can
    give back both. *)
Lemma flatten_has_no_inverse :
  ~ exists renest : list (jsstring * scalar) -> value,
      forall props fields,
        flattenAndAddToForm (VObj props) [] = Fulfilled fields ->
        renest fields = VObj props.
Proof.
  intros [renest H].
  pose proof (H [(str "a", VObj [])] [] eq_refl) as H1.
  pose proof (H [] [] eq_refl) as H2.
  rewrite H2 in H1. discriminate H1.
Qed.

(** An object with a property named [hasOwnProperty] is in the class of the
    keys, and flattening it throws at its first key. *)
Lemma flatten_shadowed_method_throws :
  Renest.nestable (VObj [(str "hasOwnProperty", VNum 1)]) = true
  /\ flattenAndAddToForm (VObj [(str "hasOwnProperty", VNum 1)]) []
     = Rejected (JsError (str "obj.hasOwnProperty is not a function"))
  /\ flattenAndAddToForm
       (VObj [(str "a", VNum 1);
              (str "b", VArr [VObj [(str "hasOwnProperty", VScalar SNull)]])]) []
     = Rejected (JsError (str "obj.hasOwnProperty is not a function")).
Proof. repeat split. Qed.

(** What else flattening identifies: an empty array, a [null] item, an
    array inside an array, a [.] or a [[] in a key, an empty key. *)
Lemma flatten_collisions :
  flattenAndAddToForm (VObj [(str "a", VArr [])]) [] = flattenAndAddToForm (VObj []) []
  /\ flattenAndAddToForm (VObj [(str "a", VArr [VScalar SNull])]) []
     = flattenAndAddToForm (VObj []) []
  /\ flattenAndAddToForm (VObj [(str "a", VArr [VArr [VNum 1]])]) []
     = flattenAndAddToForm (VObj [(str "a", VArr [VObj [(str "0", VNum 1)]])]) []
  /\ flattenAndAddToForm (VObj [(str "a.b", VNum 1)]) []
     = flattenAndAddToForm (VObj [(str "a", VObj [(str "b", VNum 1)])]) []
  /\ flattenAndAddToForm (VObj [(str "c[0]", VNum 1)]) []
     = flattenAndAddToForm (VObj [(str "c", VArr [VNum 1])]) []
  /\ flattenAndAddToForm (VObj [([], VObj [(str "a", VNum 1)])]) []
     = flattenAndAddToForm (VObj [(str "a", VNum 1)]) [].
Proof. repeat split. Qed.

(* ================================================================== *)
(** * More on api.js: a retry that succeeds, a ceiling below one *)
(* ================================================================== *)

Section RetryOutcomes.

Variables W V E : Type.
Variable requestFn : request_fn W V E.

Lemma retry_loop_first_success (retries delay : Z) (k : nat) :
  forall (attempt : Z) (w : W) (tr : list retry_event) (v : V),
    Spec.first_success requestFn k w v ->
    (attempt + Z.of_nat k <= retries)%Z ->
    retry_loop retries delay requestFn attempt (w, tr)
    = (Fulfilled (Some v),
       (Spec.nth_world requestFn (S k) w,
        tr ++ flat_map (Spec.failed_round retries delay) (Spec.zseq attempt k)
           ++ [Attempt (attempt + Z.of_nat k)])).
Proof.
  induction k as [|k IH]; intros attempt w tr v [Hfail Hok] Hk;
    rewrite retry_loop_unfold;
    (replace (attempt <=? retries)%Z with true by (symmetry; apply Z.leb_le; lia)).
  - cbn [Spec.nth_world] in *.
    destruct (requestFn w) as [[v'|e] w']; simpl in Hok; [|discriminate].
    injection Hok as ->. cbn [Spec.zseq flat_map app snd].
    now rewrite Z.add_0_r.
  - destruct (Hfail 0 (Nat.lt_0_succ _)) as [e0 He0].
    cbn [Spec.nth_world] in He0, Hok |- *.
    destruct (requestFn w) as [[v'|e] w'] eqn:Hw; simpl in He0; [discriminate|].
    replace (attempt =? retries)%Z with false by (symmetry; apply Z.eqb_neq; lia).
    cbn [snd] in Hok |- *.
    assert (Hnext : Spec.first_success requestFn k w' v).
    { split; [|exact Hok].
      intros j Hj. specialize (Hfail (S j) (proj1 (Nat.succ_lt_mono _ _) Hj)).
      cbn [Spec.nth_world] in Hfail. now rewrite Hw in Hfail. }
    assert (Hle : (attempt + 1 + Z.of_nat k <= retries)%Z) by lia.
    rewrite (IH (attempt + 1)%Z w' (tr ++ Spec.failed_round retries delay attempt)
               v Hnext Hle).
    cbn [Spec.zseq flat_map]. rewrite <- !app_assoc.
    replace (attempt + Z.of_nat (S k))%Z with (attempt + 1 + Z.of_nat k)%Z by lia.
    reflexivity.
Qed.

(** When the request function fails [k] times and then succeeds, and the
    ceiling allows a [k + 1]-th attempt, [retryRequest] fulfils with the
    first successful response after exactly [k + 1] calls: the failed
    attempts are each followed by a warning and a sleep of [D * attempt],
    and nothing follows the successful attempt. *)
Theorem retryRequest_stops_at_first_success (config : Config.t)
  (maxRetries : option Z) (w : W) (k : nat) (v : V) :
  let N := or_num maxRetries (Config.retryAttempts config) in
  let D := Config.retryDelay config in
  Spec.first_success requestFn k w v ->
  (Z.of_nat k < N)%Z ->
  let run := retryRequest config requestFn maxRetries w in
  run = (Fulfilled (Some v),
         (Spec.nth_world requestFn (S k) w,
          flat_map (Spec.failed_round N D) (Spec.zseq 1 k)
          ++ [Attempt (Z.of_nat (S k))]))
  /\ Spec.attempts_of (snd (snd run)) = Spec.zseq 1 (S k)
  /\ Spec.sleeps_of (snd (snd run)) = map (fun a => D * a)%Z (Spec.zseq 1 k).
Proof.
  intros N D Hk HN run.
  assert (Hrun : run = (Fulfilled (Some v),
                        (Spec.nth_world requestFn (S k) w,
                         flat_map (Spec.failed_round N D) (Spec.zseq 1 k)
                         ++ [Attempt (Z.of_nat (S k))]))).
  { subst run. unfold retryRequest. fold N D.
    rewrite (retry_loop_first_success N D k 1%Z w [] v Hk) by lia.
    cbn [app]. do 4 f_equal. f_equal. lia. }
  split; [exact Hrun|]. rewrite Hrun. cbn [snd].
  split.
  - rewrite (attempts_of_app _ _), attempts_of_rounds, zseq_snoc.
    cbn [Spec.attempts_of]. do 2 f_equal. lia.
  - rewrite (sleeps_of_app _ _), sleeps_of_rounds. cbn [Spec.sleeps_of].
    now rewrite app_nil_r.
Qed.

End RetryOutcomes.

Lemma retryRequest_stops_at_first_success_witness :
  let run := retryRequest Config.new Examples.flaky None O in
  run = (Fulfilled (Some (VStr "ok")),
         (Spec.nth_world Examples.flaky 3 O,
          flat_map (Spec.failed_round 3 1000) (Spec.zseq 1 2) ++ [Attempt 3]))
  /\ Spec.attempts_of (snd (snd run)) = Spec.zseq 1 3
  /\ Spec.sleeps_of (snd (snd run)) = map (fun a => 1000 * a)%Z (Spec.zseq 1 2).
Proof.
  apply (retryRequest_stops_at_first_success nat value nat Examples.flaky
           Config.new None O 2 (VStr "ok")).
  - split; [|reflexivity].
    intros [|[|k]] Hk; [eexists; reflexivity | eexists; reflexivity | lia].
  - simpl. lia.
Defined.

Section SendEdges.

Variable Net : Type.
Variable http : request -> Net -> settled value API.error * Net.
Variable statSync : jsstring -> option Stats.
Variable basename : jsstring -> jsstring.

Local Abbreviation world := (API.world Net).
Local Abbreviation sendEntryData := (API.sendEntryData http statSync basename).
Local Abbreviation sendUserData := (API.sendUserData http statSync basename).
Local Abbreviation send_once := (API.send_once http statSync basename).

Lemma user_guard_fails (userData : value) :
  Spec.user_guard userData = false ->
  negb (truthy userData) || negb (truthy (get (str "externalId") userData)) = true.
Proof.
  unfold Spec.user_guard.
  destruct (truthy userData), (truthy (get (str "externalId") userData));
    simpl; congruence.
Qed.

Lemma user_guard_passes (userData : value) :
  Spec.user_guard userData = true ->
  negb (truthy userData) || negb (truthy (get (str "externalId") userData)) = false.
Proof.
  unfold Spec.user_guard.
  destruct (truthy userData), (truthy (get (str "externalId") userData));
    simpl; congruence.
Qed.

Lemma retryRequest_below_one (config : Config.t) (fn : request_fn world value API.error)
  (w : world) :
  (Config.retryAttempts config <= 0)%Z ->
  retryRequest config fn None w = (Fulfilled None, (w, [])).
Proof.
  intros H. unfold retryRequest.
  change (or_num None (Config.retryAttempts config)) with (Config.retryAttempts config).
  now apply retry_loop_no_attempt.
Qed.

(** A negative [retryAttempts] option is kept by [load] (only zero is taken
    as absent), and under the configuration it gives every send is silent:
    a record that passes the guard is not sent, no request function is
    called, no file is opened, and the promise fulfils with [undefined]. *)
Theorem negative_retryAttempts_disables_sends (this : Config.t) (env : Config.Env)
  (options : Config.Options) (n : Z) (data : value) (files : list jsstring)
  (w : world) :
  Config.KRYOS_RETRY_ATTEMPTS env = None ->
  Config.o_retryAttempts options = Some n ->
  (n < 0)%Z ->
  let config := Config.load this env options in
  Config.retryAttempts config = n
  /\ (Spec.entry_guard data = true ->
      sendEntryData config data files w = (Fulfilled None, (w, [])))
  /\ (Spec.user_guard data = true ->
      sendUserData config data files w = (Fulfilled None, (w, [])))
  /\ API.healthCheck http config w = (Fulfilled None, (w, [])).
Proof.
  intros Henv Hopt Hn config.
  assert (Hc : Config.retryAttempts config = n).
  { subst config. cbn [Config.load Config.retryAttempts].
    rewrite Henv, Hopt. cbn [parseInt or_num].
    destruct (Z.eqb_spec n 0); [lia | reflexivity]. }
  assert (Hle : (Config.retryAttempts config <= 0)%Z) by lia.
  split; [exact Hc|]. split; [|split].
  - intros Hg. unfold API.sendEntryData. rewrite (entry_guard_passes _ Hg).
    now apply retryRequest_below_one.
  - intros Hg. unfold API.sendUserData. rewrite (user_guard_passes _ Hg).
    now apply retryRequest_below_one.
  - unfold API.healthCheck. now apply retryRequest_below_one.
Qed.

(** [sendUserData] checks the presence of [externalId] and nothing else: a
    record without one is rejected at once (the world is untouched, no retry
    event occurs); every other record is handed to [retryRequest] and, under
    a ceiling of at least one, posted to [/data/users] as it is, also when
    [validateUserData] reports it invalid for want of an email. *)
Theorem sendUserData_checks_externalId_only (config : Config.t) (userData : value)
  (files : list jsstring) (w : world) :
  (Spec.user_guard userData = false ->
   sendUserData config userData files w
   = (Rejected (JsError (str "User data must include externalId")), (w, [])))
  /\ (Spec.user_guard userData = true ->
      sendUserData config userData files w
      = retryRequest config (send_once (str "/data/users") userData files) None w)
  /\ (Spec.user_guard userData = true ->
      (1 <= Config.retryAttempts config)%Z ->
      exists later,
        requests (fst (snd (sendUserData config userData [] w)))
        = requests w
          ++ {| method := str "POST"; API.url := str "/data/users";
                payload := JsonBody userData |}
          :: later)
  /\ (forall isValidEmail isValidPhone,
      truthy (get (str "email") userData) = false ->
      let report := Utilities.validateUserData isValidEmail isValidPhone userData in
      Utilities.isValid report = false
      /\ In (str "email is required") (Utilities.errors report)).
Proof.
  split; [|split; [|split]].
  - intros Hg. unfold API.sendUserData. now rewrite (user_guard_fails _ Hg).
  - intros Hg. unfold API.sendUserData. now rewrite (user_guard_passes _ Hg).
  - intros Hg HN. unfold API.sendUserData. rewrite (user_guard_passes _ Hg).
    now apply retry_post_is_issued.
  - intros isValidEmail isValidPhone He report.
    assert (Hin : In (str "email is required") (Utilities.errors report)).
    { subst report. unfold Utilities.validateUserData. cbn [Utilities.errors].
      rewrite He. cbn [negb andb Utilities.when].
      apply in_or_app. right. apply in_or_app. right. apply in_or_app. left.
      left. reflexivity. }
    split; [|exact Hin].
    subst report. unfold Utilities.validateUserData in *.
    cbn [Utilities.errors Utilities.isValid] in *.
    exact (no_error_iff_empty _ _ Hin).
Qed.

End SendEdges.

Lemma negative_retryAttempts_disables_sends_witness :
  let config :=
    Config.load Config.new Config.empty_env
      (Spec.with_numbers None (Some (-1)%Z) None Config.no_options) in
  Config.retryAttempts config = (-1)%Z
  /\ (Spec.entry_guard Examples.event_entry = true ->
      API.sendEntryData Examples.accepting Examples.no_files Examples.file_name
        config Examples.event_entry [] Examples.start
      = (Fulfilled None, (Examples.start, [])))
  /\ (Spec.user_guard Examples.event_entry = true ->
      API.sendUserData Examples.accepting Examples.no_files Examples.file_name
        config Examples.event_entry [] Examples.start
      = (Fulfilled None, (Examples.start, [])))
  /\ API.healthCheck Examples.accepting config Examples.start
     = (Fulfilled None, (Examples.start, [])).
Proof.
  apply (negative_retryAttempts_disables_sends nat Examples.accepting
           Examples.no_files Examples.file_name Config.new Config.empty_env
           (Spec.with_numbers None (Some (-1)%Z) None Config.no_options) (-1)%Z
           Examples.event_entry [] Examples.start);
    [reflexivity | reflexivity | lia].
Defined.

(* ================================================================== *)
(** * Properties of utils.js: validation before a send *)
(* ================================================================== *)

Section ValidationProperties.

Variable Net : Type.
Variable http : request -> Net -> settled value API.error * Net.
Variable statSync : jsstring -> option Stats.
Variable basename : jsstring -> jsstring.
Variable config : Config.t.
Variables isValidEmail isValidPhone : value -> bool.

Local Abbreviation world := (API.world Net).
Local Abbreviation validateEntryData :=
  (Utilities.validateEntryData isValidEmail isValidPhone).
Local Abbreviation validateUserData :=
  (Utilities.validateUserData isValidEmail isValidPhone).

Lemma when_nil (b : bool) (message : string) :
  Utilities.when b message = [] -> b = false.
Proof. destruct b; [discriminate | reflexivity]. Qed.

Lemma no_errors (errors : list jsstring) :
  match errors with [] => true | _ :: _ => false end = true -> errors = [].
Proof. destruct errors; [reflexivity | discriminate]. Qed.

Lemma truthy_property (k : jsstring) (v : value) :
  truthy (get k v) = true -> truthy v = true.
Proof. destruct v as [s| |]; [discriminate | reflexivity | reflexivity]. Qed.

(** A record that [validateUserData] accepts has a truthy [externalId],
    [name] and [email], the email passes [isValidEmail], and [sendUserData]
    does not reject it: it goes to the retry logic. *)
Theorem validated_user_passes_the_guard (userData : value) (files : list jsstring)
  (w : world) :
  Utilities.isValid (validateUserData userData) = true ->
  Spec.user_guard userData = true
  /\ truthy (get (str "externalId") userData) = true
  /\ truthy (get (str "name") userData) = true
  /\ truthy (get (str "email") userData) = true
  /\ isValidEmail (get (str "email") userData) = true
  /\ API.sendUserData http statSync basename config userData files w
     = retryRequest config
         (API.send_once http statSync basename (str "/data/users") userData files)
         None w.
Proof.
  unfold Utilities.validateUserData. cbn [Utilities.isValid].
  intros H. apply no_errors in H.
  apply app_eq_nil in H. destruct H as [Hid H].
  apply app_eq_nil in H. destruct H as [Hname H].
  apply app_eq_nil in H. destruct H as [Hemail H].
  apply app_eq_nil in H. destruct H as [Hformat _].
  apply when_nil, negb_false_iff in Hid, Hname, Hemail.
  apply when_nil in Hformat. rewrite Hemail in Hformat.
  apply negb_false_iff in Hformat.
  assert (Hg : Spec.user_guard userData = true).
  { unfold Spec.user_guard. now rewrite (truthy_property _ _ Hid), Hid. }
  repeat split; try assumption.
  unfold API.sendUserData. now rewrite (user_guard_passes _ Hg).
Qed.

(** A record that [validateEntryData] accepts passes the guard of
    [sendEntryData], so the send does not reject it but hands it to the
    retry logic; its [dataType] is one of the three enumerated ones and its
    [data] is an object or an array. *)
Theorem validated_entry_passes_the_guard (entryData : value) (files : list jsstring)
  (w : world) :
  Utilities.isValid (validateEntryData entryData) = true ->
  Spec.entry_guard entryData = true
  /\ Utilities.includes (get (str "dataType") entryData) = true
  /\ truthy (get (str "data") entryData) = true
  /\ typeof_object (get (str "data") entryData) = true
  /\ API.sendEntryData http statSync basename config entryData files w
     = retryRequest config
         (API.send_once http statSync basename (str "/data/entries") entryData files)
         None w.
Proof.
  unfold Utilities.validateEntryData. cbn [Utilities.isValid].
  intros H. apply no_errors in H.
  apply app_eq_nil in H. destruct H as [Hid H].
  apply app_eq_nil in H. destruct H as [Htype H].
  apply app_eq_nil in H. destruct H as [Hdata H].
  apply app_eq_nil in H. destruct H as [Hin H].
  apply app_eq_nil in H. destruct H as [Hobj _].
  apply when_nil, negb_false_iff in Hid, Htype, Hdata.
  apply when_nil in Hin, Hobj. rewrite Htype in Hin. rewrite Hdata in Hobj.
  apply negb_false_iff in Hin, Hobj.
  assert (Hg : Spec.entry_guard entryData = true).
  { unfold Spec.entry_guard. now rewrite (truthy_property _ _ Hid), Hid, Htype. }
  repeat split; try assumption.
  unfold API.sendEntryData. now rewrite (entry_guard_passes _ Hg).
Qed.

End ValidationProperties.

(* ================================================================== *)
(** * Properties of utils.js: file paths *)
(* ================================================================== *)

Section FileProperties.

Variable statSync : jsstring -> option Stats.

Local Abbreviation classify := (Utilities.classify statSync).
Local Abbreviation classify_all :=
  (fold_left (fun r filePath => Utilities.classify statSync filePath r)).
Local Abbreviation accounts_for := (Spec.accounts_for statSync).

Lemma sum_sizes_app (a b : list (jsstring * Z)) :
  Spec.sum_sizes (a ++ b) = (Spec.sum_sizes a + Spec.sum_sizes b)%Z.
Proof. induction a as [|x a IH]; simpl; [reflexivity | rewrite IH; lia]. Qed.

Lemma accounts_for_step (seen : list value) (filePath : value)
  (r : Utilities.file_report) :
  accounts_for seen r -> accounts_for (seen ++ [filePath]) (classify filePath r).
Proof.
  intros (Hlen & Hsize & Hvalid & Hmissing & Hinvalid & Hcover).
  assert (Hold : forall x, In x seen -> In x (seen ++ [filePath]))
    by (intros; apply in_or_app; now left).
  assert (Hnew : In filePath (seen ++ [filePath]))
    by (apply in_or_app; right; now left).
  assert (Hkeep_valid : forall path size,
            In (path, size) (Utilities.valid r) ->
            In (VScalar (SStr path)) (seen ++ [filePath])
            /\ statSync path = Some {| isFile := true; size := size |})
    by (intros path size Hin; destruct (Hvalid _ _ Hin); auto).
  assert (Hkeep_missing : forall path reason,
            In (path, reason) (Utilities.missing r) ->
            In (VScalar (SStr path)) (seen ++ [filePath])
            /\ existsSync statSync path = false)
    by (intros path reason Hin; destruct (Hmissing _ _ Hin); auto).
  assert (Hkeep_invalid : forall fp reason,
            In (fp, reason) (Utilities.invalid r) ->
            In fp (seen ++ [filePath])
            /\ forall path size,
                 fp = VScalar (SStr path) -> path <> [] ->
                 statSync path <> Some {| isFile := true; size := size |})
    by (intros fp reason Hin; destruct (Hinvalid _ _ Hin); auto).
  assert (Hgrow : forall (valid' : list (jsstring * Z))
                    (invalid' : list (value * jsstring))
                    (missing' : list (jsstring * jsstring)),
            ((exists path size,
                 filePath = VScalar (SStr path)
                 /\ In (path, size) (Utilities.valid r ++ valid'))
             \/ (exists reason, In (filePath, reason) (Utilities.invalid r ++ invalid'))
             \/ (exists path reason,
                    filePath = VScalar (SStr path)
                    /\ In (path, reason) (Utilities.missing r ++ missing'))) ->
            forall fp, In fp (seen ++ [filePath]) ->
              (exists path size,
                  fp = VScalar (SStr path)
                  /\ In (path, size) (Utilities.valid r ++ valid'))
              \/ (exists reason, In (fp, reason) (Utilities.invalid r ++ invalid'))
              \/ (exists path reason,
                     fp = VScalar (SStr path)
                     /\ In (path, reason) (Utilities.missing r ++ missing'))).
  { intros valid' invalid' missing' Hlast fp Hin. apply in_app_or in Hin.
    destruct Hin as [Hin|[<-|[]]]; [|exact Hlast].
    destruct (Hcover fp Hin) as [(path & size & -> & H)|[(reason & H)|(path & reason & -> & H)]].
    - left. exists path, size. split; [reflexivity|]. apply in_or_app. now left.
    - right. left. exists reason. apply in_or_app. now left.
    - right. right. exists path, reason. split; [reflexivity|].
      apply in_or_app. now left. }
  assert (Hformat :
            (forall c p, filePath <> VScalar (SStr (c :: p))) ->
            Spec.accounts_for statSync (seen ++ [filePath])
              {| Utilities.valid := Utilities.valid r;
                 Utilities.invalid :=
                   Utilities.invalid r ++ [(filePath, str "Invalid path format")];
                 Utilities.missing := Utilities.missing r;
                 Utilities.totalSize := Utilities.totalSize r |}).
  { intros Hne. unfold Spec.accounts_for.
    cbn [Utilities.valid Utilities.invalid Utilities.missing Utilities.totalSize].
    rewrite !length_app in *. cbn [length] in *.
    split; [lia|]. split; [exact Hsize|].
    split; [exact Hkeep_valid|]. split; [exact Hkeep_missing|].
    split.
    - intros fp reason Hin. apply in_app_or in Hin.
      destruct Hin as [Hin|[[= <- <-]|[]]]; [now apply Hkeep_invalid with reason|].
      split; [exact Hnew|]. intros [|c p] size -> Hp; [congruence|].
      now destruct (Hne c p).
    - intros fp Hin.
      rewrite <- (app_nil_r (Utilities.valid r)), <- (app_nil_r (Utilities.missing r)).
      apply Hgrow; [|exact Hin].
      right. left. eexists. apply in_or_app. right. now left. }
  unfold Utilities.classify.
  destruct filePath as [[| | | | |[|c p]]| |]; try (apply Hformat; congruence).
  unfold Spec.accounts_for.
  destruct (statSync (c :: p)) as [[[|] sz]|] eqn:Hstat;
    cbn [negb isFile size Utilities.valid Utilities.invalid Utilities.missing
         Utilities.totalSize];
    rewrite ?length_app in *; cbn [length] in *.
  - split; [lia|]. split; [rewrite sum_sizes_app; simpl; lia|].
    split; [|split; [exact Hkeep_missing | split; [exact Hkeep_invalid|]]].
    + intros path size Hin. apply in_app_or in Hin.
      destruct Hin as [Hin|[[= <- <-]|[]]]; [now apply Hkeep_valid | auto].
    + intros fp Hin.
      rewrite <- (app_nil_r (Utilities.invalid r)), <- (app_nil_r (Utilities.missing r)).
      apply Hgrow; [|exact Hin].
      left. do 2 eexists. split; [reflexivity|]. apply in_or_app. right. now left.
  - split; [lia|]. split; [exact Hsize|].
    split; [exact Hkeep_valid|]. split; [exact Hkeep_missing|].
    split.
    + intros fp reason Hin. apply in_app_or in Hin.
      destruct Hin as [Hin|[[= <- <-]|[]]]; [now apply Hkeep_invalid with reason|].
      split; [exact Hnew|]. intros path size [= <-] _. rewrite Hstat. congruence.
    + intros fp Hin.
      rewrite <- (app_nil_r (Utilities.valid r)), <- (app_nil_r (Utilities.missing r)).
      apply Hgrow; [|exact Hin].
      right. left. eexists. apply in_or_app. right. now left.
  - split; [lia|]. split; [exact Hsize|].
    split; [exact Hkeep_valid|]. split; [|split; [exact Hkeep_invalid|]].
    + intros path reason Hin. apply in_app_or in Hin.
      destruct Hin as [Hin|[[= <- <-]|[]]]; [now apply Hkeep_missing with reason|].
      split; [exact Hnew|]. unfold existsSync. now rewrite Hstat.
    + intros fp Hin.
      rewrite <- (app_nil_r (Utilities.valid r)), <- (app_nil_r (Utilities.invalid r)).
      apply Hgrow; [|exact Hin].
      right. right. do 2 eexists. split; [reflexivity|].
      apply in_or_app. right. now left.
Qed.

Lemma classify_all_accounts (paths : list value) :
  forall (seen : list value) (r : Utilities.file_report),
    accounts_for seen r -> accounts_for (seen ++ paths) (classify_all paths r).
Proof.
  induction paths as [|filePath rest IH]; intros seen r H.
  - now rewrite app_nil_r.
  - cbn [fold_left].
    replace (seen ++ filePath :: rest) with ((seen ++ [filePath]) ++ rest)
      by (now rewrite <- app_assoc).
    apply IH. now apply accounts_for_step.
Qed.

Lemma validateFilePaths_report (paths : list value) :
  exists r,
    Utilities.validateFilePaths statSync (VArr paths) = Fulfilled r
    /\ accounts_for paths r.
Proof.
  eexists. split; [reflexivity|].
  apply (classify_all_accounts paths []).
  unfold Spec.accounts_for. cbn.
  repeat split; try reflexivity; try contradiction.
Qed.

(** [validateFilePaths] throws unless it is given an array; on an array it
    returns a report in which every path is listed once, as valid, invalid
    or missing, [totalSize] is the sum of the sizes of the valid files, the
    valid paths are regular files, the missing ones do not exist, and a
    non-empty string is listed as invalid only when it is not a regular
    file. *)
Theorem validateFilePaths_accounts_for_every_path (filePaths : value) :
  match filePaths with
  | VArr paths =>
      exists r,
        Utilities.validateFilePaths statSync filePaths = Fulfilled r
        /\ accounts_for paths r
  | _ =>
      Utilities.validateFilePaths statSync filePaths
      = Rejected (JsError (str "File paths must be an array"))
  end.
Proof.
  destruct filePaths as [s|props|paths]; try reflexivity.
  apply validateFilePaths_report.
Qed.

Variable Net : Type.
Variable http : request -> Net -> settled value API.error * Net.
Variable basename : jsstring -> jsstring.

Lemma add_files_all_there (filePaths : list jsstring) :
  (forall path, In path filePaths -> existsSync statSync path = true) ->
  forall (files : list (jsstring * jsstring)) (w : API.world Net),
    API.add_files statSync basename filePaths files w
    = (Fulfilled (files ++ map (fun path => (basename path, path)) filePaths),
       {| net := net w; requests := requests w;
          streams := streams w ++ filePaths |}).
Proof.
  induction filePaths as [|path rest IH]; intros Hall files w.
  - cbn [API.add_files map]. rewrite !app_nil_r. now destruct w.
  - cbn [API.add_files map]. rewrite (Hall path (or_introl eq_refl)).
    cbn [negb]. rewrite IH by (intros; apply Hall; now right).
    cbn [net requests streams]. now rewrite <- !app_assoc.
Qed.

(** Paths that [validateFilePaths] reports with nothing invalid and nothing
    missing pass the file check of a send on the same file system: no path
    is missing for [sendWithFiles], which, for a record that flattening
    returns the fields of, opens each file in order and issues one
    multipart request with those fields and one part per path. *)
Theorem fully_valid_paths_are_sent (paths : list jsstring)
  (r : Utilities.file_report) (endpoint : jsstring) (data : value)
  (fields : list (jsstring * scalar)) (w : API.world Net) :
  Utilities.validateFilePaths statSync (VArr (map (fun p => VScalar (SStr p)) paths))
  = Fulfilled r ->
  Utilities.invalid r = [] ->
  Utilities.missing r = [] ->
  flattenAndAddToForm data [] = Fulfilled fields ->
  let sent := snd (API.sendWithFiles http statSync basename endpoint data paths w) in
  Spec.first_missing statSync paths = None
  /\ requests sent
     = requests w
       ++ [{| method := str "POST"; API.url := endpoint;
              payload := FormBody fields
                           (map (fun p => (basename p, p)) paths) |}]
  /\ streams sent = streams w ++ paths.
Proof.
  intros Hr Hinvalid Hmissing Hflat sent.
  destruct (validateFilePaths_report (map (fun p => VScalar (SStr p)) paths))
    as (r' & Hr' & Hacc).
  rewrite Hr in Hr'. injection Hr' as <-.
  destruct Hacc as (_ & _ & Hvalid & _ & _ & Hcover).
  assert (Hall : forall path, In path paths -> existsSync statSync path = true).
  { intros path Hin.
    destruct (Hcover (VScalar (SStr path)))
      as [(p & size & [= <-] & H)|[(reason & H)|(p & reason & _ & H)]].
    - apply in_map_iff. now exists path.
    - destruct (Hvalid _ _ H) as [_ Hstat]. unfold existsSync. now rewrite Hstat.
    - rewrite Hinvalid in H. contradiction.
    - rewrite Hmissing in H. contradiction. }
  split.
  - unfold Spec.first_missing.
    destruct (find (fun path => negb (existsSync statSync path)) paths) as [m|] eqn:Hfind;
      [|reflexivity].
    apply find_some in Hfind. destruct Hfind as [Hin Hneg].
    rewrite (Hall m Hin) in Hneg. discriminate.
  - subst sent. unfold API.sendWithFiles. rewrite Hflat.
    rewrite (add_files_all_there paths Hall [] w). cbn [app].
    unfold post. split; [now rewrite issue_appends|].
    unfold issue. cbn [net]. now destruct (http _ (net w)).
Qed.

End FileProperties.

Lemma fully_valid_paths_are_sent_witness :
  let sent :=
    snd (API.sendWithFiles Examples.accepting Examples.tmp_dir Examples.file_name
           (str "/data/entries") Examples.event_entry [str "/tmp/a.txt"]
           Examples.start) in
  Spec.first_missing Examples.tmp_dir [str "/tmp/a.txt"] = None
  /\ requests sent
     = requests Examples.start
       ++ [{| method := str "POST"; API.url := str "/data/entries";
              payload := FormBody
                           [(str "externalId", SStr (str "e1"));
                            (str "dataType", SStr (str "event_data"))]
                           (map (fun p => (Examples.file_name p, p))
                              [str "/tmp/a.txt"]) |}]
  /\ streams sent = streams Examples.start ++ [str "/tmp/a.txt"].
Proof.
  apply (fully_valid_paths_are_sent Examples.tmp_dir nat Examples.accepting
           Examples.file_name [str "/tmp/a.txt"]
           {| Utilities.valid := [(str "/tmp/a.txt", 12%Z)];
              Utilities.invalid := []; Utilities.missing := [];
              Utilities.totalSize := 12 |});
    reflexivity.
Defined.

(* ================================================================== *)
(** * Properties of api.js: metrics, events and error reports *)
(* ================================================================== *)

Section ObjectFacts.

Lemma lookup_assign_same (k : jsstring) (v : value) (props : list (jsstring * value)) :
  lookup k (assign k v props) = Some v.
Proof.
  induction props as [|[k' v'] rest IH]; cbn [assign lookup].
  - now rewrite jsstring_eqb_refl.
  - destruct (jsstring_eqb k k') eqn:Hk; cbn [lookup]; rewrite Hk; auto.
Qed.

Lemma lookup_assign_other (k k' : jsstring) (v : value)
  (props : list (jsstring * value)) :
  k <> k' -> lookup k (assign k' v props) = lookup k props.
Proof.
  intros Hne.
  assert (Hkk : jsstring_eqb k k' = false).
  { destruct (jsstring_eqb k k') eqn:H; [|reflexivity].
    apply jsstring_eqb_eq in H. contradiction. }
  induction props as [|[k0 v0] rest IH]; cbn [assign lookup].
  - now rewrite Hkk.
  - destruct (jsstring_eqb k' k0) eqn:H0; cbn [lookup].
    + apply jsstring_eqb_eq in H0. subst k0. now rewrite Hkk.
    + destruct (jsstring_eqb k k0); [reflexivity | exact IH].
Qed.

End ObjectFacts.

Section ReportProperties.

Import Reports.

Variable config : Config.t.
Variable process : Config.Process.
Variable clock : Clock.
Variable Net : Type.
Variable http : request -> Net -> settled value API.error * Net.

(** The payloads the SDK builds for metrics, events and error reports are
    entries its own validator accepts and the guard of [sendEntryData]
    passes, whatever the caller supplied and whatever the two format tests
    answer. *)
Theorem sdk_payloads_pass_validation (isValidEmail isValidPhone : value -> bool)
  (input : value) :
  let accepted payload :=
    Utilities.isValid (Utilities.validateEntryData isValidEmail isValidPhone payload)
    = true
    /\ Spec.entry_guard payload = true in
  accepted (metrics_payload config process clock input)
  /\ accepted (event_payload config clock input)
  /\ accepted (error_payload config clock input).
Proof. repeat split. Qed.

Lemma post_entry_is_issued (payload : value) (w : world Net) :
  (1 <= Config.retryAttempts config)%Z ->
  exists later,
    requests (fst (snd (retryRequest config (post_entry http payload) None w)))
    = requests w
      ++ {| method := str "POST"; API.url := str "/data/entries";
            payload := JsonBody payload |}
      :: later.
Proof.
  intros HN.
  exact (retry_post_is_issued Net http (fun _ => None) (fun path => path) config
           (str "/data/entries") payload w HN).
Qed.

(** [sendEvent] rejects at once an event without a truthy [eventType];
    otherwise, under a ceiling of at least one, it posts the payload.  In
    the payload's [data] the [service] is the configured service name, also
    when the event carries a [service] of its own; the [timestamp] is the
    event's when it has a truthy one and the clock's otherwise; and every
    other property of the event is kept. *)
Theorem sendEvent_overrides_service (eventData : value) (w : world Net) :
  let data := get (str "data") (event_payload config clock eventData) in
  (truthy eventData && truthy (get (str "eventType") eventData) = false ->
   sendEvent config clock http eventData w
   = (Rejected (JsError (str "Event data must include eventType")), (w, [])))
  /\ (truthy eventData && truthy (get (str "eventType") eventData) = true ->
      (1 <= Config.retryAttempts config)%Z ->
      exists later,
        requests (fst (snd (sendEvent config clock http eventData w)))
        = requests w
          ++ {| method := str "POST"; API.url := str "/data/entries";
                payload := JsonBody (event_payload config clock eventData) |}
          :: later)
  /\ get (str "service") data = Config.opt_string (Config.serviceName config)
  /\ get (str "timestamp") data
     = (if truthy (get (str "timestamp") eventData)
        then get (str "timestamp") eventData
        else VScalar (SStr (isoString clock)))
  /\ (forall props k,
        eventData = VObj props ->
        k <> str "timestamp" -> k <> str "service" ->
        get k data = get k eventData).
Proof.
  intros data.
  assert (Hdata :
            data
            = VObj (assign (str "service") (Config.opt_string (Config.serviceName config))
                      (assign (str "timestamp")
                         (or_value (get (str "timestamp") eventData)
                            (VScalar (SStr (isoString clock))))
                         (Middleware.spread eventData)))) by reflexivity.
  split; [|split; [|split; [|split]]].
  - intros Hg. unfold sendEvent.
    destruct (truthy eventData), (truthy (get (str "eventType") eventData));
      try discriminate; reflexivity.
  - intros Hg HN. unfold sendEvent.
    destruct (truthy eventData), (truthy (get (str "eventType") eventData));
      try discriminate.
    now apply post_entry_is_issued.
  - rewrite Hdata. unfold get. now rewrite lookup_assign_same.
  - rewrite Hdata. unfold get at 1.
    rewrite lookup_assign_other by discriminate.
    now rewrite lookup_assign_same.
  - intros props k -> Ht Hs. rewrite Hdata. unfold get.
    rewrite !lookup_assign_other by assumption. reflexivity.
Qed.

(** The report [sendError] posts is made of five properties of its
    argument and of nothing else: [message], [stack], [code], [severity]
    and [context].  Two arguments that agree on the five give the same
    payload; so the [request] (and the [timestamp] and [service]) that
    [errorTracker] puts in its [errorInfo] do not reach the payload, whose
    [context] is then the empty object. *)
Theorem sendError_forwards_five_properties (e1 e2 : value) :
  ((forall k,
       In k [str "message"; str "stack"; str "code"; str "severity"; str "context"] ->
       get k e1 = get k e2) ->
   error_payload config clock e1 = error_payload config clock e2)
  /\ (forall tracker error request request' severity timestamp timestamp',
        error_payload config clock (errorInfo tracker error request severity timestamp)
        = error_payload config clock
            (errorInfo None error request' severity timestamp')
        /\ get (str "context")
             (get (str "error")
                (get (str "data")
                   (error_payload config clock
                      (errorInfo tracker error request severity timestamp))))
           = VObj []).
Proof.
  split.
  - intros H. unfold error_payload.
    rewrite (H (str "message")), (H (str "stack")), (H (str "code")),
      (H (str "severity")), (H (str "context")); [reflexivity|..];
      cbn [In]; auto 6.
  - intros. split; reflexivity.
Qed.

End ReportProperties.

(* ================================================================== *)
(** * Properties of index.js: what the constructor accepts *)
(* ================================================================== *)

Section ConstructorProperties.

Lemma isValid_as_prefix (c : Config.t) :
  Config.isValid c
  = truthy_str (Config.keyId c) && truthy_str (Config.keySecret c)
    && starts_with (str "http") (Config.baseUrl c).
Proof.
  unfold Config.isValid.
  destruct (truthy_str (Config.keyId c)), (truthy_str (Config.keySecret c));
    cbn [negb orb andb]; try reflexivity.
  destruct (Config.baseUrl c) as [|c1 l]; [reflexivity|]. Spec.by_code_unit c1.
  destruct l as [|c2 l]; [reflexivity|]. Spec.by_code_unit c2.
  destruct l as [|c3 l]; [reflexivity|]. Spec.by_code_unit c3.
  destruct l as [|c4 l]; [reflexivity|]. Spec.by_code_unit c4.
Qed.

Lemma or_str_truthy (a b : option jsstring) :
  truthy_str b = true -> truthy_str (or_str a b) = true.
Proof. unfold or_str. destruct (truthy_str a) eqn:Ha; auto. Qed.

Lemma load_keeps_credentials (shared : Config.t) (env : Config.Env)
  (options : Config.Options) :
  Spec.has_credentials options = true ->
  Config.isValid (Config.load shared env options)
  = starts_with (str "http") (Config.baseUrl (Config.load shared env options)).
Proof.
  unfold Spec.has_credentials. intros H. apply andb_true_iff in H. destruct H as [Hi Hs].
  rewrite isValid_as_prefix. cbn [Config.load Config.keyId Config.keySecret].
  now rewrite (or_str_truthy _ _ Hi), (or_str_truthy _ _ Hs).
Qed.

Lemma constructor_by_cases (shared : Config.t) (env : Config.Env)
  (options : Config.Options) :
  SDK.constructor shared env options
  = if Spec.has_credentials options
    then
      if starts_with (str "http") (Config.baseUrl (Config.load shared env options))
      then (Fulfilled (Config.load shared env options), Config.load shared env options)
      else (Rejected (JsError (str "Kryos SDK: Invalid configuration provided")),
            Config.load shared env options)
    else (Rejected (JsError (str "Kryos SDK: keyId and keySecret are required")), shared).
Proof.
  unfold SDK.constructor.
  destruct (Spec.has_credentials options) eqn:H.
  - rewrite (load_keeps_credentials shared env options H).
    unfold Spec.has_credentials in H. apply andb_true_iff in H.
    destruct H as [-> ->]. cbn [negb orb].
    now destruct (starts_with _ _).
  - unfold Spec.has_credentials in H.
    destruct (truthy_str (Config.o_keyId options)),
      (truthy_str (Config.o_keySecret options)); try discriminate; reflexivity.
Qed.

(** What the constructor accepts.  Without both credentials in the options
    it throws, also when the environment holds them, and the shared
    instance is untouched.  With them the only other failure is a base URL
    (from the environment, else the options, else what the shared instance
    holds) that does not start with [http]; the shared instance is loaded in
    either case, and the credentials the configuration ends up with are the
    environment's where it has them. *)
Theorem constructor_outcomes (shared : Config.t) (env : Config.Env)
  (options : Config.Options) :
  let loaded := Config.load shared env options in
  (Spec.has_credentials options = false ->
   SDK.constructor shared env options
   = (Rejected (JsError (str "Kryos SDK: keyId and keySecret are required")), shared))
  /\ (Spec.has_credentials options = true ->
      starts_with (str "http") (Config.baseUrl loaded) = false ->
      SDK.constructor shared env options
      = (Rejected (JsError (str "Kryos SDK: Invalid configuration provided")), loaded))
  /\ (Spec.has_credentials options = true ->
      starts_with (str "http") (Config.baseUrl loaded) = true ->
      SDK.constructor shared env options = (Fulfilled loaded, loaded))
  /\ (truthy_str (Config.KRYOS_KEY_ID env) = true ->
      Config.keyId loaded = Config.KRYOS_KEY_ID env)
  /\ (truthy_str (Config.KRYOS_KEY_SECRET env) = true ->
      Config.keySecret loaded = Config.KRYOS_KEY_SECRET env).
Proof.
  intros loaded. rewrite constructor_by_cases. fold loaded.
  split; [|split; [|split; [|split]]].
  - now intros ->.
  - now intros -> ->.
  - now intros -> ->.
  - intros H. subst loaded. cbn [Config.load Config.keyId]. unfold or_str. now rewrite H.
  - intros H. subst loaded. cbn [Config.load Config.keySecret]. unfold or_str.
    now rewrite H.
Qed.

(** A configuration that the constructor rejects stays in the shared
    instance: after a call that threw for a base URL that does not start
    with [http], every later call that names no base URL of its own (in the
    environment or the options) throws the same error, whatever credentials
    it gives. *)
Theorem rejected_configuration_persists (shared : Config.t) (env : Config.Env)
  (first later : Config.Options) :
  fst (SDK.constructor shared env first)
  = Rejected (JsError (str "Kryos SDK: Invalid configuration provided")) ->
  truthy_str (Config.KRYOS_BASE_URL env) = false ->
  truthy_str (Config.o_baseUrl later) = false ->
  Spec.has_credentials later = true ->
  fst (SDK.constructor (snd (SDK.constructor shared env first)) env later)
  = Rejected (JsError (str "Kryos SDK: Invalid configuration provided")).
Proof.
  intros Hfirst Henv Hlater Hcred.
  rewrite (constructor_by_cases shared env first) in Hfirst |- *.
  destruct (Spec.has_credentials first); [|discriminate Hfirst].
  destruct (starts_with (str "http") (Config.baseUrl (Config.load shared env first)))
    eqn:Hurl; [discriminate Hfirst|].
  cbn [snd]. rewrite constructor_by_cases, Hcred.
  replace (Config.baseUrl (Config.load (Config.load shared env first) env later))
    with (Config.baseUrl (Config.load shared env first)).
  - now rewrite Hurl.
  - cbn [Config.load Config.baseUrl]. unfold or_str. rewrite Henv.
    now destruct (Config.o_baseUrl later) as [[|c l]|]; try discriminate Hlater.
Qed.

End ConstructorProperties.

Lemma rejected_configuration_persists_witness :
  fst (SDK.constructor
         (snd (SDK.constructor Config.new Config.empty_env
                 (Examples.credentials_at "ftp://kryos.example")))
         Config.empty_env (Examples.credentials "alpha"))
  = Rejected (JsError (str "Kryos SDK: Invalid configuration provided")).
Proof.
  apply (rejected_configuration_persists Config.new Config.empty_env
           (Examples.credentials_at "ftp://kryos.example")
           (Examples.credentials "alpha"));
    reflexivity.
Defined.

(* ================================================================== *)
(** * Properties of utils.js: sanitizing and cloning *)
(* ================================================================== *)

Section AssignFacts.

Import Renest.

Lemma key_in_assign (k0 k : jsstring) (v : value) (acc : list (jsstring * value)) :
  existsb (fun kv => jsstring_eqb k0 (fst kv)) (assign k v acc)
  = jsstring_eqb k0 k || existsb (fun kv => jsstring_eqb k0 (fst kv)) acc.
Proof.
  induction acc as [|[k' v'] acc IH]; cbn [assign existsb fst].
  - reflexivity.
  - destruct (jsstring_eqb k k') eqn:Hk; cbn [existsb fst].
    + apply jsstring_eqb_eq in Hk. subst k'. now destruct (jsstring_eqb k0 k).
    + rewrite IH. destruct (jsstring_eqb k0 k), (jsstring_eqb k0 k'); reflexivity.
Qed.

Lemma distinct_keys_assign (k : jsstring) (v : value) (acc : list (jsstring * value)) :
  distinct_keys acc = true -> distinct_keys (assign k v acc) = true.
Proof.
  induction acc as [|[k' v'] acc IH]; intros H; cbn [assign].
  - reflexivity.
  - cbn [distinct_keys] in H. apply andb_true_iff in H. destruct H as [Hk' Hacc].
    destruct (jsstring_eqb k k') eqn:Hk; cbn [distinct_keys].
    + now rewrite Hk', Hacc.
    + rewrite key_in_assign, (IH Hacc), (jsstring_eqb_sym k' k), Hk.
      cbn [orb]. now rewrite Hk'.
Qed.

Lemma distinct_keys_assign_each (f : jsstring -> value -> value)
  (props : list (jsstring * value)) :
  forall acc, distinct_keys acc = true ->
    distinct_keys (Utilities.assign_each f props acc) = true.
Proof.
  induction props as [|[k v] rest IH]; intros acc H; cbn [Utilities.assign_each];
    [exact H|].
  apply IH. unfold Utilities.set_property.
  destruct (jsstring_eqb k (str "__proto__")); auto using distinct_keys_assign.
Qed.

Lemma in_assign (k : jsstring) (v : value) (acc : list (jsstring * value))
  (kv : jsstring * value) :
  In kv (assign k v acc) -> In kv acc \/ kv = (k, v).
Proof.
  induction acc as [|[k' v'] acc IH]; cbn [assign]; intros H.
  - destruct H as [<-|[]]. now right.
  - destruct (jsstring_eqb k k') eqn:Hk.
    + apply jsstring_eqb_eq in Hk. subst k'.
      destruct H as [<-|H]; [now right | left; now right].
    + destruct H as [<-|H]; [left; now left|].
      destruct (IH H); [left; now right | now right].
Qed.

Lemma in_assign_each (f : jsstring -> value -> value)
  (props : list (jsstring * value)) :
  forall acc kv,
    In kv (Utilities.assign_each f props acc) ->
    In kv acc
    \/ exists k v,
         In (k, v) props /\ kv = (k, f k v)
         /\ jsstring_eqb k (str "__proto__") = false.
Proof.
  induction props as [|[k v] rest IH]; intros acc kv H; cbn [Utilities.assign_each] in H.
  - now left.
  - destruct (IH _ _ H) as [Hacc|(k0 & v0 & Hin & -> & Hk0)].
    + unfold Utilities.set_property in Hacc.
      destruct (jsstring_eqb k (str "__proto__")) eqn:Hk; [now left|].
      destruct (in_assign _ _ _ _ Hacc) as [Hold| ->]; [now left|].
      right. exists k, v. split; [now left | auto].
    + right. exists k0, v0. split; [now right | auto].
Qed.

Lemma assign_fresh (k : jsstring) (v : value) (acc : list (jsstring * value)) :
  existsb (fun kv => jsstring_eqb k (fst kv)) acc = false ->
  assign k v acc = acc ++ [(k, v)].
Proof.
  induction acc as [|[k' v'] acc IH]; cbn [existsb fst assign app]; intros H;
    [reflexivity|].
  apply orb_false_iff in H. destruct H as [Hk H]. rewrite Hk. now rewrite IH.
Qed.

Lemma distinct_keys_by_keys (l l' : list (jsstring * value)) :
  map fst l = map fst l' -> distinct_keys l = distinct_keys l'.
Proof.
  assert (Hkeys : forall k (m : list (jsstring * value)),
             existsb (fun kv => jsstring_eqb k (fst kv)) m
             = existsb (jsstring_eqb k) (map fst m)).
  { intros k m. induction m as [|x m IHm]; cbn [existsb map]; [reflexivity|].
    now rewrite IHm. }
  revert l'. induction l as [|[k v] l IH]; intros [|[k' v'] l'] H; try discriminate;
    [reflexivity|].
  cbn [map fst] in H. injection H as <- H. cbn [distinct_keys].
  now rewrite (IH _ H), !Hkeys, H.
Qed.

(** On properties of distinct names that the target does not have, the
    loop is a map. *)
Lemma assign_each_distinct (f : jsstring -> value -> value)
  (props : list (jsstring * value)) :
  forall acc,
    distinct_keys (acc ++ props) = true ->
    Shape.no_proto props = true ->
    Utilities.assign_each f props acc
    = acc ++ map (fun kv => (fst kv, f (fst kv) (snd kv))) props.
Proof.
  induction props as [|[k v] rest IH]; intros acc H Hproto;
    cbn [Utilities.assign_each map fst snd].
  - now rewrite app_nil_r.
  - unfold Shape.no_proto in Hproto. cbn [forallb fst] in Hproto.
    apply andb_true_iff in Hproto. destruct Hproto as [Hk Hproto].
    apply negb_true_iff in Hk. unfold Utilities.set_property. rewrite Hk.
    rewrite (assign_fresh _ _ _ (distinct_keys_app_absent _ _ _ _ H)).
    rewrite IH.
    + now rewrite <- app_assoc.
    + rewrite <- H. apply distinct_keys_by_keys.
      rewrite <- app_assoc, !map_app. reflexivity.
    + exact Hproto.
Qed.

Lemma no_proto_assign_each (f : jsstring -> value -> value)
  (props : list (jsstring * value)) :
  Shape.no_proto (Utilities.assign_each f props []) = true.
Proof.
  apply forallb_forall. intros kv Hin.
  destruct (in_assign_each _ _ _ _ Hin) as [[]|(k & v & _ & -> & Hk)].
  cbn [fst]. now rewrite Hk.
Qed.

Lemma well_formed_obj (props : list (jsstring * value)) :
  Shape.well_formed (VObj props)
  = distinct_keys props && Shape.no_proto props
    && forallb (fun kv => Shape.well_formed (snd kv)) props.
Proof.
  cbn [Shape.well_formed]. f_equal.
  induction props as [|[k v] rest IH]; [reflexivity|].
  cbn [forallb snd]. now rewrite <- IH.
Qed.

Lemma well_formed_arr (items : list value) :
  Shape.well_formed (VArr items) = forallb Shape.well_formed items.
Proof.
  cbn [Shape.well_formed].
  induction items as [|x rest IH]; [reflexivity|].
  cbn [forallb]. now rewrite <- IH.
Qed.

End AssignFacts.

Section SanitizeProperties.

Import Renest.

Variable toLowerCase : jsstring -> jsstring.
Variable sensitiveFields : list jsstring.

Local Abbreviation isSensitive := (Utilities.isSensitive toLowerCase sensitiveFields).
Local Abbreviation sanitizeData := (Utilities.sanitizeData toLowerCase sensitiveFields).
Local Abbreviation sanitize_member :=
  (Utilities.sanitize_member toLowerCase sensitiveFields).
Local Abbreviation sanitize_items :=
  (Utilities.sanitize_items toLowerCase sensitiveFields).
Local Abbreviation redacted_under := (Shape.redacted_under isSensitive).
Local Abbreviation member_redacted := (Shape.member_redacted isSensitive).
Local Abbreviation items_redacted := (Shape.items_redacted isSensitive).

(** *** The loops, by name *)

Lemma sanitizeData_obj (props : list (jsstring * value)) :
  sanitizeData (VObj props) = VObj (Utilities.assign_each sanitize_member props []).
Proof.
  cbn [Utilities.sanitizeData]. f_equal.
  generalize (@nil (jsstring * value)).
  induction props as [|[k v] rest IH]; intros acc; [reflexivity|].
  cbn [Utilities.assign_each]. rewrite <- IH.
  unfold Utilities.sanitize_member. destruct v; reflexivity.
Qed.

Lemma sanitizeData_arr (items : list value) :
  sanitizeData (VArr items) = VArr (sanitize_items items 0).
Proof.
  cbn [Utilities.sanitizeData]. f_equal.
  generalize 0.
  induction items as [|v rest IH]; intros index; [reflexivity|].
  cbn [Utilities.sanitize_items]. rewrite <- IH.
  unfold Utilities.sanitize_member. destruct v; reflexivity.
Qed.

Lemma redacted_under_obj (props : list (jsstring * value)) :
  redacted_under (VObj props)
  <-> Forall (fun kv => member_redacted (fst kv) (snd kv)) props.
Proof.
  cbn [Shape.redacted_under].
  induction props as [|[k v] rest IH].
  - split; [constructor | trivial].
  - split.
    + intros [Hv Hrest]. constructor; [exact Hv | now apply IH].
    + intros H. inversion H as [|? ? Hv Hrest]; subst.
      split; [exact Hv | now apply IH].
Qed.

Lemma redacted_under_arr (items : list value) :
  redacted_under (VArr items) <-> items_redacted items 0.
Proof.
  cbn [Shape.redacted_under]. generalize 0.
  induction items as [|v rest IH]; intros index.
  - split; trivial.
  - cbn [Shape.items_redacted]. split.
    + intros [Hv Hrest]. split; [exact Hv | now apply IH].
    + intros [Hv Hrest]. split; [exact Hv | now apply IH].
Qed.

(** *** What [sanitizeData] returns *)

Lemma sanitize_member_redacted (k : jsstring) (v : value) :
  redacted_under (sanitizeData v) -> member_redacted k (sanitize_member k v).
Proof.
  intros H. unfold Shape.member_redacted, Utilities.sanitize_member.
  now destruct (isSensitive k).
Qed.

Lemma sanitize_member_well_formed (k : jsstring) (v : value) :
  Shape.well_formed (sanitizeData v) = true ->
  Shape.well_formed (sanitize_member k v) = true.
Proof.
  intros H. unfold Utilities.sanitize_member. now destruct (isSensitive k).
Qed.

Lemma sanitizeData_well_formed (v : value) :
  Shape.well_formed (sanitizeData v) = true.
Proof.
  induction v as [s|props IH|items IH] using value_ind_nested.
  - reflexivity.
  - rewrite sanitizeData_obj, well_formed_obj.
    rewrite distinct_keys_assign_each by reflexivity.
    rewrite no_proto_assign_each. cbn [andb].
    apply forallb_forall. intros kv Hin.
    destruct (in_assign_each _ _ _ _ Hin) as [[]|(k & x & Hx & -> & _)].
    { cbn [snd]. apply sanitize_member_well_formed.
      rewrite Forall_forall in IH. exact (IH _ Hx). }
  - rewrite sanitizeData_arr, well_formed_arr. generalize 0.
    induction IH as [|x rest Hx _ IHrest]; intros index; [reflexivity|].
    cbn [Utilities.sanitize_items forallb].
    now rewrite (sanitize_member_well_formed _ _ Hx), IHrest.
Qed.

Lemma sanitizeData_redacted (v : value) : redacted_under (sanitizeData v).
Proof.
  induction v as [s|props IH|items IH] using value_ind_nested.
  - exact I.
  - rewrite sanitizeData_obj. apply redacted_under_obj, Forall_forall.
    intros kv Hin.
    destruct (in_assign_each _ _ _ _ Hin) as [[]|(k & x & Hx & -> & _)].
    cbn [fst snd]. apply sanitize_member_redacted.
    rewrite Forall_forall in IH. exact (IH _ Hx).
  - rewrite sanitizeData_arr. apply redacted_under_arr. generalize 0.
    induction IH as [|x rest Hx _ IHrest]; intros index; [exact I|].
    cbn [Utilities.sanitize_items Shape.items_redacted].
    split; [now apply sanitize_member_redacted | apply IHrest].
Qed.

Lemma sanitize_member_fixed (k : jsstring) (v : value) :
  (redacted_under v -> sanitizeData v = v) ->
  member_redacted k v -> sanitize_member k v = v.
Proof.
  unfold Shape.member_redacted, Utilities.sanitize_member.
  destruct (isSensitive k); [congruence | auto].
Qed.

Lemma sanitizeData_fixes_redacted (v : value) :
  Shape.well_formed v = true -> redacted_under v -> sanitizeData v = v.
Proof.
  induction v as [s|props IH|items IH] using value_ind_nested; intros Hwf Hred.
  - reflexivity.
  - rewrite well_formed_obj in Hwf. apply andb_true_iff in Hwf.
    destruct Hwf as [Hkeys Hwf]. apply andb_true_iff in Hkeys.
    destruct Hkeys as [Hkeys Hproto]. rewrite forallb_forall in Hwf.
    apply redacted_under_obj in Hred. rewrite Forall_forall in Hred, IH.
    rewrite sanitizeData_obj, assign_each_distinct by assumption.
    cbn [app]. f_equal.
    rewrite <- (map_id props) at 2. apply map_ext_in.
    intros [k x] Hin. cbn [fst snd]. f_equal.
    apply sanitize_member_fixed; [|exact (Hred _ Hin)].
    apply (IH _ Hin). exact (Hwf _ Hin).
  - rewrite well_formed_arr in Hwf. apply redacted_under_arr in Hred.
    rewrite sanitizeData_arr. f_equal. revert Hwf Hred. generalize 0.
    induction IH as [|x rest Hx _ IHrest]; intros index Hwf Hred; [reflexivity|].
    cbn [forallb] in Hwf. apply andb_true_iff in Hwf. destruct Hwf as [Hwx Hwrest].
    destruct Hred as [Hrx Hrrest].
    cbn [Utilities.sanitize_items].
    rewrite (sanitize_member_fixed _ _ (Hx Hwx) Hrx).
    now rewrite (IHrest _ Hwrest Hrrest).
Qed.

Lemma sanitized_property (data : value) (props : list (jsstring * value))
  (k : jsstring) (x : value) :
  sanitizeData data = VObj props ->
  In (k, x) props -> isSensitive k = true -> x = Utilities.redacted.
Proof.
  intros Hdata Hin Hk.
  pose proof (sanitizeData_redacted data) as H. rewrite Hdata in H.
  apply redacted_under_obj in H. rewrite Forall_forall in H.
  specialize (H _ Hin). unfold Shape.member_redacted in H. cbn [fst snd] in H.
  now rewrite Hk in H.
Qed.

Lemma sanitizeData_ignores_sensitive_value (k : jsstring) (x y : value)
  (rest : list (jsstring * value)) :
  isSensitive k = true ->
  sanitizeData (VObj ((k, x) :: rest)) = sanitizeData (VObj ((k, y) :: rest)).
Proof.
  intros Hk. rewrite !sanitizeData_obj. cbn [Utilities.assign_each].
  replace (sanitize_member k x) with (sanitize_member k y); [reflexivity|].
  unfold Utilities.sanitize_member. now rewrite Hk.
Qed.

(** Whatever it is given, [sanitizeData] returns a value in which every
    property or array item whose key is sensitive (one of the sensitive
    fields occurs in the lower-cased key) is the string [[REDACTED]], at
    every depth. *)
Theorem sanitizeData_leaves_nothing_sensitive (data : value) :
  redacted_under (sanitizeData data)
  /\ (forall props k x,
        sanitizeData data = VObj props ->
        In (k, x) props -> isSensitive k = true -> x = Utilities.redacted).
Proof.
  split; [apply sanitizeData_redacted | apply sanitized_property].
Qed.

(** Sanitizing twice is sanitizing once. *)
Theorem sanitizeData_idempotent (data : value) :
  sanitizeData (sanitizeData data) = sanitizeData data.
Proof.
  apply sanitizeData_fixes_redacted;
    [apply sanitizeData_well_formed | apply sanitizeData_redacted].
Qed.

(** On a value whose objects have distinct property names, none of them
    [__proto__], [sanitizeData] changes nothing exactly when nothing is left
    to redact: every value under a sensitive key is the redaction mark
    already. *)
Theorem sanitizeData_fixed_points (data : value) :
  Shape.well_formed data = true ->
  (sanitizeData data = data <-> redacted_under data).
Proof.
  intros Hwf. split.
  - intros H. rewrite <- H. apply sanitizeData_redacted.
  - now apply sanitizeData_fixes_redacted.
Qed.

End SanitizeProperties.

Section CloneProperties.

Import Renest.

Lemma deepClone_obj (props : list (jsstring * value)) :
  Utilities.deepClone (VObj props)
  = match Utilities.clone_properties props props [] with
    | Rejected e => Rejected e
    | Fulfilled cloned => Fulfilled (VObj cloned)
    end.
Proof.
  cbn [Utilities.deepClone].
  match goal with
  | |- match ?each props [] with _ => _ end = _ =>
      enough (H : forall rest cloned,
                 each rest cloned = Utilities.clone_properties props rest cloned)
        by now rewrite H
  end.
  induction rest as [|[k v] rest IH]; intros cloned; [reflexivity|].
  cbn [Utilities.clone_properties].
  destruct (API.hasOwnProperty props k) as [[|]|e]; [|apply IH|reflexivity].
  destruct (Utilities.deepClone v); [apply IH | reflexivity].
Qed.

Lemma deepClone_arr (items : list value) :
  Utilities.deepClone (VArr items)
  = match Utilities.clone_items items with
    | Rejected e => Rejected e
    | Fulfilled clones => Fulfilled (VArr clones)
    end.
Proof.
  cbn [Utilities.deepClone].
  match goal with
  | |- match ?map items with _ => _ end = _ =>
      enough (H : map items = Utilities.clone_items items) by now rewrite H
  end.
  induction items as [|item rest IH]; [reflexivity|].
  cbn [Utilities.clone_items]. now rewrite IH.
Qed.

Lemma clone_items_inherited (items : list value) :
  Forall (fun v => Shape.well_formed v = true ->
                   Utilities.deepClone v
                   = if Shape.inherits_hasOwnProperty v
                     then Fulfilled v
                     else Rejected API.not_a_function) items ->
  forallb Shape.well_formed items = true ->
  Utilities.clone_items items
  = if forallb Shape.inherits_hasOwnProperty items
    then Fulfilled items
    else Rejected API.not_a_function.
Proof.
  intros HP. induction HP as [|item rest Hitem _ IH]; intros Hwf; [reflexivity|].
  cbn [forallb] in Hwf. apply andb_true_iff in Hwf. destruct Hwf as [Hwf Hrest].
  cbn [Utilities.clone_items forallb]. rewrite (Hitem Hwf), (IH Hrest).
  destruct (Shape.inherits_hasOwnProperty item),
    (forallb Shape.inherits_hasOwnProperty rest); reflexivity.
Qed.

Lemma clone_properties_inherited (props : list (jsstring * value)) :
  Shape.inherits_method props = true ->
  forall rest,
    Forall (fun kv => Shape.well_formed (snd kv) = true ->
                      Utilities.deepClone (snd kv)
                      = if Shape.inherits_hasOwnProperty (snd kv)
                        then Fulfilled (snd kv)
                        else Rejected API.not_a_function) rest ->
    forallb (fun kv => Shape.well_formed (snd kv)) rest = true ->
    (forall k v, In (k, v) rest -> In (k, v) props) ->
    forall cloned,
      Utilities.clone_properties props rest cloned
      = if forallb (fun kv => Shape.inherits_hasOwnProperty (snd kv)) rest
        then Fulfilled (Utilities.assign_each (fun _ v => v) rest cloned)
        else Rejected API.not_a_function.
Proof.
  intros Hmethod rest HP.
  induction HP as [|[k v] rest Hv _ IH]; intros Hwf Hin cloned; [reflexivity|].
  cbn [forallb snd] in Hwf, Hv. apply andb_true_iff in Hwf.
  destruct Hwf as [Hwf Hrest].
  cbn [Utilities.clone_properties Utilities.assign_each forallb snd].
  unfold API.hasOwnProperty. unfold Shape.inherits_method in Hmethod.
  destruct (lookup (str "hasOwnProperty") props); [discriminate|].
  destruct (lookup_member k v props (Hin k v (or_introl eq_refl))) as [x ->].
  rewrite (Hv Hwf).
  destruct (Shape.inherits_hasOwnProperty v); [|reflexivity].
  cbn [andb]. apply (IH Hrest). intros k' v' H. apply Hin. now right.
Qed.

Lemma clone_properties_shadowed (props : list (jsstring * value)) :
  Shape.inherits_method props = false ->
  Utilities.clone_properties props props [] = Rejected API.not_a_function.
Proof.
  unfold Shape.inherits_method. intros Hmethod.
  destruct props as [|[k v] rest]; [discriminate|].
  cbn [Utilities.clone_properties]. unfold API.hasOwnProperty.
  now destruct (lookup (str "hasOwnProperty") ((k, v) :: rest)).
Qed.

Lemma deepClone_by_cases (obj : value) :
  Shape.well_formed obj = true ->
  Utilities.deepClone obj
  = if Shape.inherits_hasOwnProperty obj
    then Fulfilled obj
    else Rejected API.not_a_function.
Proof.
  induction obj as [s|props IH|items IH] using value_ind_nested; intros Hwf.
  - reflexivity.
  - rewrite well_formed_obj in Hwf. apply andb_true_iff in Hwf.
    destruct Hwf as [Hkeys Hwf]. apply andb_true_iff in Hkeys.
    destruct Hkeys as [Hkeys Hproto].
    rewrite deepClone_obj, inherits_obj.
    destruct (Shape.inherits_method props) eqn:Hmethod.
    + rewrite (clone_properties_inherited props Hmethod props IH Hwf) by auto.
      cbn [andb].
      destruct (forallb (fun kv => Shape.inherits_hasOwnProperty (snd kv)) props);
        [|reflexivity].
      rewrite assign_each_distinct by assumption.
      cbn [app]. do 2 f_equal.
      rewrite <- (map_id props) at 2. apply map_ext. now intros [k x].
    + now rewrite (clone_properties_shadowed props Hmethod).
  - rewrite well_formed_arr in Hwf.
    rewrite deepClone_arr, inherits_arr, (clone_items_inherited items IH Hwf).
    now destruct (forallb Shape.inherits_hasOwnProperty items).
Qed.

(** The clone of a value whose objects have distinct property names, none
    of them [__proto__] or [hasOwnProperty], is equal to the value: same
    properties, in the same order, with equal values, at every depth.  If
    an object of the value has a property named [hasOwnProperty], there is
    no clone: the call throws a [TypeError]. *)
Theorem deepClone_returns_an_equal_value (obj : value) :
  Shape.well_formed obj = true ->
  (Shape.inherits_hasOwnProperty obj = true ->
   Utilities.deepClone obj = Fulfilled obj)
  /\ (Shape.inherits_hasOwnProperty obj = false ->
      Utilities.deepClone obj = Rejected (JsError (str "obj.hasOwnProperty is not a function"))).
Proof.
  intros Hwf. rewrite (deepClone_by_cases obj Hwf).
  split; now intros ->.
Qed.

End CloneProperties.


Lemma sanitizeData_fixed_points_witness :
  let data := VObj [(str "user", VStr "ada"); (str "apiKey", Utilities.redacted)] in
  Utilities.sanitizeData Examples.ascii_lower Utilities.default_sensitiveFields data
  = data
  <-> Shape.redacted_under
        (Utilities.isSensitive Examples.ascii_lower Utilities.default_sensitiveFields)
        data.
Proof.
  apply (sanitizeData_fixed_points Examples.ascii_lower
           Utilities.default_sensitiveFields
           (VObj [(str "user", VStr "ada"); (str "apiKey", Utilities.redacted)])).
  reflexivity.
Defined.

Lemma deepClone_returns_an_equal_value_witness :
  (Shape.inherits_hasOwnProperty Examples.nested_record = true ->
   Utilities.deepClone Examples.nested_record = Fulfilled Examples.nested_record)
  /\ (Shape.inherits_hasOwnProperty Examples.nested_record = false ->
      Utilities.deepClone Examples.nested_record
      = Rejected (JsError (str "obj.hasOwnProperty is not a function"))).
Proof.
  apply (deepClone_returns_an_equal_value Examples.nested_record). reflexivity.
Defined.

(* ================================================================== *)
(** * Properties of utils.js: formatted errors *)
(* ================================================================== *)

Section FormatErrorProperties.

Variable toLowerCase : jsstring -> jsstring.

Local Abbreviation sanitize :=
  (Utilities.sanitizeData toLowerCase Utilities.default_sensitiveFields).
Local Abbreviation formatError := (Utilities.formatError toLowerCase).

Lemma formatError_headers (timestamp : jsstring) (error context : value) :
  get (str "headers") (get (str "request") (formatError timestamp error context))
  = if truthy (get (str "config") error)
    then sanitize (get (str "headers") (get (str "config") error))
    else VScalar SUndefined.
Proof.
  unfold Utilities.formatError.
  destruct (truthy (get (str "response") error)), (truthy (get (str "config") error));
    reflexivity.
Qed.

(** The headers of the failed request come out of [formatError] without
    the [Authorization] header: it reads [[REDACTED]] whatever the headers
    were.  So the formatted error of a request made with the default headers
    of a configuration does not depend on the [keySecret]: two
    configurations that differ only in the secret give the same formatted
    error.  ([toLowerCase] is any function that lower-cases
    [Authorization].) *)
Theorem formatError_hides_the_secret
  (lower_authorization : toLowerCase (str "Authorization") = str "authorization")
  (timestamp : jsstring) (context : value) :
  (forall error props x,
      get (str "headers") (get (str "request") (formatError timestamp error context))
      = VObj props ->
      In (str "Authorization", x) props -> x = Utilities.redacted)
  /\ (forall c1 c2 headers1 headers2 message method url response,
        Spec.differ_only_in_keySecret c1 c2 ->
        Config.getDefaultHeaders c1 = Some headers1 ->
        Config.getDefaultHeaders c2 = Some headers2 ->
        formatError timestamp
          (Spec.request_error message method url headers1 response) context
        = formatError timestamp
            (Spec.request_error message method url headers2 response) context).
Proof.
  assert (Hsensitive :
            Utilities.isSensitive toLowerCase Utilities.default_sensitiveFields
              (str "Authorization") = true).
  { unfold Utilities.isSensitive. rewrite lower_authorization. reflexivity. }
  split.
  - intros error props x Hprops Hin. rewrite formatError_headers in Hprops.
    destruct (truthy (get (str "config") error)); [|discriminate Hprops].
    exact (sanitized_property toLowerCase Utilities.default_sensitiveFields
             _ props (str "Authorization") x Hprops Hin Hsensitive).
  - intros c1 c2 headers1 headers2 message method url response Hdiff H1 H2.
    destruct Hdiff as (Hid & _ & _ & _ & _ & _ & _ & Hver & Hua & _ & Hn & Hv & He).
    unfold Config.getDefaultHeaders, Config.getAuthHeader, Config.getApiKey in H1, H2.
    rewrite <- Hid, <- Hver, <- Hua, <- Hn, <- Hv, <- He in H2.
    destruct (Config.keyId c1) as [id|]; [|discriminate H1].
    destruct (Config.keySecret c1) as [s1|]; [|discriminate H1].
    destruct (Config.keySecret c2) as [s2|]; [|discriminate H2].
    injection H1 as <-. injection H2 as <-.
    assert (Hform : forall h,
               formatError timestamp
                 (Spec.request_error message method url h response) context
               = VObj (assign (str "request")
                         (VObj [(str "method", method); (str "url", url);
                                (str "headers", sanitize h)])
                         (if truthy response
                          then assign (str "httpData") (get (str "data") response)
                                 (assign (str "httpStatus")
                                    (get (str "status") response)
                                    [(str "message", message);
                                     (str "name", VStr "AxiosError");
                                     (str "stack", VScalar SUndefined);
                                     (str "timestamp", VScalar (SStr timestamp));
                                     (str "context", sanitize context)])
                          else [(str "message", message);
                                (str "name", VStr "AxiosError");
                                (str "stack", VScalar SUndefined);
                                (str "timestamp", VScalar (SStr timestamp));
                                (str "context", sanitize context)])))
      by (intros h; reflexivity).
    rewrite !Hform.
    rewrite (sanitizeData_ignores_sensitive_value toLowerCase
               Utilities.default_sensitiveFields (str "Authorization") _
               (VScalar (SStr (str "Bearer " ++ id ++ str "." ++ s2))) _ Hsensitive).
    reflexivity.
Qed.

End FormatErrorProperties.

Lemma formatError_hides_the_secret_witness :
  (forall error props x,
      get (str "headers")
        (get (str "request")
           (Utilities.formatError Examples.ascii_lower (str "2024-01-01T00:00:00.000Z")
              error (VObj [])))
      = VObj props ->
      In (str "Authorization", x) props -> x = Utilities.redacted)
  /\ (forall c1 c2 headers1 headers2 message method url response,
        Spec.differ_only_in_keySecret c1 c2 ->
        Config.getDefaultHeaders c1 = Some headers1 ->
        Config.getDefaultHeaders c2 = Some headers2 ->
        Utilities.formatError Examples.ascii_lower (str "2024-01-01T00:00:00.000Z")
          (Spec.request_error message method url headers1 response) (VObj [])
        = Utilities.formatError Examples.ascii_lower (str "2024-01-01T00:00:00.000Z")
            (Spec.request_error message method url headers2 response) (VObj [])).
Proof.
  apply (formatError_hides_the_secret Examples.ascii_lower). reflexivity.
Defined.

(* ================================================================== *)
(** * Properties of utils.js: the format tests *)
(* ================================================================== *)

Section FormatTests.

Import Utilities.

Lemma many_matches (class : char -> bool) (k : jsstring -> bool) (s : jsstring) :
  matches (Many class) s k = true
  <-> exists m rest, s = m ++ rest /\ (m <> [] /\ forallb class m = true)
                     /\ k rest = true.
Proof.
  induction s as [|c s IH].
  - split; [discriminate|].
    intros (m & rest & Hs & [Hm _] & _). symmetry in Hs.
    apply app_eq_nil in Hs. destruct Hs as [-> _]. congruence.
  - change (matches (Many class) (c :: s) k)
      with (class c && (matches (Many class) s k || k s)).
    rewrite andb_true_iff, orb_true_iff, IH. split.
    + intros [Hc [(m & rest & -> & [_ Hm] & Hk)|Hk]].
      * exists (c :: m), rest. cbn [forallb app]. rewrite Hc, Hm.
        repeat split; [discriminate | exact Hk].
      * exists [c], s. cbn [forallb app]. rewrite Hc.
        repeat split; [discriminate | exact Hk].
    + intros ([|c' m] & rest & Hs & [Hne Hm] & Hk); [congruence|].
      cbn [app] in Hs. injection Hs as <- ->.
      cbn [forallb] in Hm. apply andb_true_iff in Hm. destruct Hm as [Hc Hm].
      split; [exact Hc|].
      destruct m as [|c'' m]; [right; exact Hk|].
      left. exists (c'' :: m), rest. repeat split; [discriminate | exact Hm | exact Hk].
Qed.

(** The backtracking matcher accepts exactly the splits of the input into
    a string of the pattern's language and a rest that the continuation
    accepts. *)
Lemma matches_language (r : regex) :
  forall (s : jsstring) (k : jsstring -> bool),
    matches r s k = true
    <-> exists m rest, s = m ++ rest /\ Spec.language r m /\ k rest = true.
Proof.
  induction r as [class|class|r IH|r1 IH1 r2 IH2]; intros s k.
  - destruct s as [|c s]; cbn [matches Spec.language].
    + split; [discriminate|].
      intros (m & rest & Hs & (c & -> & _) & _). discriminate Hs.
    + rewrite andb_true_iff. split.
      * intros [Hc Hk]. exists [c], s. repeat split; [|exact Hk]. now exists c.
      * intros (m & rest & Hs & (c' & -> & Hc) & Hk). cbn [app] in Hs.
        injection Hs as <- <-. auto.
  - apply many_matches.
  - cbn [matches Spec.language]. rewrite orb_true_iff, IH. split.
    + intros [(m & rest & -> & Hm & Hk)|Hk].
      * exists m, rest. auto.
      * exists [], s. auto.
    + intros (m & rest & -> & [->|Hm] & Hk).
      * now right.
      * left. exists m, rest. auto.
  - cbn [matches Spec.language]. rewrite IH1. split.
    + intros (a & rest & -> & Ha & Hk). apply IH2 in Hk.
      destruct Hk as (b & rest' & -> & Hb & Hk).
      exists (a ++ b), rest'. rewrite app_assoc. repeat split; [|exact Hk].
      exists a, b. auto.
    + intros (m & rest & -> & (a & b & -> & Ha & Hb) & Hk).
      exists a, (b ++ rest). rewrite app_assoc. repeat split; [exact Ha|].
      apply IH2. exists b, rest. auto.
Qed.

Lemma test_language (r : regex) (s : jsstring) :
  test r s = true <-> Spec.language r s.
Proof.
  unfold test. rewrite matches_language. split.
  - intros (m & [|c rest] & -> & Hm & Hk); [|discriminate Hk].
    now rewrite app_nil_r.
  - intros H. exists s, []. now rewrite app_nil_r.
Qed.

Lemma is_code_eq (code : N) (c : char) : is_code code c = true <-> c = code.
Proof. unfold is_code. apply N.eqb_eq. Qed.

Lemma email_part_plain (part : jsstring) :
  Spec.email_part part ->
  filter (is_code 64) part = []
  /\ forallb (fun c => negb (is_whitespace c)) part = true.
Proof.
  intros [_ H]. induction part as [|c part IH]; [split; reflexivity|].
  cbn [forallb] in H. apply andb_true_iff in H. destruct H as [Hc H].
  destruct (IH H) as [IH1 IH2]. cbn [filter forallb].
  unfold not_space_or_at in Hc. apply negb_true_iff, orb_false_iff in Hc.
  destruct Hc as [Hspace Hat]. now rewrite Hat, Hspace, IH1, IH2.
Qed.

(** [isValidEmail] accepts exactly the strings of the form
    [local@domain.rest] whose three parts are non-empty and hold neither
    white space nor [@] (dots are allowed in each part).  So an accepted
    address has exactly one [@], no white space and at least five code
    units. *)
Theorem isValidEmail_accepts_exactly (email : jsstring) :
  (isValidEmail email = true
   <-> exists local domain rest,
         email = local ++ [64%N] ++ domain ++ [46%N] ++ rest
         /\ Spec.email_part local /\ Spec.email_part domain /\ Spec.email_part rest)
  /\ (isValidEmail email = true ->
      length (filter (is_code 64) email) = 1
      /\ forallb (fun c => negb (is_whitespace c)) email = true
      /\ 5 <= length email).
Proof.
  assert (Hiff : isValidEmail email = true
                 <-> exists local domain rest,
                       email = local ++ [64%N] ++ domain ++ [46%N] ++ rest
                       /\ Spec.email_part local /\ Spec.email_part domain
                       /\ Spec.email_part rest).
  { unfold isValidEmail. rewrite test_language.
    unfold emailRegex, Spec.email_part. cbn [Spec.language]. split.
    - intros (local & b1 & -> & Hlocal & a2 & b2 & -> & (c & -> & Hc)
              & domain & b3 & -> & Hdomain & a4 & rest & -> & (c' & -> & Hc') & Hrest).
      apply is_code_eq in Hc, Hc'. subst c c'.
      exists local, domain, rest. auto.
    - intros (local & domain & rest & -> & Hlocal & Hdomain & Hrest).
      exists local, ([64%N] ++ domain ++ [46%N] ++ rest).
      repeat split; try apply Hlocal.
      exists [64%N], (domain ++ [46%N] ++ rest).
      repeat split; [now exists 64%N|].
      exists domain, ([46%N] ++ rest).
      repeat split; try apply Hdomain.
      exists [46%N], rest.
      repeat split; try apply Hrest. now exists 46%N. }
  split; [exact Hiff|].
  intros H. apply Hiff in H.
  destruct H as (local & domain & rest & -> & Hlocal & Hdomain & Hrest).
  destruct (email_part_plain _ Hlocal) as [Hl1 Hl2].
  destruct (email_part_plain _ Hdomain) as [Hd1 Hd2].
  destruct (email_part_plain _ Hrest) as [Hr1 Hr2].
  unfold char in *. split; [|split].
  - rewrite !filter_app, Hl1, Hd1, Hr1. reflexivity.
  - rewrite !forallb_app, Hl2, Hd2, Hr2. reflexivity.
  - destruct Hlocal as [Hl _], Hdomain as [Hd _], Hrest as [Hr _].
    rewrite !length_app. cbn [length].
    destruct local; [now elim Hl|]. destruct domain; [now elim Hd|].
    destruct rest; [now elim Hr|]. cbn [length]. lia.
Qed.

(** [isValidPhone] accepts exactly the strings made of an optional leading
    [+] and then, at least once, digits, white space, hyphens and
    parentheses, with ten digits or more among them; so an accepted number
    has at least ten code units. *)
Theorem isValidPhone_accepts_exactly (phone : jsstring) :
  (isValidPhone phone = true
   <-> (exists body,
           (phone = body \/ phone = 43%N :: body)
           /\ body <> [] /\ forallb phone_class body = true)
       /\ 10 <= length (digits_of phone))
  /\ (isValidPhone phone = true -> 10 <= length phone).
Proof.
  assert (Hiff : isValidPhone phone = true
                 <-> (exists body,
                         (phone = body \/ phone = 43%N :: body)
                         /\ body <> [] /\ forallb phone_class body = true)
                     /\ 10 <= length (digits_of phone)).
  { unfold isValidPhone. rewrite andb_true_iff, test_language, Nat.leb_le.
    unfold phoneRegex. cbn [Spec.language].
    split; intros [Hre Hlen]; (split; [|exact Hlen]).
    - destruct Hre as (a & body & -> & [->|(c & -> & Hc)] & Hne & Hbody).
      + exists body. auto.
      + apply is_code_eq in Hc. subst c. exists body. auto.
    - destruct Hre as (body & [->| ->] & Hne & Hbody).
      + exists [], body. auto.
      + exists [43%N], body. repeat split; auto. right. now exists 43%N. }
  split; [exact Hiff|].
  intros H. apply Hiff in H. destruct H as [_ Hlen].
  unfold digits_of in Hlen.
  pose proof (filter_length_le Middleware.is_digit phone). lia.
Qed.

End FormatTests.

Lemma validated_user_passes_the_guard_witness :
  Spec.user_guard Examples.user_record = true
  /\ truthy (get (str "externalId") Examples.user_record) = true
  /\ truthy (get (str "name") Examples.user_record) = true
  /\ truthy (get (str "email") Examples.user_record) = true
  /\ Examples.email_test (get (str "email") Examples.user_record) = true
  /\ API.sendUserData Examples.accepting Examples.no_files Examples.file_name
       Config.new Examples.user_record [] Examples.start
     = retryRequest Config.new
         (API.send_once Examples.accepting Examples.no_files Examples.file_name
            (str "/data/users") Examples.user_record [])
         None Examples.start.
Proof.
  apply (validated_user_passes_the_guard nat Examples.accepting Examples.no_files
           Examples.file_name Config.new Examples.email_test Examples.phone_test
           Examples.user_record [] Examples.start).
  vm_compute. reflexivity.
Defined.

Lemma validated_entry_passes_the_guard_witness :
  Spec.entry_guard Examples.event_entry = true
  /\ Utilities.includes (get (str "dataType") Examples.event_entry) = true
  /\ truthy (get (str "data") Examples.event_entry) = true
  /\ typeof_object (get (str "data") Examples.event_entry) = true
  /\ API.sendEntryData Examples.accepting Examples.no_files Examples.file_name
       Config.new Examples.event_entry [] Examples.start
     = retryRequest Config.new
         (API.send_once Examples.accepting Examples.no_files Examples.file_name
            (str "/data/entries") Examples.event_entry [])
         None Examples.start.
Proof.
  apply (validated_entry_passes_the_guard nat Examples.accepting Examples.no_files
           Examples.file_name Config.new Examples.email_test Examples.phone_test
           Examples.event_entry [] Examples.start).
  vm_compute. reflexivity.
Defined.

(* ================================================================== *)
(** * Properties of utils.js: retry with backoff *)
(* ================================================================== *)

Section BackoffProperties.

Variables W V E : Type.
Variable fn : W -> settled V E * W.
Variable onError : option (Utilities.callback W E).

Local Abbreviation retry_from := (@Utilities.retry_from W V E).

(** The loop, one iteration unfolded. *)
Lemma retry_from_unfold (attempts cap factor attempt delay : Z)
  (lastError : option E) (w : W) (tr : list Utilities.backoff_event) :
  retry_from attempts cap factor fn onError attempt delay lastError (w, tr)
  = if (attempt <=? attempts)%Z then
      match fn w with
      | (Fulfilled v, w1) => (Fulfilled v, (w1, tr ++ [Utilities.Try attempt]))
      | (Rejected error, w1) =>
          match Utilities.notify onError error attempt w1 with
          | (Some thrown, w2, told) =>
              (Rejected (Some thrown), (w2, tr ++ Utilities.Try attempt :: told))
          | (None, w2, told) =>
              if (attempt =? attempts)%Z
              then (Rejected (Some error), (w2, tr ++ Utilities.Try attempt :: told))
              else retry_from attempts cap factor fn onError (attempt + 1)
                     (Z.min (delay * factor) cap) (Some error)
                     (w2, tr ++ Utilities.Try attempt :: told
                             ++ [Utilities.Retrying attempt delay;
                                 Utilities.Wait delay])
          end
      end
    else (Rejected lastError, (w, tr)).
Proof.
  rewrite Utilities.retry_from_equation_1.
  destruct (Z_le_gt_dec attempt attempts) as [Hle|Hgt]; simpl.
  - replace (attempt <=? attempts)%Z with true by (symmetry; apply Z.leb_le; lia).
    destruct (fn w) as [[v|error] w1]; simpl; [reflexivity|].
    destruct (Utilities.notify onError error attempt w1) as [[[thrown|] w2] told];
      simpl; [reflexivity|].
    destruct (Z.eq_dec attempt attempts) as [Heq|Hne]; simpl.
    + replace (attempt =? attempts)%Z with true by (symmetry; apply Z.eqb_eq; lia).
      reflexivity.
    + replace (attempt =? attempts)%Z with false by (symmetry; apply Z.eqb_neq; lia).
      reflexivity.
  - replace (attempt <=? attempts)%Z with false by (symmetry; apply Z.leb_gt; lia).
    reflexivity.
Qed.

Lemma tries_of_app (a b : list Utilities.backoff_event) :
  Spec.tries_of (a ++ b) = Spec.tries_of a ++ Spec.tries_of b.
Proof. induction a as [|[k|k|k d|ms] a IH]; simpl; rewrite ?IH; reflexivity. Qed.

Lemma notices_of_app (a b : list Utilities.backoff_event) :
  Spec.notices_of (a ++ b) = Spec.notices_of a ++ Spec.notices_of b.
Proof. induction a as [|[k|k|k d|ms] a IH]; simpl; rewrite ?IH; reflexivity. Qed.

Lemma waits_of_app (a b : list Utilities.backoff_event) :
  Spec.waits_of (a ++ b) = Spec.waits_of a ++ Spec.waits_of b.
Proof. induction a as [|[k|k|k d|ms] a IH]; simpl; rewrite ?IH; reflexivity. Qed.

Lemma notify_quiet (error : E) (attempt : Z) (w : W) :
  @Spec.never_throws W E onError ->
  exists w',
    Utilities.notify onError error attempt w
    = (None, w', match onError with Some _ => [Utilities.Notify attempt] | None => [] end).
Proof.
  intros Hq. unfold Utilities.notify. destruct onError as [f|]; [|now exists w].
  specialize (Hq f eq_refl error attempt w).
  destruct (f error attempt w) as [thrown w']. cbn [fst] in Hq. subst thrown.
  now exists w'.
Qed.

Lemma retry_from_all_fail_from (attempts cap factor : Z) (k : nat) :
  Spec.always_fails fn ->
  @Spec.never_throws W E onError ->
  forall (attempt delay : Z) (lastError : option E) (w : W)
         (tr : list Utilities.backoff_event),
    (attempt + Z.of_nat k = attempts)%Z ->
    exists e w' tail,
      retry_from attempts cap factor fn onError attempt delay lastError (w, tr)
      = (Rejected (Some e), (w', tr ++ tail))
      /\ (exists w0, fst (fn w0) = Rejected e)
      /\ Spec.tries_of tail = Spec.zseq attempt (S k)
      /\ Spec.waits_of tail = Spec.backoff delay factor cap k
      /\ Spec.notices_of tail
         = match onError with Some _ => Spec.zseq attempt (S k) | None => [] end.
Proof.
  intros Hfail Hquiet.
  induction k as [|k IH]; intros attempt delay lastError w tr Hk;
    rewrite retry_from_unfold;
    (replace (attempt <=? attempts)%Z with true by (symmetry; apply Z.leb_le; lia));
    destruct (Hfail w) as [e He];
    destruct (fn w) as [[v|e'] w1] eqn:Hw; cbn [fst] in He; try discriminate He;
    injection He as ->;
    destruct (notify_quiet e attempt w1 Hquiet) as [w2 ->].
  - replace (attempt =? attempts)%Z with true by (symmetry; apply Z.eqb_eq; lia).
    exists e, w2. eexists. split; [reflexivity|].
    split; [exists w; now rewrite Hw|].
    destruct onError; repeat split.
  - replace (attempt =? attempts)%Z with false by (symmetry; apply Z.eqb_neq; lia).
    destruct (IH (attempt + 1)%Z (Z.min (delay * factor) cap) (Some e) w2
                (tr ++ Utilities.Try attempt
                    :: match onError with
                       | Some _ => [Utilities.Notify attempt]
                       | None => []
                       end
                    ++ [Utilities.Retrying attempt delay; Utilities.Wait delay]))
      as (e1 & w' & tail & Hrun & Hfrom & Htries & Hwaits & Hnotices); [lia|].
    exists e1, w'. eexists. split; [|split; [exact Hfrom|]].
    + rewrite Hrun. rewrite <- app_assoc. reflexivity.
    + cbn [app Spec.tries_of Spec.waits_of Spec.notices_of].
      rewrite tries_of_app, waits_of_app, notices_of_app, Htries, Hwaits, Hnotices.
      destruct onError; repeat split.
Qed.

Lemma backoff_capped (factor cap : Z) (n : nat) :
  forall delay, Forall (fun ms => (ms <= cap)%Z) (tl (Spec.backoff delay factor cap n)).
Proof.
  induction n as [|n IH]; intros delay; [constructor|].
  cbn [Spec.backoff tl]. destruct n as [|n]; [constructor|].
  specialize (IH (Z.min (delay * factor) cap)). cbn [Spec.backoff tl] in IH |- *.
  constructor; [lia | exact IH].
Qed.

End BackoffProperties.

Section BackoffOutcomes.

Variables W V E : Type.
Variable fn : W -> settled V E * W.

(** [retry] on a function that fails whenever it is called, with a callback
    that does not throw and a ceiling [N] of at least one: [fn] is called
    exactly [N] times and the call rejects with an error [fn] gave; the
    callback, when there is one, is told of every failure; between the
    attempts the call sleeps [N - 1] times, first [initialDelay] and then
    each time the previous delay times [backoffFactor] capped at
    [maxDelay], so that every sleep but the first is at most [maxDelay]. *)
Theorem retry_backs_off (options : Utilities.retry_options W E) (w : W) :
  let N := Utilities.default (Utilities.maxAttempts options) 3 in
  let D := Utilities.default (Utilities.initialDelay options) 1000 in
  let C := Utilities.default (Utilities.maxDelay options) 10000 in
  let F := Utilities.default (Utilities.backoffFactor options) 2 in
  Spec.always_fails fn ->
  @Spec.never_throws W E (Utilities.onError options) ->
  (1 <= N)%Z ->
  exists e w' tr,
    Utilities.retry fn options w = (Rejected (Some e), (w', tr))
    /\ (exists w0, fst (fn w0) = Rejected e)
    /\ Spec.tries_of tr = Spec.zseq 1 (Z.to_nat N)
    /\ Spec.waits_of tr = Spec.backoff D F C (Z.to_nat N - 1)
    /\ Forall (fun ms => (ms <= C)%Z) (tl (Spec.waits_of tr))
    /\ Spec.notices_of tr
       = match Utilities.onError options with
         | Some _ => Spec.zseq 1 (Z.to_nat N)
         | None => []
         end.
Proof.
  intros N D C F Hfail Hquiet HN.
  destruct (retry_from_all_fail_from W V E fn (Utilities.onError options) N C F
              (Z.to_nat N - 1) Hfail Hquiet 1%Z D None w [])
    as (e & w' & tail & Hrun & Hfrom & Htries & Hwaits & Hnotices); [lia|].
  replace (S (Z.to_nat N - 1)) with (Z.to_nat N) in Htries, Hnotices by lia.
  exists e, w', tail. unfold Utilities.retry. fold N D C F.
  repeat split; try assumption.
  rewrite Hwaits. apply backoff_capped.
Qed.

(** Under a ceiling below one neither retry helper calls its function, and
    the two disagree on the outcome: [retry] of utils.js rejects, with
    [undefined] as the reason, where [retryRequest] of api.js fulfils with
    [undefined]. *)
Theorem retry_helpers_below_one (options : Utilities.retry_options W E)
  (config : Config.t) (maxRetries : option Z) (requestFn : request_fn W V E)
  (w : W) :
  (Utilities.default (Utilities.maxAttempts options) 3 <= 0)%Z ->
  (or_num maxRetries (Config.retryAttempts config) <= 0)%Z ->
  Utilities.retry fn options w = (Rejected None, (w, []))
  /\ retryRequest config requestFn maxRetries w = (Fulfilled None, (w, [])).
Proof.
  intros Hu Ha. split.
  - unfold Utilities.retry. rewrite retry_from_unfold.
    replace (1 <=? _)%Z with false by (symmetry; apply Z.leb_gt; lia).
    reflexivity.
  - unfold retryRequest. now apply retry_loop_no_attempt.
Qed.

End BackoffOutcomes.

Lemma retry_backs_off_witness :
  exists e w' tr,
    Utilities.retry Examples.failing
      (@Utilities.mkRetryOptions nat nat None None None None None) O
    = (Rejected (Some e), (w', tr))
    /\ (exists w0, fst (Examples.failing w0) = Rejected e)
    /\ Spec.tries_of tr = Spec.zseq 1 3
    /\ Spec.waits_of tr = Spec.backoff 1000 2 10000 2
    /\ Forall (fun ms => (ms <= 10000)%Z) (tl (Spec.waits_of tr))
    /\ Spec.notices_of tr = [].
Proof.
  apply (retry_backs_off nat value nat Examples.failing
           (@Utilities.mkRetryOptions nat nat None None None None None) O).
  - intros w. eexists. reflexivity.
  - intros f Hf. discriminate Hf.
  - simpl. lia.
Defined.

Lemma retry_helpers_below_one_witness :
  Utilities.retry Examples.failing
    (@Utilities.mkRetryOptions nat nat (Some 0%Z) None None None None) O
  = (Rejected None, (O, []))
  /\ retryRequest Config.new Examples.failing (Some (-1)%Z) O
     = (Fulfilled None, (O, [])).
Proof.
  apply (retry_helpers_below_one nat value nat Examples.failing
           (@Utilities.mkRetryOptions nat nat (Some 0%Z) None None None None)
           Config.new (Some (-1)%Z) Examples.failing O);
    simpl; lia.
Defined.

(* ================================================================== *)
(** * Properties of middleware.js: user actions *)
(* ================================================================== *)

Section ActionProperties.

Import Middleware.

Variable toLowerCase : jsstring -> jsstring.

Lemma replace_each_fuel (fuel : nat) :
  forall s, length s < fuel ->
    replace_all_fuel fuel not_lower_or_digit (str "_") s
    = map (fun c => if is_lower_or_digit c then c else 95%N) s.
Proof.
  induction fuel as [|fuel IH]; intros s Hs; [lia|].
  destruct s as [|c rest]; [reflexivity|].
  cbn [replace_all_fuel not_lower_or_digit map length] in *.
  destruct (is_lower_or_digit c); rewrite IH by lia; reflexivity.
Qed.

Lemma action_of_in (key action : jsstring) (map : list (jsstring * jsstring)) :
  action_of key map = Some action -> In action (List.map snd map).
Proof.
  induction map as [|[k a] rest IH]; cbn [action_of List.map snd]; [discriminate|].
  destruct (jsstring_eqb key k); [intros [= ->]; now left | right; auto].
Qed.

(** [extractUserAction] never returns an empty string, so the test
    [if (action)] of [userActivityTracker] always passes.  The action is one
    of the seven of the map, or the lower-cased method, an underscore and
    the route pattern with every code unit other than [a-z] and [0-9]
    replaced by an underscore (same length, only [a-z], [0-9] and [_]). *)
Theorem extractUserAction_is_never_empty (method : jsstring) (req : Request) :
  let action := extractUserAction toLowerCase method req in
  truthy (VScalar (SStr action)) = true
  /\ (In action (map snd actionMap)
      \/ exists suffix,
           action = toLowerCase method ++ str "_" ++ suffix
           /\ length suffix = length (getRoutePattern req)
           /\ forallb (fun c => is_lower_or_digit c || (c =? 95)%N) suffix = true).
Proof.
  intros action. subst action. unfold extractUserAction.
  destruct (action_of _ actionMap) as [[|c a]|] eqn:Hmap.
  - apply action_of_in in Hmap. cbn in Hmap. exfalso.
    repeat (destruct Hmap as [Hmap|Hmap]; [discriminate Hmap|]). exact Hmap.
  - split; [reflexivity|]. left. exact (action_of_in _ _ _ Hmap).
  - split.
    + cbn [truthy truthy_scalar]. destruct (toLowerCase method); reflexivity.
    + right. eexists. split; [reflexivity|].
      unfold replace_all. rewrite replace_each_fuel by lia.
      split; [apply length_map|]. clear Hmap.
      induction (getRoutePattern req) as [|c rest IH]; [reflexivity|].
      cbn [map forallb]. rewrite IH, andb_true_r.
      destruct (is_lower_or_digit c) eqn:Hc; [now rewrite Hc | reflexivity].
Qed.

End ActionProperties.

(* ================================================================== *)
(** * Properties of config.js: the environment comes first *)
(* ================================================================== *)

Section EnvironmentProperties.






End EnvironmentProperties.

(* ================================================================== *)
(** * More on middleware.js: what a normalized route holds *)
(* ================================================================== *)

Section NormalizedRoutes.

Import Middleware.

Lemma nowhere_at (m : matcher) (pre s : jsstring) :
  Spec.nowhere m (pre ++ s) -> m s = None.
Proof.
  induction pre as [|c pre IH]; cbn [app]; intros H.
  - destruct s; apply H.
  - apply IH. cbn [Spec.nowhere] in H. apply H.
Qed.

(** The pattern of a request without a matched route holds no numeric
    segment and no UUID segment: nowhere in it is a slash followed by a
    digit, or by thirty-six code units of [a-f], [0-9] and [-]; and
    stripping the query from it again changes nothing. *)
Theorem normalized_route_has_no_id_segment (url : jsstring) :
  let pattern := getRoutePattern {| route_path := None; Middleware.url := url |} in
  (forall pre c d rest,
      pattern = pre ++ c :: d :: rest -> is_slash c = true -> is_digit d = false)
  /\ (forall pre c rest,
        pattern = pre ++ c :: rest -> is_slash c = true ->
        exactly is_hex_or_dash 36 rest = None)
  /\ strip_query pattern = pattern.
Proof.
  intros pattern.
  assert (Hids : Spec.nowhere slash_digits pattern).
  { subst pattern. cbn [getRoutePattern route_path Middleware.url]. unfold normalize.
    apply strip_query_nowhere; [exact slash_digits_monotone|].
    apply (uuids_keep_no_id _ _ (le_n _)).
    apply (ids_leave_no_id _ _ (le_n _)). }
  assert (Huuids : Spec.nowhere slash_uuid pattern).
  { subst pattern. cbn [getRoutePattern route_path Middleware.url]. unfold normalize.
    apply strip_query_nowhere; [exact slash_uuid_monotone|].
    apply (uuids_leave_no_uuid _ _ (le_n _)). }
  split; [|split].
  - intros pre c d rest Hp Hc. rewrite Hp in Hids. apply nowhere_at in Hids.
    cbn [slash_digits] in Hids. rewrite Hc in Hids. cbn [andb] in Hids.
    now destruct (is_digit d).
  - intros pre c rest Hp Hc. rewrite Hp in Huuids. apply nowhere_at in Huuids.
    cbn [slash_uuid] in Huuids. now rewrite Hc in Huuids.
  - subst pattern. cbn [getRoutePattern route_path Middleware.url]. unfold normalize.
    apply strip_query_idempotent.
Qed.

End NormalizedRoutes.

(* ================================================================== *)
(** * More on api.js: the streams of a send that fails *)
(* ================================================================== *)

Section OpenedStreams.

Variable Net : Type.
Variable http : request -> Net -> settled value API.error * Net.
Variable statSync : jsstring -> option Stats.
Variable basename : jsstring -> jsstring.
Variable config : Config.t.

Local Abbreviation world := (API.world Net).
Local Abbreviation send_once := (API.send_once http statSync basename).

Lemma add_files_stops (there : list jsstring) (missing : jsstring)
  (rest : list jsstring) :
  (forall path, In path there -> existsSync statSync path = true) ->
  existsSync statSync missing = false ->
  forall (files : list (jsstring * jsstring)) (w : world),
    API.add_files statSync basename (there ++ missing :: rest) files w
    = (Rejected (JsError (str "File not found: " ++ missing)),
       {| net := net w; requests := requests w; streams := streams w ++ there |}).
Proof.
  intros Hthere Hmissing.
  induction there as [|path there IH]; intros files w; cbn [app API.add_files].
  - rewrite Hmissing. cbn [negb]. rewrite app_nil_r. now destruct w.
  - rewrite (Hthere path (or_introl eq_refl)). cbn [negb].
    rewrite IH by (intros; apply Hthere; now right).
    cbn [net requests streams]. now rewrite <- app_assoc.
Qed.

Lemma send_once_stops (endpoint : jsstring) (data : value)
  (fields : list (jsstring * scalar))
  (there : list jsstring) (missing : jsstring) (rest : list jsstring) (w : world) :
  flattenAndAddToForm data [] = Fulfilled fields ->
  (forall path, In path there -> existsSync statSync path = true) ->
  existsSync statSync missing = false ->
  send_once endpoint data (there ++ missing :: rest) w
  = (Rejected (JsError (str "File not found: " ++ missing)),
     {| net := net w; requests := requests w; streams := streams w ++ there |}).
Proof.
  intros Hflat Hthere Hmissing. unfold API.send_once, API.sendWithFiles.
  rewrite Hflat, (add_files_stops there missing rest Hthere Hmissing [] w).
  destruct there; reflexivity.
Qed.

Lemma nth_world_stops (endpoint : jsstring) (data : value)
  (fields : list (jsstring * scalar))
  (there : list jsstring) (missing : jsstring) (rest : list jsstring) (k : nat) :
  flattenAndAddToForm data [] = Fulfilled fields ->
  (forall path, In path there -> existsSync statSync path = true) ->
  existsSync statSync missing = false ->
  forall w : world,
    Spec.nth_world (send_once endpoint data (there ++ missing :: rest)) k w
    = {| net := net w; requests := requests w;
         streams := streams w ++ concat (repeat there k) |}.
Proof.
  intros Hflat Hthere Hmissing. induction k as [|k IH]; intros w.
  - cbn [Spec.nth_world repeat concat]. rewrite app_nil_r. now destruct w.
  - cbn [Spec.nth_world repeat concat].
    rewrite (send_once_stops endpoint data fields there missing rest w
               Hflat Hthere Hmissing).
    cbn [snd]. rewrite IH. cbn [net requests streams]. now rewrite <- app_assoc.
Qed.

(** A send whose list of paths has a first missing one opens a read stream
    for each path before it on every attempt and closes none: under a
    ceiling [N] of at least one, a record that passes the guard and that
    flattening returns the fields of is rejected with [File not found], no
    request is issued, and the paths before the missing one have been
    opened [N] times over. *)
Theorem missing_file_reopens_streams (entryData : value)
  (fields : list (jsstring * scalar)) (there : list jsstring)
  (missing : jsstring) (rest : list jsstring) (w : world) :
  Spec.entry_guard entryData = true ->
  flattenAndAddToForm entryData [] = Fulfilled fields ->
  (forall path, In path there -> existsSync statSync path = true) ->
  existsSync statSync missing = false ->
  (1 <= Config.retryAttempts config)%Z ->
  let run :=
    API.sendEntryData http statSync basename config entryData
      (there ++ missing :: rest) w in
  fst run = Rejected (JsError (str "File not found: " ++ missing))
  /\ requests (fst (snd run)) = requests w
  /\ streams (fst (snd run))
     = streams w ++ concat (repeat there (Z.to_nat (Config.retryAttempts config)))
  /\ length (Spec.attempts_of (snd (snd run)))
     = Z.to_nat (Config.retryAttempts config).
Proof.
  intros Hg Hflat Hthere Hmissing HN run.
  set (files := there ++ missing :: rest) in *.
  set (step := send_once (str "/data/entries") entryData files).
  assert (Hstep : forall w0, fst (step w0)
                             = Rejected (JsError (str "File not found: " ++ missing))).
  { intros w0. subst step files.
    now rewrite (send_once_stops _ entryData fields there missing rest w0
                   Hflat Hthere Hmissing). }
  destruct (retryRequest_all_fail_aux world value API.error step config None w)
    as (e & He & Hrun).
  { apply always_fails_each_attempt. intros w0. eexists. apply Hstep. }
  { exact HN. }
  rewrite Hstep in He. injection He as <-.
  change (or_num None (Config.retryAttempts config))
    with (Config.retryAttempts config) in Hrun.
  assert (Hsend : run = retryRequest config step None w).
  { subst run. unfold API.sendEntryData. now rewrite (entry_guard_passes _ Hg). }
  rewrite Hsend, Hrun. cbn [fst snd]. subst step files.
  rewrite (nth_world_stops _ entryData fields there missing rest _
             Hflat Hthere Hmissing w).
  cbn [requests streams].
  repeat split.
  rewrite failing_trace_attempts by exact HN. apply zseq_length.
Qed.

End OpenedStreams.

Lemma missing_file_reopens_streams_witness :
  let run :=
    API.sendEntryData Examples.accepting Examples.tmp_dir Examples.file_name
      Config.new Examples.event_entry
      ([str "/tmp/a.txt"] ++ str "/tmp/b.txt" :: []) Examples.start in
  fst run = Rejected (JsError (str "File not found: " ++ str "/tmp/b.txt"))
  /\ requests (fst (snd run)) = requests Examples.start
  /\ streams (fst (snd run))
     = streams Examples.start
       ++ concat (repeat [str "/tmp/a.txt"] (Z.to_nat (Config.retryAttempts Config.new)))
  /\ length (Spec.attempts_of (snd (snd run)))
     = Z.to_nat (Config.retryAttempts Config.new).
Proof.
  apply (missing_file_reopens_streams nat Examples.accepting Examples.tmp_dir
           Examples.file_name Config.new Examples.event_entry
           [(str "externalId", SStr (str "e1"));
            (str "dataType", SStr (str "event_data"))]
           [str "/tmp/a.txt"] (str "/tmp/b.txt") [] Examples.start).
  - reflexivity.
  - reflexivity.
  - intros path [<-|[]]. reflexivity.
  - reflexivity.
  - simpl. lia.
Defined.

(* ================================================================== *)
(** * More on config.js: how much of the key id the JSON form shows *)
(* ================================================================== *)

Section MaskedKeyId.

(** The JSON form masks a key id by its length only down to four code
    units: of a non-empty key id [k] it shows three asterisks and the last
    [min 4 (length k)] code units, so a key id of at most four code units is
    shown in full. *)
Theorem toJSON_shows_a_short_keyId (c : Config.t) (k : jsstring) :
  Config.keyId c = Some k ->
  k <> [] ->
  (exists shown,
      get (str "keyId") (Config.toJSON c) = VScalar (SStr (str "***" ++ shown))
      /\ length shown = Nat.min 4 (length k)
      /\ exists hidden, k = hidden ++ shown)
  /\ (length k <= 4 ->
      get (str "keyId") (Config.toJSON c) = VScalar (SStr (str "***" ++ k))).
Proof.
  intros Hk Hne.
  assert (Hjson : get (str "keyId") (Config.toJSON c)
                  = VScalar (SStr (str "***" ++ Spec.last4 k))).
  { unfold Config.toJSON. rewrite Hk. destruct k as [|ch k]; [congruence|].
    cbn [truthy_str]. rewrite slice_last4. reflexivity. }
  split.
  - exists (Spec.last4 k). split; [exact Hjson|]. unfold Spec.last4. split.
    + rewrite length_skipn. lia.
    + exists (firstn (length k - 4) k). symmetry. apply firstn_skipn.
  - intros Hshort. rewrite Hjson. unfold Spec.last4.
    replace (length k - 4) with 0 by lia. reflexivity.
Qed.

End MaskedKeyId.

Lemma toJSON_shows_a_short_keyId_witness :
  let c := Config.load Config.new Config.empty_env
             {| Config.o_keyId := Some (str "k42");
                Config.o_keySecret := Some (str "alpha");
                Config.o_baseUrl := None;
                Config.o_enableDefaultMetrics := None;
                Config.o_enableLogging := None;
                Config.o_timeout := None;
                Config.o_retryAttempts := None;
                Config.o_retryDelay := None;
                Config.o_customTags := None;
                Config.o_serviceName := None;
                Config.o_serviceVersion := None |} in
  (exists shown,
      get (str "keyId") (Config.toJSON c) = VScalar (SStr (str "***" ++ shown))
      /\ length shown = Nat.min 4 (length (str "k42"))
      /\ exists hidden, str "k42" = hidden ++ shown)
  /\ (length (str "k42") <= 4 ->
      get (str "keyId") (Config.toJSON c) = VScalar (SStr (str "***" ++ str "k42"))).
Proof.
  apply toJSON_shows_a_short_keyId; [reflexivity | discriminate].
Defined.
